(** * OBJ2PMaker: mesh-to-grid conversion and property-file patching

    A shallow embedding of the core functions of [extractBodies.py] and of
    [files/OLD/cis_bodies2pm_working.py], with the properties of the
    natural-language specification stated and proved (or refuted) on them.

    Conventions of the embedding:
    - a Python [str] is a [string] (characters are 8-bit [ascii]; the
      whitespace class is [str.isspace] restricted to that range);
    - a Python [int] is a [Z]; list positions and vertex indices, which the
      code only ever produces by [enumerate], [range] and [len], are [nat];
    - a Python [float] is an exact rational [Q]: rounding, signed zeros and
      NaN are not modelled;
    - a raised exception is the [Raise] constructor of [result]. *)

From Stdlib Require Import Ascii String DecimalString.
From Stdlib Require DecimalZ DecimalPos DecimalN.
From Stdlib Require Import ZArith QArith Qabs Qminmax Bool Arith Lia Lqa.
From Stdlib Require Import List Permutation Sorted.
Import ListNotations.

Close Scope Q_scope.
Local Open Scope nat_scope.
Local Open Scope string_scope.
Local Open Scope list_scope.

(** ** Exceptions *)

Inductive exn : Type :=
| ValueError
| RuntimeError
| KeyError
| IndexError
| AssertionError.

Inductive result (A : Type) : Type :=
| Ok (a : A)
| Raise (e : exn).

Arguments Ok {A} a.
Arguments Raise {A} e.

Definition bind {A B : Type} (r : result A) (k : A -> result B) : result B :=
  match r with
  | Ok a => k a
  | Raise e => Raise e
  end.

Notation "x <- r ;; k" := (bind r (fun x => k))
  (at level 61, r at next level, right associativity).
Notation "' pat <- r ;; k" := (bind r (fun x => match x with pat => k end))
  (at level 61, pat pattern, r at next level, right associativity).

(** ** Python string primitives *)

Module PyStr.

(** [str.isspace] on one character of the 8-bit range: TAB, LF, VT, FF, CR,
    the separators FS, GS, RS, US, the space, NEL (133) and the no-break
    space (160). *)
Definition isspace (c : ascii) : bool :=
  let n := nat_of_ascii c in
  ((9 <=? n)%nat && (n <=? 13)%nat) || ((28 <=? n)%nat && (n <=? 32)%nat)
  || (n =? 133)%nat || (n =? 160)%nat.

(** [s.lstrip()] *)
Fixpoint lstrip (s : string) : string :=
  match s with
  | EmptyString => EmptyString
  | String c s' => if isspace c then lstrip s' else s
  end.

Fixpoint rev_string (s : string) (acc : string) : string :=
  match s with
  | EmptyString => acc
  | String c s' => rev_string s' (String c acc)
  end.

(** [s.rstrip()] *)
Definition rstrip (s : string) : string :=
  rev_string (lstrip (rev_string s EmptyString)) EmptyString.

(** [s.strip()] *)
Definition strip (s : string) : string := rstrip (lstrip s).

(** [s.startswith(p)] *)
Definition startswith (s p : string) : bool := String.prefix p s.

(** [s.split()]: the maximal runs of non-whitespace characters.  [cur] is
    the run being read, reversed. *)
Fixpoint split_ws (s : string) (cur : string) : list string :=
  match s with
  | EmptyString =>
      match cur with
      | EmptyString => []
      | _ => [rev_string cur EmptyString]
      end
  | String c s' =>
      if isspace c then
        match cur with
        | EmptyString => split_ws s' EmptyString
        | _ => rev_string cur EmptyString :: split_ws s' EmptyString
        end
      else split_ws s' (String c cur)
  end.

Definition split (s : string) : list string := split_ws s EmptyString.

(** [f"{n}"] for an [int] *)
Definition of_int (n : Z) : string := NilZero.string_of_int (Z.to_int n).

Definition digit_val (c : ascii) : option Z :=
  let n := nat_of_ascii c in
  if (48 <=? n)%nat && (n <=? 57)%nat then Some (Z.of_nat (n - 48)) else None.

(** The digits of an integer literal: a digit, then digits each optionally
    preceded by one underscore. [acc] is the value read so far. *)
Fixpoint int_digits (s : string) (acc : Z) : option Z :=
  match s with
  | EmptyString => Some acc
  | String c s' =>
      match digit_val c with
      | Some d => int_digits s' (10 * acc + d)%Z
      | None =>
          if Ascii.eqb c "_"%char then
            match s' with
            | String c' s'' =>
                match digit_val c' with
                | Some d => int_digits s'' (10 * acc + d)%Z
                | None => None
                end
            | EmptyString => None
            end
          else None
      end
  end.

Definition int_unsigned (s : string) : option Z :=
  match s with
  | String c s' =>
      match digit_val c with
      | Some d => int_digits s' d
      | None => None
      end
  | EmptyString => None
  end.

(** [int(s)] in base 10; [None] stands for [ValueError]. *)
Definition to_int (s : string) : option Z :=
  match strip s with
  | String "-"%char s' => option_map Z.opp (int_unsigned s')
  | String "+"%char s' => int_unsigned s'
  | s' => int_unsigned s'
  end.

End PyStr.

(** ** Config patcher, prefix strategy ([extractBodies.py]) *)

Definition body_prefix (body_index : Z) : string :=
  ("P _body/" ++ PyStr.of_int body_index ++ "/")%string.

(** [l.lstrip().startswith(prefix)] *)
Definition is_body_line (body_index : Z) (l : string) : bool :=
  PyStr.startswith (PyStr.lstrip l) (body_prefix body_index).

(** [next((i for i, l in enumerate(xs) if p(l)), default)] *)
Fixpoint first_index {A : Type} (p : A -> bool) (xs : list A) (i : nat)
  (default : nat) : nat :=
  match xs with
  | [] => default
  | x :: xs' => if p x then i else first_index p xs' (S i) default
  end.

Definition replace_body_block (acf_lines : list string) (body_index : Z)
  (new_block : list string) : list string :=
  let kept := filter (fun l => negb (is_body_line body_index l)) acf_lines in
  let first_pos :=
    first_index (is_body_line body_index) acf_lines 0 (length kept) in
  let first_pos := Nat.min first_pos (length kept) in
  firstn first_pos kept ++ new_block ++ skipn first_pos kept.

(** The lines of body [body_index] currently in the document, in order. *)
Definition body_block (acf_lines : list string) (body_index : Z) : list string :=
  filter (is_body_line body_index) acf_lines.

(** ** Config patcher, marker strategy ([cis_bodies2pm_working.py]) *)

(** The marker scan of [rewrite_acf_bodies]: the last [PROPERTIES_BEGIN]
    seen before the first [PROPERTIES_END], where the loop breaks. *)
Fixpoint find_markers (lines : list string) (idx : nat)
  (prop_begin : option nat) : option nat * option nat :=
  match lines with
  | [] => (prop_begin, None)
  | line :: rest =>
      if String.eqb (PyStr.strip line) "PROPERTIES_BEGIN" then
        find_markers rest (S idx) (Some idx)
      else if String.eqb (PyStr.strip line) "PROPERTIES_END" then
        (prop_begin, Some idx)
      else find_markers rest (S idx) prop_begin
  end.

Definition is_any_body_line (l : string) : bool :=
  PyStr.startswith (PyStr.lstrip l) "P _body/".

(** The scan for the first and the last [P _body/] line over the positions
    [idxs]; the state is [(body_start, body_end)]. *)
Definition scan_bodies (lines : list string) (idxs : list nat)
  : option nat * option nat :=
  fold_left
    (fun (st : option nat * option nat) idx =>
       if is_any_body_line (nth idx lines "") then
         (match fst st with None => Some idx | Some s => Some s end, Some idx)
       else st)
    idxs (None, None).

(** [rewrite_acf_bodies], from the lines read to the lines written. *)
Definition rewrite_acf_bodies (lines : list string)
  (new_body_lines : list string) : result (list string) :=
  match find_markers lines 0 None with
  | (Some prop_begin, Some prop_end) =>
      if (prop_end <=? prop_begin)%nat then Raise RuntimeError
      else
        let idxs := seq (prop_begin + 1) (prop_end - (prop_begin + 1)) in
        match scan_bodies lines idxs with
        | (Some body_start, Some body_end) =>
            Ok (firstn body_start lines ++ new_body_lines
                  ++ skipn (body_end + 1) lines)
        | _ =>
            let body_start := prop_begin + 1 in
            Ok (firstn body_start lines ++ new_body_lines
                  ++ skipn body_start lines)
        end
  | _ => Raise RuntimeError
  end.

(** ** Dimension discovery ([extractBodies.py]) *)

(** [int(t.split()[-1])] under the bare [except]: [None] when the line has
    no token or the last token is not an integer literal. *)
Definition last_token_int (t : string) : option Z :=
  match rev (PyStr.split t) with
  | tok :: _ => PyStr.to_int tok
  | [] => None
  end.

Definition i_count_prefix (body_index : Z) : string :=
  ("P _body/" ++ PyStr.of_int body_index ++ "/_locked/i_count")%string.

Definition j_count_prefix (body_index : Z) : string :=
  ("P _body/" ++ PyStr.of_int body_index ++ "/_locked/j_count")%string.

Definition or_keep (new old : option Z) : option Z :=
  match new with
  | Some v => Some v
  | None => old
  end.

(** The loop of [read_target_dims_from_acf] with its [break]. *)
Fixpoint read_dims_loop (pi pj : string) (acf_lines : list string)
  (i_count j_count : option Z) : option Z * option Z :=
  match acf_lines with
  | [] => (i_count, j_count)
  | s :: rest =>
      let t := PyStr.strip s in
      let '(i_count, j_count) :=
        if PyStr.startswith t pi then
          (or_keep (last_token_int t) i_count, j_count)
        else if PyStr.startswith t pj then
          (i_count, or_keep (last_token_int t) j_count)
        else (i_count, j_count) in
      match i_count, j_count with
      | Some _, Some _ => (i_count, j_count)
      | _, _ => read_dims_loop pi pj rest i_count j_count
      end
  end.

Definition read_target_dims_from_acf (acf_lines : list string)
  (body_index : Z) : Z * Z :=
  let '(i_count, j_count) :=
    read_dims_loop (i_count_prefix body_index) (j_count_prefix body_index)
      acf_lines None None in
  (match i_count with Some v => v | None => 20%Z end,
   match j_count with Some v => v | None => 18%Z end).

(** ** Geometry: vertices and Python list primitives *)

Definition vertex : Type := (Q * Q * Q)%type.

Definition vx (v : vertex) : Q := fst (fst v).
Definition vy (v : vertex) : Q := snd (fst v).
Definition vz (v : vertex) : Q := snd v.

Definition FT_PER_M : Q := 328084 # 100000.

(** [a < b] on floats *)
Definition Qltb (a b : Q) : bool :=
  match (a ?= b)%Q with
  | Lt => true
  | _ => false
  end.

Module PyList.

(** The position a slice bound [k] denotes in a list of length [len]. *)
Definition clamp (len : nat) (k : Z) : nat :=
  let k' := if (k <? 0)%Z then (k + Z.of_nat len)%Z else k in
  Z.to_nat (Z.min (Z.of_nat len) (Z.max 0 k')).

(** [l[a:b]] *)
Definition slice {A : Type} (l : list A) (a b : Z) : list A :=
  let a' := clamp (length l) a in
  let b' := clamp (length l) b in
  firstn (b' - a') (skipn a' l).

(** [range(a, b)] *)
Definition range (a b : Z) : list Z :=
  map (fun k => (a + Z.of_nat k)%Z) (seq 0 (Z.to_nat (b - a))).

(** One insertion of the stable sort: [x] goes before the first element
    it is not above. *)
Fixpoint insert_by {A : Type} (le : A -> A -> bool) (x : A) (l : list A)
  : list A :=
  match l with
  | [] => [x]
  | y :: l' => if le x y then x :: l else y :: insert_by le x l'
  end.

(** [sorted(l, key=...)] is stable; so is this insertion sort, and a stable
    sort of a list is unique. *)
Definition sorted_by {A : Type} (le : A -> A -> bool) (l : list A) : list A :=
  fold_right (insert_by le) [] l.

(** [sorted(l, key=key)] *)
Definition sorted_key {A : Type} (key : A -> Q) (l : list A) : list A :=
  sorted_by (fun a b => Qle_bool (key a) (key b)) l.

(** [sorted(l, key=key, reverse=True)]: descending, equal keys in their
    original order. *)
Definition sorted_key_rev {A : Type} (key : A -> Q) (l : list A) : list A :=
  sorted_by (fun a b => Qle_bool (key b) (key a)) l.

(** [sum(l)] *)
Definition sum (l : list Q) : Q := fold_left Qplus l 0%Q.

(** [max(a, b)]: the first of the largest. *)
Definition max2 (a b : Q) : Q := if Qltb a b then b else a.

(** [max(iterable, default=d)] *)
Definition max_default (l : list Q) (d : Q) : Q :=
  match l with
  | [] => d
  | x :: l' => fold_left max2 l' x
  end.

End PyList.

(** ** Stationing by z clusters ([extractBodies.py]) *)

(** The [while off < n_mid] loop.  It makes at most [n_mid] rounds when
    [verts_per_loop] is positive and never ends otherwise; [None] is the
    loop that does not end. *)
Fixpoint station_loop (fuel : nat) (middle : list vertex) (verts_per_loop : Z)
  (off : Z) : option (list (list vertex)) :=
  if (off <? Z.of_nat (length middle))%Z then
    match fuel with
    | O => None
    | S fuel' =>
        option_map (cons (PyList.slice middle off (off + verts_per_loop)))
          (station_loop fuel' middle verts_per_loop (off + verts_per_loop)%Z)
    end
  else Some [].

Definition build_stations_from_geometry (verts : list vertex)
  (verts_per_loop : Z) (with_tip_tail : bool)
  : option (list (list vertex)) :=
  match verts with
  | [] => Some []
  | _ =>
      let v_sorted := PyList.sorted_key vz verts in
      if (Z.of_nat (length v_sorted) <? 1 + verts_per_loop + 1)%Z then
        Some [v_sorted]
      else
        let tip := firstn 1 v_sorted in
        let tail := PyList.slice v_sorted (-1) (Z.of_nat (length v_sorted)) in
        let middle := PyList.slice v_sorted 1 (-1) in
        match station_loop (length middle) middle verts_per_loop 0 with
        | None => None
        | Some mids =>
            Some ((if with_tip_tail then [tip] else []) ++ mids
                    ++ (if with_tip_tail then [tail] else []))
        end
  end.

Definition pad_or_truncate_stations (stations : list (list vertex))
  (target_i : Z) : list (list vertex) :=
  if (Z.of_nat (length stations) =? target_i)%Z then stations
  else if (target_i <? Z.of_nat (length stations))%Z then
    PyList.slice stations 0 target_i
  else
    stations ++ repeat [] (Z.to_nat (target_i - Z.of_nat (length stations))).

(** ** Geometry emission ([extractBodies.py]) *)

(** One geometry line [P _body/<b>/_geo_xyz/<i>,<j>,<k> <value>]. *)
Record geo_line : Type := GeoLine {
  geo_body : Z;
  geo_i : nat;
  geo_j : nat;
  geo_k : nat;
  geo_val : Q
}.

(** The three lines of slot [(i, j)]. *)
Definition slot_lines (b : Z) (i j : nat) (x y z : Q) : list geo_line :=
  [GeoLine b i j 0 x; GeoLine b i j 1 y; GeoLine b i j 2 z].

(** The [cell] dictionary, keyed by [(j, axis)]: the pair written last is
    at the head. *)
Definition cell_dict : Type := list ((nat * nat) * Q).

Definition cell_set (cell : cell_dict) (j k : nat) (v : Q) : cell_dict :=
  ((j, k), v) :: cell.

(** [cell.get((j, k), 0.0)] *)
Fixpoint cell_get (cell : cell_dict) (j k : nat) : Q :=
  match cell with
  | [] => 0%Q
  | ((j', k'), v) :: cell' =>
      if ((j' =? j) && (k' =? k))%nat then v else cell_get cell' j k
  end.

(** The index of the last non-empty station, [-1] when there is none. *)
Fixpoint last_non_empty_from (stations : list (list vertex)) (i : nat) (acc : Z)
  : Z :=
  match stations with
  | [] => acc
  | s :: rest =>
      last_non_empty_from rest (S i)
        (match s with [] => acc | _ => Z.of_nat i end)
  end.

Definition last_non_empty_idx (stations : list (list vertex)) : Z :=
  last_non_empty_from stations 0 (-1)%Z.

(** [sum(l)/len(l) if l else 0.0] *)
Definition mean_or_zero (l : list Q) : Q :=
  match l with
  | [] => 0%Q
  | _ => (PyList.sum l / inject_Z (Z.of_nat (length l)))%Q
  end.

(** The loop filling [cell] from the sorted positive half. *)
Fixpoint fill_cells (js_right js_left : list nat) (pos_sorted : list vertex)
  (idx : nat) (cell : cell_dict) : cell_dict :=
  match pos_sorted with
  | [] => cell
  | v :: rest =>
      let x_ft := (vx v * FT_PER_M)%Q in
      let y_ft := (vy v * FT_PER_M)%Q in
      let z_ft := (vz v * FT_PER_M)%Q in
      let jr := nth (idx mod Nat.max 1 (length js_right)) js_right 0 in
      let jl := nth (idx mod Nat.max 1 (length js_left)) js_left 0 in
      let cell := cell_set cell jr 0 x_ft in
      let cell := cell_set cell jr 1 y_ft in
      let cell := cell_set cell jr 2 z_ft in
      let cell := cell_set cell jl 0 (- x_ft)%Q in
      let cell := cell_set cell jl 1 y_ft in
      let cell := cell_set cell jl 2 z_ft in
      fill_cells js_right js_left rest (S idx) cell
  end.

(** The lines of station [i]. *)
Definition station_lines (body_index : Z) (J : nat) (with_tip_tail : bool)
  (last_idx : Z) (i : nat) (verts_here : list vertex) : list geo_line :=
  match verts_here with
  | [] => flat_map (fun j => slot_lines body_index i j 0 0 0) (seq 0 J)
  | _ =>
      let is_tip := with_tip_tail && (i =? 0)%nat in
      let is_tail := with_tip_tail && (Z.of_nat i =? last_idx)%Z in
      if is_tip || is_tail then
        let y_ft := (mean_or_zero (map vy verts_here) * FT_PER_M)%Q in
        let z_ft := (mean_or_zero (map vz verts_here) * FT_PER_M)%Q in
        flat_map (fun j => slot_lines body_index i j 0 y_ft z_ft) (seq 0 J)
      else
        let half := J / 2 in
        let js_right := seq 0 half in
        let js_left := rev (seq half (J - half)) in
        let pos :=
          match filter (fun v => Qle_bool 0 (vx v)) verts_here with
          | [] => verts_here
          | p => p
          end in
        let pos_sorted := PyList.sorted_key_rev vy pos in
        let cell := fill_cells js_right js_left pos_sorted 0 [] in
        flat_map
          (fun j =>
             slot_lines body_index i j
               (cell_get cell j 0) (cell_get cell j 1) (cell_get cell j 2))
          (seq 0 J)
  end.

Fixpoint enumerate_from {A : Type} (i : nat) (l : list A) : list (nat * A) :=
  match l with
  | [] => []
  | x :: l' => (i, x) :: enumerate_from (S i) l'
  end.

(** [generate_geo_xyz_literal_from_stations], before the lines are turned
    into text. *)
Definition geo_xyz_from_stations (stations_mesh : list (list vertex))
  (body_index : Z) (target_i target_j : Z) (with_tip_tail : bool)
  : list geo_line :=
  let stations := pad_or_truncate_stations stations_mesh target_i in
  let J := Z.to_nat (Z.max 2 target_j) in
  let last_idx := last_non_empty_idx stations in
  flat_map
    (fun iv => station_lines body_index J with_tip_tail last_idx (fst iv) (snd iv))
    (enumerate_from 0 stations).

(** [f"{x:.9f}"]: nine decimals, half-way cases to the even neighbour. *)
Definition fmt9 (x : Q) : string :=
  let scaled := (Z.abs (Qnum x) * 10 ^ 9)%Z in
  let den := Zpos (Qden x) in
  let q := (scaled / den)%Z in
  let r := (scaled mod den)%Z in
  let n :=
    if (2 * r <? den)%Z then q
    else if (den <? 2 * r)%Z then (q + 1)%Z
    else if Z.even q then q else (q + 1)%Z in
  let frac := PyStr.of_int (n mod 10 ^ 9) in
  ((if (Qnum x <? 0)%Z then "-" else "")
     ++ PyStr.of_int (n / 10 ^ 9) ++ "."
     ++ string_of_list_ascii (repeat "0"%char (9 - String.length frac))
     ++ frac)%string.

Definition render_geo_line (g : geo_line) : string :=
  ("P _body/" ++ PyStr.of_int (geo_body g) ++ "/_geo_xyz/"
     ++ PyStr.of_int (Z.of_nat (geo_i g)) ++ ","
     ++ PyStr.of_int (Z.of_nat (geo_j g)) ++ ","
     ++ PyStr.of_int (Z.of_nat (geo_k g)) ++ " "
     ++ fmt9 (geo_val g))%string.

Definition generate_geo_xyz_literal_from_stations
  (stations_mesh : list (list vertex)) (body_index : Z)
  (target_i target_j : Z) (with_tip_tail : bool) : list string :=
  map render_geo_line
    (geo_xyz_from_stations stations_mesh body_index target_i target_j
       with_tip_tail).

(** ** Bounding radius *)

(** [compute_grid_radius_ft] of [extractBodies.py] *)
Definition compute_grid_radius_ft (verts : list vertex) : Q :=
  match verts with
  | [] => 5%Q
  | _ =>
      let max_abs_x := PyList.max_default (map (fun v => Qabs (vx v)) verts) 0 in
      let max_abs_y := PyList.max_default (map (fun v => Qabs (vy v)) verts) 0 in
      (PyList.max2 max_abs_x max_abs_y * FT_PER_M + 3)%Q
  end.

(** The two running maxima of [compute_part_rad_from_rings]. *)
Definition rad_step (m : Q * Q) (p : vertex) : Q * Q :=
  let ax := Qabs (vx p) in
  let ay := Qabs (vy p) in
  (if Qltb (fst m) ax then ax else fst m,
   if Qltb (snd m) ay then ay else snd m).

Definition rad_scan (rings : list (list vertex)) : Q * Q :=
  fold_left (fun m ring => fold_left rad_step ring m) rings (0%Q, 0%Q).

(** [compute_part_rad_from_rings] of [cis_bodies2pm_working.py] *)
Definition compute_part_rad_from_rings (rings : list (list vertex))
  (buffer_ft : Q) : Q :=
  let m := rad_scan rings in
  (PyList.max2 (fst m) (snd m) + buffer_ft)%Q.

(** ** Emission order ([cis_bodies2pm_working.py]) *)






(** ** Topology ([cis_bodies2pm_working.py]) *)

(** The first index of a smallest ([min(range(n), key=...)]) or of a largest
    ([max(range(n), key=...)]) value; [ValueError] on an empty range. *)
Fixpoint arg_first (better : Q -> Q -> bool) (zs : list Q) (i : nat)
  (best_i : nat) (best : Q) : nat :=
  match zs with
  | [] => best_i
  | z :: zs' =>
      if better z best then arg_first better zs' (S i) i z
      else arg_first better zs' (S i) best_i best
  end.

Definition argmin (zs : list Q) : result nat :=
  match zs with
  | [] => Raise ValueError
  | z :: zs' => Ok (arg_first Qltb zs' 1 0 z)
  end.

Definition argmax (zs : list Q) : result nat :=
  match zs with
  | [] => Raise ValueError
  | z :: zs' => Ok (arg_first (fun a b => Qltb b a) zs' 1 0 z)
  end.

(** The [dist] dictionary, in insertion order. *)
Definition dist_dict : Type := list (nat * nat).

Fixpoint dist_get (dist : dist_dict) (v : nat) : option nat :=
  match dist with
  | [] => None
  | (k, d) :: dist' => if (k =? v)%nat then Some d else dist_get dist' v
  end.

Definition dist_mem (dist : dist_dict) (v : nat) : bool :=
  match dist_get dist v with
  | Some _ => true
  | None => false
  end.

(** The [for nb in neighbors[v]] loop; [dv] is [dist[v]]. *)
Fixpoint visit (nbs : list nat) (dv : nat) (dist : dist_dict) (q : list nat)
  : dist_dict * list nat :=
  match nbs with
  | [] => (dist, q)
  | nb :: rest =>
      if dist_mem dist nb then visit rest dv dist q
      else visit rest dv (dist ++ [(nb, dv + 1)]) (q ++ [nb])
  end.

(** The [while q] loop.  [None] is a loop cut short by [fuel];
    [bfs_loop_total] shows that the fuel given below is never used up. *)
Fixpoint bfs_loop (fuel : nat) (neighbors : list (list nat)) (q : list nat)
  (dist : dist_dict) : option (result dist_dict) :=
  match q with
  | [] => Some (Ok dist)
  | v :: q' =>
      match fuel with
      | O => None
      | S fuel' =>
          match nth_error neighbors v with
          | None => Some (Raise IndexError)
          | Some nbs =>
              match dist_get dist v with
              | None => Some (Raise KeyError)
              | Some dv =>
                  let '(dist', q'') := visit nbs dv dist q' in
                  bfs_loop fuel' neighbors q'' dist'
              end
          end
      end
  end.

Definition compute_topological_layers (verts_m : list vertex)
  (neighbors : list (list nat)) : result (dist_dict * nat * nat) :=
  let z_values := map vz verts_m in
  nose <- argmin z_values ;;
  tail <- argmax z_values ;;
  match bfs_loop (S (length neighbors)) neighbors [nose] [(nose, 0)] with
  | Some r => dist <- r ;; Ok (dist, nose, tail)
  | None => Raise RuntimeError
  end.

(** [buckets[d]]: the vertices at distance [d], in the order of [dist]. *)
Definition bucket (dist : dist_dict) (d : nat) : list nat :=
  map fst (filter (fun kd => (snd kd =? d)%nat) dist).

Fixpoint insert_nat (x : nat) (l : list nat) : list nat :=
  match l with
  | [] => [x]
  | y :: l' => if (x <=? y)%nat then x :: l else y :: insert_nat x l'
  end.

(** [sorted(buckets.keys())] *)
Definition d_values_of (dist : dist_dict) : list nat :=
  fold_right insert_nat [] (nodup Nat.eq_dec (map snd dist)).

(** The loop over the mid layers. *)
Fixpoint mid_stations (dist : dist_dict) (tail_d : nat) (d_values : list nat)
  : result (list (list nat)) :=
  match d_values with
  | [] => Ok []
  | d :: rest =>
      if ((d =? 0) || (d =? tail_d))%nat then mid_stations dist tail_d rest
      else
        let ring := bucket dist d in
        let n_ring := length ring in
        if (n_ring =? 0)%nat then mid_stations dist tail_d rest
        else if negb ((8 <=? n_ring) && (n_ring <=? 16))%nat then
          Raise ValueError
        else
          more <- mid_stations dist tail_d rest ;;
          Ok (ring :: more)
  end.

Definition build_station_vertex_groups (verts_m : list vertex)
  (neighbors : list (list nat)) (max_stations : nat)
  : result (list (list nat)) :=
  '(dist, nose, tail) <- compute_topological_layers verts_m neighbors ;;
  let d_values := d_values_of dist in
  d_min <- match d_values with
           | [] => Raise ValueError
           | d :: _ => Ok d
           end ;;
  if negb (d_min =? 0)%nat then Raise AssertionError
  else
    tail_candidate <- argmax (map vz verts_m) ;;
    match dist_get dist tail_candidate with
    | None => Raise KeyError
    | Some tail_d =>
        let tail_bucket := bucket dist tail_d in
        mids <- mid_stations dist tail_d d_values ;;
        let stations := [nose] :: mids in
        if negb (length tail_bucket =? 1)%nat then Raise ValueError
        else
          let stations := stations ++ [tail_bucket] in
          if (max_stations <? length stations)%nat then Raise ValueError
          else Ok stations
    end.

(** ** Rings ([cis_bodies2pm_working.py]) *)

Definition eps : Q := 1 # 100000.
Definition eps_split : Q := 1 # 100000.
Definition eps_center : Q := 1 # 10000.
Definition eps_angle : Q := 1 # 1000000000000.

(** [if abs(v) < eps: v = 0.0] *)
Definition snap (v : Q) : Q := if Qltb (Qabs v) eps then 0%Q else v.

Definition to_ft (v : vertex) : vertex :=
  ((vx v * FT_PER_M)%Q, (vy v * FT_PER_M)%Q, (vz v * FT_PER_M)%Q).

(** The ring of a one-vertex station. *)
Definition tip_ring (v : vertex) : list vertex :=
  let y_ft := snap (vy v * FT_PER_M)%Q in
  let z_ft := snap (vz v * FT_PER_M)%Q in
  repeat (0%Q, y_ft, z_ft) 18.

(** [max(cl, key=...)] and [min(cl, key=...)] on a non-empty list of
    [(index, y)] pairs: the first pair that no later one beats. *)
Fixpoint first_best (better : Q -> Q -> bool) (cl : list (nat * Q))
  (best : nat * Q) : nat * Q :=
  match cl with
  | [] => best
  | c :: cl' =>
      if better (snd c) (snd best) then first_best better cl' c
      else first_best better cl' best
  end.

Definition center_indices (half_ft : list vertex) : list nat :=
  map fst
    (filter (fun iv => Qltb (Qabs (vx (snd iv))) eps_center)
       (enumerate_from 0 half_ft)).

(** The elements of [l] at the positions other than [a] and [b]. *)
Definition drop_two {A : Type} (a b : nat) (l : list A) : list A :=
  map snd
    (filter (fun iv => negb ((fst iv =? a) || (fst iv =? b))%nat)
       (enumerate_from 0 l)).

Definition snap3 (p : vertex) : vertex := (snap (vx p), snap (vy p), snap (vz p)).

(** [ring[9 + j]] from [left_ring[j]] *)
Definition mirror (p : vertex) : vertex := (snap (- vx p)%Q, vy p, vz p).

Section Rings.

(** [math.atan2(y, x)].  Only the order of its values matters here, so they
    are taken in [Q]. *)
Variable atan2 : Q -> Q -> Q.

(** The sort key of a side vertex. *)
Definition angle_key (p : vertex) : Q :=
  atan2 (vy p) (if Qltb eps_angle (Qabs (vx p)) then vx p else 0%Q).

(** The list [ordered] of a mid ring. *)
Definition half_order (half_ft : list vertex) : list vertex :=
  match center_indices half_ft with
  | (c0 :: _ :: _) as cis =>
      let cl := map (fun i => (i, vy (nth i half_ft (0%Q, 0%Q, 0%Q)))) cis in
      let c0y := (c0, vy (nth c0 half_ft (0%Q, 0%Q, 0%Q))) in
      let top_i := fst (first_best (fun a b => Qltb b a) (tl cl) c0y) in
      let bot_i := fst (first_best Qltb (tl cl) c0y) in
      let top := nth top_i half_ft (0%Q, 0%Q, 0%Q) in
      let bottom := nth bot_i half_ft (0%Q, 0%Q, 0%Q) in
      let side := drop_two top_i bot_i half_ft in
      [top] ++ PyList.sorted_key_rev angle_key side ++ [bottom]
  | _ => PyList.sorted_key_rev angle_key half_ft
  end.

(** [left_ring]: nine slots, the last point repeated when there are fewer. *)
Definition left_ring_of (ordered : list vertex) : list vertex :=
  map (fun j => snap3 (nth j ordered (last ordered (0%Q, 0%Q, 0%Q)))) (seq 0 9).

(** One mid ring and its half count; [ValueError] when the half has fewer
    than 5 or more than 9 vertices. *)
Definition mid_ring (station_verts_m : list vertex)
  : result (list vertex * nat) :=
  let half_raw :=
    filter (fun v => Qle_bool (- eps_split)%Q (vx v)) station_verts_m in
  let n_half := length half_raw in
  if negb ((5 <=? n_half) && (n_half <=? 9))%nat then Raise ValueError
  else
    let half_ft := map to_ft half_raw in
    let ordered := half_order half_ft in
    let left_ring := left_ring_of ordered in
    Ok (left_ring ++ map mirror left_ring, n_half).

(** [list(nb)] for a set [nb] of ints, given by its elements in insertion
    order.  The order in which CPython iterates a set is not specified. *)
Variable list_of_set : list nat -> list nat.

Definition set_add (s : list nat) (x : nat) : list nat :=
  if existsb (Nat.eqb x) s then s else s ++ [x].

Fixpoint list_set {A : Type} (l : list A) (i : nat) (x : A) : list A :=
  match l, i with
  | [], _ => []
  | _ :: l', O => x :: l'
  | y :: l', S i' => y :: list_set l' i' x
  end.

(** [neighbors[v0].add(v1)] *)
Definition add_neighbor (neighbors : list (list nat)) (v0 v1 : nat)
  : result (list (list nat)) :=
  match nth_error neighbors v0 with
  | None => Raise IndexError
  | Some s => Ok (list_set neighbors v0 (set_add s v1))
  end.

(** The pairs [(face[i], face[(i + 1) % n])]. *)
Definition face_edges (face : list nat) : list (nat * nat) :=
  match face with
  | [] => []
  | v :: rest => combine face (rest ++ [v])
  end.

Definition add_edges (neighbors : list (list nat)) (edges : list (nat * nat))
  : result (list (list nat)) :=
  fold_left
    (fun acc e =>
       nbs <- acc ;;
       if (fst e =? snd e)%nat then Ok nbs
       else
         nbs1 <- add_neighbor nbs (fst e) (snd e) ;;
         add_neighbor nbs1 (snd e) (fst e))
    edges (Ok neighbors).

Definition build_vertex_adjacency (num_verts : nat) (faces : list (list nat))
  : result (list (list nat)) :=
  sets <-
    fold_left
      (fun acc face =>
         nbs <- acc ;;
         if (length face <? 2)%nat then Ok nbs
         else add_edges nbs (face_edges face))
      faces (Ok (repeat [] num_verts)) ;;
  Ok (map list_of_set sets).

Definition min2 (a b : Q) : Q := if Qltb b a then b else a.

(** The loop over the stations: the rings and the running [half_n_max]. *)
Fixpoint rings_loop (verts_local : list vertex) (groups : list (list nat))
  (half_n_max : nat) : result (list (list vertex) * nat) :=
  match groups with
  | [] => Ok ([], half_n_max)
  | station :: rest =>
      match station with
      | [idx] =>
          match nth_error verts_local idx with
          | None => Raise IndexError
          | Some v =>
              '(rings, h) <- rings_loop verts_local rest half_n_max ;;
              Ok (tip_ring v :: rings, h)
          end
      | _ =>
          station_verts_m <-
            fold_right
              (fun idx acc =>
                 match nth_error verts_local idx with
                 | None => Raise IndexError
                 | Some v => vs <- acc ;; Ok (v :: vs)
                 end)
              (Ok []) station ;;
          '(ring, n_half) <- mid_ring station_verts_m ;;
          '(rings, h) <-
            rings_loop verts_local rest (Nat.max half_n_max n_half) ;;
          Ok (ring :: rings, h)
      end
  end.

Definition recenter (verts_m : list vertex) (center_x_m : Q) : list vertex :=
  map (fun v => ((vx v - center_x_m)%Q, vy v, vz v)) verts_m.

(** [build_pm_rings_for_mesh]: [(part_x_ft, rings, half_n_max)]. *)
Definition build_pm_rings_for_mesh (verts_m : list vertex)
  (faces : list (list nat)) : result (Q * list (list vertex) * nat) :=
  match map vx verts_m with
  | [] => Ok (0%Q, [], 0)
  | x0 :: xs =>
      let min_x := fold_left min2 xs x0 in
      let max_x := fold_left PyList.max2 xs x0 in
      let center_x_m := ((min_x + max_x) / 2)%Q in
      let part_x_ft := (center_x_m * FT_PER_M)%Q in
      let verts_local := recenter verts_m center_x_m in
      neighbors <- build_vertex_adjacency (length verts_m) faces ;;
      station_vertex_groups <-
        build_station_vertex_groups verts_local neighbors 20 ;;
      '(rings, half_n_max) <- rings_loop verts_local station_vertex_groups 0 ;;
      Ok (part_x_ft, rings, half_n_max)
  end.

End Rings.

(** ** Bodies and the run ([cis_bodies2pm_working.py]) *)

Record body : Type := Body {
  body_index : Z;
  group_name : string;
  part_x_ft : Q;
  part_rad_ft : Q;
  rings : list (list vertex);
  half_n_max : nat;
  pm_name : option string
}.

(** One loaded group: its name, its local vertices and its faces. *)
Definition group : Type := (string * (list vertex * list (list nat)))%type.

Fixpoint group_lookup (groups : list group) (name : string)
  : option (list vertex * list (list nat)) :=
  match groups with
  | [] => None
  | (n, g) :: rest => if String.eqb n name then Some g else group_lookup rest name
  end.

Definition priority_names : list string :=
  ["Fuselage_Chieftain_fuse_only_Mesh.0001";
   "LF_Cowling_Cylinder.001";
   "RT_Cowling_Cylinder.002"].

Definition name_in (name : string) (l : list string) : bool :=
  existsb (String.eqb name) l.

(** The processing order: the priority names that are present, then the
    other groups in file order. *)
Definition body_order (groups : list group) : list string :=
  let order :=
    fold_left
      (fun order name =>
         if name_in name (map fst groups) && negb (name_in name order)
         then order ++ [name] else order)
      priority_names [] in
  fold_left
    (fun order name =>
       if negb (name_in name order) then order ++ [name] else order)
    (map fst groups) order.

Record mesh_row : Type := MeshRow {
  row_mesh_name : string;
  row_body_index : Z;
  row_pm_name : string
}.

Inductive log_event : Type :=
| LogBuildFailed
| LogMeshNotFound (mesh_name : string)
| LogDuplicateIndex (body_idx : Z)
| LogNoBodies
| LogNotContiguous
| LogRewriteFailed
| LogWrote.

(** What a run leaves behind: its log and, when [acf_out_path] was written,
    the lines written. *)
Record outcome : Type := Outcome {
  logs : list log_event;
  written : option (list string)
}.

Section Run.

Variable atan2 : Q -> Q -> Q.
Variable list_of_set : list nat -> list nat.

(** [build_body_block_from_template(bodies, body_index, template_path)],
    the template-driven substitution, on the lines of the template. *)
Variable build_body_block_from_template :
  list body -> nat -> list string -> result (list string).

(** The loop of [build_bodies_from_obj] over the enumerated order. *)
Fixpoint bodies_loop (groups : list group) (order : list (nat * string))
  : result (list body) :=
  match order with
  | [] => Ok []
  | (idx, name) :: rest =>
      match group_lookup groups name with
      | None => Raise KeyError
      | Some (verts_m, faces) =>
          match faces with
          | [] => bodies_loop groups rest
          | _ =>
              if (length verts_m <? 10)%nat then bodies_loop groups rest
              else
                '(part_x, rings, half_n) <-
                  build_pm_rings_for_mesh atan2 list_of_set verts_m faces ;;
                match rings with
                | [] => bodies_loop groups rest
                | _ =>
                    let rad := compute_part_rad_from_rings rings 1 in
                    more <- bodies_loop groups rest ;;
                    Ok (Body (Z.of_nat idx) name part_x rad rings half_n None
                          :: more)
                end
          end
      end
  end.

(** [build_bodies_from_obj], from the groups that
    [load_all_groups_with_faces] returns. *)
Definition build_bodies_from_obj (groups : list group) : result (list body) :=
  bodies_loop groups (enumerate_from 0 (body_order groups)).

(** [by_name[mesh_name]] for the dictionary [{b["group_name"]: b}]: the last
    body of that name. *)
Definition by_name_lookup (bodies : list body) (name : string) : option body :=
  find (fun b => String.eqb (group_name b) name) (rev bodies).

Definition index_lookup (m : list (Z * body)) (k : Z) : option body :=
  option_map snd (find (fun kb => (fst kb =? k)%Z) m).

(** The loop over [mesh_rows]: the dictionary [bodies_by_index], in
    insertion order, and the warnings. *)
Definition assign_rows (bodies : list body) (mesh_rows : list mesh_row)
  : list (Z * body) * list log_event :=
  fold_left
    (fun (st : list (Z * body) * list log_event) row =>
       let mesh_name := row_mesh_name row in
       let body_idx := row_body_index row in
       let pm :=
         match PyStr.strip (row_pm_name row) with
         | EmptyString => mesh_name
         | s => s
         end in
       match by_name_lookup bodies mesh_name with
       | None => (fst st, snd st ++ [LogMeshNotFound mesh_name])
       | Some src_body =>
           match index_lookup (fst st) body_idx with
           | Some _ => (fst st, snd st ++ [LogDuplicateIndex body_idx])
           | None =>
               let body_copy :=
                 Body body_idx (group_name src_body) (part_x_ft src_body)
                   (part_rad_ft src_body) (rings src_body)
                   (half_n_max src_body) (Some pm) in
               (fst st ++ [(body_idx, body_copy)], snd st)
           end
       end)
    mesh_rows ([], []).

Fixpoint insert_Z (x : Z) (l : list Z) : list Z :=
  match l with
  | [] => [x]
  | y :: l' => if (x <=? y)%Z then x :: l else y :: insert_Z x l'
  end.

Definition with_index (b : body) (i : Z) : body :=
  Body i (group_name b) (part_x_ft b) (part_rad_ft b) (rings b)
    (half_n_max b) (pm_name b).

(** The loop building every block: [ordered_bodies[i]["body_index"] = i],
    then the block of body [i]. *)
Fixpoint blocks_loop (template_lines : list string) (ordered : list body)
  (todo : list nat) : result (list string) :=
  match todo with
  | [] => Ok []
  | i :: rest =>
      match nth_error ordered i with
      | None => Raise IndexError
      | Some b =>
          let ordered := list_set ordered i (with_index b (Z.of_nat i)) in
          block <- build_body_block_from_template ordered i template_lines ;;
          more <- blocks_loop template_lines ordered rest ;;
          Ok (block ++ more)
      end
  end.

(** [generate_bodies_and_rewrite_acf].  An exception of the template step
    is not caught there and leaves the function. *)
Definition generate_bodies_and_rewrite_acf (groups : list group)
  (acf_lines template_lines : list string) (mesh_rows : list mesh_row)
  : result outcome :=
  match build_bodies_from_obj groups with
  | Raise _ => Ok (Outcome [LogBuildFailed] None)
  | Ok bodies =>
      let '(bodies_by_index, warnings) := assign_rows bodies mesh_rows in
      match bodies_by_index with
      | [] => Ok (Outcome (warnings ++ [LogNoBodies]) None)
      | _ =>
          let indices := fold_right insert_Z [] (map fst bodies_by_index) in
          let expected := PyList.range 0 (Z.of_nat (length indices)) in
          if negb (if list_eq_dec Z.eq_dec indices expected then true else false)
          then Ok (Outcome (warnings ++ [LogNotContiguous]) None)
          else
            ordered_bodies <-
              fold_right
                (fun i acc =>
                   match index_lookup bodies_by_index i with
                   | None => Raise KeyError
                   | Some b => bs <- acc ;; Ok (b :: bs)
                   end)
                (Ok []) indices ;;
            all_lines <-
              blocks_loop template_lines ordered_bodies
                (seq 0 (length ordered_bodies)) ;;
            match rewrite_acf_bodies acf_lines all_lines with
            | Raise _ => Ok (Outcome (warnings ++ [LogRewriteFailed]) None)
            | Ok new_lines => Ok (Outcome (warnings ++ [LogWrote]) (Some new_lines))
            end
      end
  end.

End Run.

(** ** Body block builder ([extractBodies.py]) *)

(** [f"P _body/{body_index}/{rest}"] *)
Definition body_line (body_index : Z) (rest : string) : string :=
  ("P _body/" ++ PyStr.of_int body_index ++ "/" ++ rest)%string.

(** The [_locked/<i>,<j>] lines, [i] and [j] in [range] order. *)
Definition locked_lines (body_index : Z) (target_i target_j : Z) : list string :=
  flat_map
    (fun i =>
       map
         (fun j =>
            body_line body_index
              ("_locked/" ++ PyStr.of_int i ++ "," ++ PyStr.of_int j ++ " 0"))
         (PyList.range 0 target_j))
    (PyList.range 0 target_i).

Definition build_body_block (body_index : Z)
  (stations_mesh : list (list vertex)) (local_verts_centered : list vertex)
  (target_i target_j : Z) (lateral_offset_ft : Q) : list string :=
  let station_count_mesh := Z.of_nat (length stations_mesh) in
  let grid_radius_ft := compute_grid_radius_ft local_verts_centered in
  [body_line body_index "_bot_s1 0.000000000";
   body_line body_index "_bot_s2 1.000000000";
   body_line body_index "_bot_t1 0.000000000";
   body_line body_index "_bot_t2 1.000000000";
   body_line body_index "_engn_for_body -1";
   body_line body_index "_gear_for_body -1"]
  ++ generate_geo_xyz_literal_from_stations stations_mesh body_index
       target_i target_j true
  ++ locked_lines body_index target_i target_j
  ++ [body_line body_index ("_locked/i_count " ++ PyStr.of_int target_i);
      body_line body_index ("_locked/j_count " ++ PyStr.of_int target_j);
      body_line body_index ("_r_dim " ++ PyStr.of_int target_j);
      body_line body_index ("_s_dim " ++ PyStr.of_int station_count_mesh)]
  ++ [body_line body_index "_part_area_rule 1.000000000";
      body_line body_index "_part_cd 0.075000003";
      body_line body_index "_part_phi 0.000000000";
      body_line body_index "_part_psi 0.000000000";
      body_line body_index ("_part_rad " ++ fmt9 grid_radius_ft);
      body_line body_index "_part_specs_eq 1";
      body_line body_index "_part_specs_invis 0";
      body_line body_index "_part_specs_rmod 1";
      body_line body_index "_part_tex 1";
      body_line body_index "_part_the 0.000000000"]
  ++ [body_line body_index ("_part_x " ++ fmt9 lateral_offset_ft);
      body_line body_index "_part_y 0.000000000";
      body_line body_index "_part_z 0.000000000"]
  ++ [body_line body_index "_top_s1 0.000000000";
      body_line body_index "_top_s2 1.000000000";
      body_line body_index "_top_t1 0.000000000";
      body_line body_index "_top_t2 1.000000000"].

(** ** Centering ([extractBodies.py]) *)

(** [min(xs)]: the first of the smallest. *)
Definition min_list (x0 : Q) (xs : list Q) : Q :=
  fold_left (fun a b => if Qltb b a then b else a) xs x0.

Definition compute_center_x (verts : list vertex) : Q :=
  match map vx verts with
  | [] => 0%Q
  | x0 :: xs =>
      ((min_list x0 xs + fold_left PyList.max2 xs x0) / 2)%Q
  end.

Definition recenter_vertices_x (verts : list vertex) (center_x : Q)
  : list vertex :=
  if Qltb (Qabs center_x) (1 # 1000000000000) then verts
  else map (fun v => ((vx v - center_x)%Q, vy v, vz v)) verts.

(** ** Mesh names of an OBJ file ([cis_bodies2pm_working.py]) *)

(** The first run of characters that are not white space, and what
    follows it. *)
Fixpoint take_word (s : string) : string * string :=
  match s with
  | EmptyString => (EmptyString, EmptyString)
  | String c s' =>
      if PyStr.isspace c then (EmptyString, s)
      else let '(w, r) := take_word s' in (String c w, r)
  end.

(** [s.split(maxsplit=1)]: the first word and, when there is more than
    white space after it, the rest from its first character that is not
    white space. *)
Definition split_maxsplit1 (s : string) : list string :=
  match PyStr.lstrip s with
  | EmptyString => []
  | t =>
      let '(w, r) := take_word t in
      match PyStr.lstrip r with
      | EmptyString => [w]
      | r' => [w; r']
      end
  end.

(** [scan_obj_mesh_names], on the lines of the file. *)
Definition scan_obj_mesh_names (lines : list string) : result (list string) :=
  fold_left
    (fun acc line =>
       names <- acc ;;
       let line := PyStr.strip line in
       if PyStr.startswith line "g " || PyStr.startswith line "o " then
         match nth_error (split_maxsplit1 line) 1 with
         | None => Raise IndexError
         | Some t =>
             let name := PyStr.strip t in
             match name with
             | EmptyString => Ok names
             | _ => if name_in name names then Ok names
                    else Ok (names ++ [name])
             end
         end
       else Ok names)
    lines (Ok []).

(** ** Local groups of an OBJ file ([cis_bodies2pm_working.py]) *)

(** [l[k]] for a list and an [int]: a negative [k] counts from the end. *)
Definition py_nth {A : Type} (l : list A) (k : Z) : result A :=
  let k' := if (k <? 0)%Z then (k + Z.of_nat (length l))%Z else k in
  if (k' <? 0)%Z then Raise IndexError
  else
    match nth_error l (Z.to_nat k') with
    | Some x => Ok x
    | None => Raise IndexError
    end.

(** [[f(x) for x in l]] when [f] can raise: the first exception leaves. *)
Definition map_result {A B : Type} (f : A -> result B) (l : list A)
  : result (list B) :=
  fold_right (fun x acc => y <- f x ;; ys <- acc ;; Ok (y :: ys)) (Ok []) l.

(** [sorted(used_global)], [used_global] being the set of the indices in
    the faces. *)
Definition used_sorted_of (faces_global : list (list Z)) : list Z :=
  fold_right insert_Z [] (nodup Z.eq_dec (concat faces_global)).

(** [global_to_local[gv]] for the dictionary
    [{gv: li for li, gv in enumerate(used_sorted)}]. *)
Definition global_to_local (used_sorted : list Z) (gv : Z) : result nat :=
  match
    find (fun p => (snd p =? gv)%Z) (rev (enumerate_from 0 used_sorted))
  with
  | Some p => Ok (fst p)
  | None => Raise KeyError
  end.

(** The last loop of [load_all_groups_with_faces], for one group: from all
    the vertices of the file and the faces of the group, with indices into
    them, to the local vertices and the faces with local indices. *)
Definition local_group (all_verts : list vertex) (faces_global : list (list Z))
  : result (list vertex * list (list nat)) :=
  let used_sorted := used_sorted_of faces_global in
  local_verts <- map_result (py_nth all_verts) used_sorted ;;
  local_faces <-
    map_result (map_result (global_to_local used_sorted)) faces_global ;;
  Ok (local_verts, local_faces).

(** ** One run of the importer ([extractBodies.py]) *)

(** What [run_once] computes between reading its two files and writing the
    result, for a positive [verts_per_loop]: from the lines of the [.acf]
    and the vertices of the group it has chosen to the lines it writes.
    [None] is a stationing that does not return. *)
Definition run_once (acf_lines : list string) (bidx : Z)
  (verts_orig : list vertex) (vpl : Z) : option (list string) :=
  let '(target_i, target_j) := read_target_dims_from_acf acf_lines bidx in
  let center_x_m := compute_center_x verts_orig in
  let offset_ft := (center_x_m * FT_PER_M)%Q in
  let verts := recenter_vertices_x verts_orig center_x_m in
  match build_stations_from_geometry verts vpl true with
  | None => None
  | Some stations_mesh =>
      let body_block :=
        build_body_block bidx stations_mesh verts target_i target_j offset_ft in
      Some (replace_body_block acf_lines bidx body_block)
  end.

(** ** Stand-ins used to run the model *)

(** A rational function that orders directions as [math.atan2] orders
    them: the "diamond angle", which grows with the angle from -2 (just
    above -180 degrees) to 2 (at 180 degrees). *)
Definition diamond_atan2 (y x : Q) : Q :=
  let r := (Qabs x + Qabs y)%Q in
  if Qeq_bool r 0 then 0%Q
  else if Qle_bool 0 x then (y / r)%Q
  else if Qle_bool 0 y then (2 - y / r)%Q
  else (- 2 - y / r)%Q.

(** A set listed in the order of insertion. *)
Definition insertion_order (s : list nat) : list nat := s.

(** * Properties *)

(** ** Config patcher: the prefix strategy *)

Section PrefixPatch.

Variable b : Z.

Let is_b := is_body_line b.
Let not_b := fun l => negb (is_body_line b l).

Lemma filter_all_true {A : Type} (p : A -> bool) (l : list A) :
  Forall (fun x => p x = true) l -> filter p l = l.
Proof.
  induction 1 as [|x l Hx _ IH]; simpl; [reflexivity|].
  now rewrite Hx, IH.
Qed.

Lemma filter_all_false {A : Type} (p : A -> bool) (l : list A) :
  Forall (fun x => p x = false) l -> filter p l = [].
Proof.
  induction 1 as [|x l Hx _ IH]; simpl; [reflexivity|].
  now rewrite Hx, IH.
Qed.

Lemma filter_nil_all_false {A : Type} (p : A -> bool) (l : list A) :
  filter p l = [] -> Forall (fun x => p x = false) l.
Proof.
  induction l as [|x l IH]; simpl; intros H; [constructor|].
  destruct (p x) eqn:E; [discriminate|].
  constructor; auto.
Qed.

Lemma first_index_skip {A : Type} (p : A -> bool) (pre rest : list A) i d :
  Forall (fun x => p x = false) pre ->
  first_index p (pre ++ rest) i d = first_index p rest (i + length pre) d.
Proof.
  intros H; revert i.
  induction H as [|x pre Hx _ IH]; intros i; simpl.
  - now rewrite Nat.add_0_r.
  - rewrite Hx, IH. f_equal. lia.
Qed.

Lemma first_index_none {A : Type} (p : A -> bool) (l : list A) i d :
  Forall (fun x => p x = false) l -> first_index p l i d = d.
Proof.
  intros H. rewrite <- (app_nil_r l), first_index_skip by assumption.
  reflexivity.
Qed.

Lemma not_b_of_false (l : list string) :
  Forall (fun x => is_b x = false) l -> Forall (fun x => not_b x = true) l.
Proof.
  apply Forall_impl. intros x Hx. unfold not_b. fold (is_b x). now rewrite Hx.
Qed.

Lemma not_b_of_true (l : list string) :
  Forall (fun x => is_b x = true) l -> Forall (fun x => not_b x = false) l.
Proof.
  apply Forall_impl. intros x Hx. unfold not_b. fold (is_b x). now rewrite Hx.
Qed.

(** With no line of body [b] in the document the new block goes after the
    last line. *)
Lemma replace_body_block_absent (lines blk : list string) :
  body_block lines b = [] ->
  replace_body_block lines b blk = lines ++ blk.
Proof.
  intros H. apply filter_nil_all_false in H.
  unfold replace_body_block.
  fold not_b. fold is_b.
  rewrite (filter_all_true not_b lines) by now apply not_b_of_false.
  rewrite first_index_none by assumption.
  rewrite Nat.min_id, firstn_all, skipn_all.
  now rewrite app_nil_r.
Qed.

(** The document after the patch is the kept lines with the new block set
    in at one position. *)
Lemma replace_body_block_shape (lines blk : list string) :
  exists p,
    replace_body_block lines b blk =
    firstn p (filter not_b lines) ++ blk ++ skipn p (filter not_b lines).
Proof.
  unfold replace_body_block. fold not_b. eexists. reflexivity.
Qed.

Lemma filter_idem {A : Type} (p : A -> bool) (l : list A) :
  filter p (filter p l) = filter p l.
Proof.
  apply filter_all_true. apply Forall_forall. intros x Hx.
  now apply filter_In in Hx.
Qed.

(** Frame property of [replace_body_block]: when the new block is made of
    lines of body [b], the other lines of the document come out as they went
    in, all of them and in the same order. *)
Lemma replace_body_block_frame (lines blk : list string) :
  Forall (fun l => is_body_line b l = true) blk ->
  filter (fun l => negb (is_body_line b l)) (replace_body_block lines b blk) =
  filter (fun l => negb (is_body_line b l)) lines.
Proof.
  intros Hblk.
  destruct (replace_body_block_shape lines blk) as [p ->].
  fold not_b.
  rewrite !filter_app.
  rewrite (filter_all_false not_b blk) by now apply not_b_of_true.
  simpl.
  rewrite <- filter_app, firstn_skipn.
  apply filter_idem.
Qed.

Lemma patch_contiguous (pre blk post new_block : list string) :
  Forall (fun l => is_body_line b l = false) pre ->
  Forall (fun l => is_body_line b l = true) blk ->
  Forall (fun l => is_body_line b l = false) post ->
  blk <> [] ->
  replace_body_block (pre ++ blk ++ post) b new_block = pre ++ new_block ++ post.
Proof.
  intros Hpre Hblk Hpost Hne.
  unfold replace_body_block. fold not_b. fold is_b.
  rewrite !filter_app.
  rewrite (filter_all_true not_b pre) by now apply not_b_of_false.
  rewrite (filter_all_true not_b post) by now apply not_b_of_false.
  rewrite (filter_all_false not_b blk) by now apply not_b_of_true.
  simpl.
  rewrite first_index_skip by assumption.
  destruct blk as [|l0 blk']; [congruence|].
  simpl. inversion Hblk as [|? ? Hl0 _]; subst.
  unfold is_b. rewrite Hl0. simpl.
  rewrite length_app.
  replace (Nat.min (length pre) (length pre + length post)) with (length pre) by lia.
  rewrite firstn_app, firstn_all, Nat.sub_diag. simpl. rewrite app_nil_r.
  rewrite skipn_app, skipn_all, Nat.sub_diag. simpl. reflexivity.
Qed.

End PrefixPatch.

(** ** Config patcher: the marker strategy *)

Definition is_begin (l : string) : bool :=
  String.eqb (PyStr.strip l) "PROPERTIES_BEGIN".

Definition is_end (l : string) : bool :=
  String.eqb (PyStr.strip l) "PROPERTIES_END".

(** A line that is neither marker. *)
Definition plain (l : string) : bool := negb (is_begin l) && negb (is_end l).

(** A line between the markers that the marker strategy does not own. *)
Definition quiet (l : string) : bool := plain l && negb (is_any_body_line l).

Lemma find_markers_skip (pre rest : list string) idx pb0 :
  Forall (fun l => plain l = true) pre ->
  find_markers (pre ++ rest) idx pb0 = find_markers rest (idx + length pre) pb0.
Proof.
  intros H; revert idx.
  induction H as [|l pre Hl _ IH]; intros idx; simpl.
  - now rewrite Nat.add_0_r.
  - unfold plain, is_begin, is_end in Hl.
    apply andb_true_iff in Hl as [H1 H2].
    apply negb_true_iff in H1, H2. rewrite H1, H2, IH.
    f_equal. lia.
Qed.

Lemma find_markers_section (pre mid post : list string) (lb le : string) :
  Forall (fun l => plain l = true) pre ->
  is_begin lb = true ->
  Forall (fun l => plain l = true) mid ->
  is_begin le = false -> is_end le = true ->
  find_markers (pre ++ lb :: mid ++ le :: post) 0 None =
  (Some (length pre), Some (length pre + 1 + length mid)).
Proof.
  intros Hpre Hb Hmid Hnb He.
  rewrite find_markers_skip by assumption. simpl.
  unfold is_begin in Hb. rewrite Hb.
  rewrite find_markers_skip by assumption. simpl.
  unfold is_begin in Hnb. unfold is_end in He. rewrite Hnb, He.
  f_equal. f_equal. lia.
Qed.

Lemma scan_bodies_quiet (lines : list string) (idxs : list nat) :
  Forall (fun k => is_any_body_line (nth k lines "") = false) idxs ->
  scan_bodies lines idxs = (None, None).
Proof.
  unfold scan_bodies. generalize (@None nat, @None nat).
  intros st H; revert st.
  induction H as [|k idxs Hk _ IH]; intros st; simpl; [reflexivity|].
  now rewrite Hk.
Qed.

Lemma quiet_plain (l : list string) :
  Forall (fun x => quiet x = true) l -> Forall (fun x => plain x = true) l.
Proof.
  apply Forall_impl. intros x Hx. unfold quiet in Hx.
  now apply andb_true_iff in Hx.
Qed.

Lemma rewrite_acf_bodies_no_bodies (pre mid post blk : list string)
  (lb le : string) :
  Forall (fun l => plain l = true) pre ->
  is_begin lb = true ->
  Forall (fun l => quiet l = true) mid ->
  is_end le = true ->
  rewrite_acf_bodies (pre ++ lb :: mid ++ le :: post) blk =
  Ok (pre ++ lb :: blk ++ mid ++ le :: post).
Proof.
  intros Hpre Hb Hmid He.
  assert (Hnb : is_begin le = false).
  { unfold is_begin, is_end in *. apply String.eqb_eq in He. rewrite He.
    reflexivity. }
  unfold rewrite_acf_bodies.
  rewrite find_markers_section by auto using quiet_plain.
  replace (length pre + 1 + length mid <=? length pre)%nat with false
    by (symmetry; apply Nat.leb_gt; lia).
  replace (length pre + 1 + length mid - (length pre + 1)) with (length mid) by lia.
  rewrite scan_bodies_quiet.
  - replace (length pre + 1) with (length (pre ++ [lb]))
      by (rewrite length_app; reflexivity).
    replace (pre ++ lb :: mid ++ le :: post)
      with ((pre ++ [lb]) ++ mid ++ le :: post)
      by (rewrite <- app_assoc; reflexivity).
    rewrite firstn_app, firstn_all, Nat.sub_diag. simpl firstn.
    rewrite skipn_app, skipn_all, Nat.sub_diag. simpl skipn.
    rewrite app_nil_r. simpl. now rewrite <- !app_assoc.
  - apply Forall_forall. intros k Hk. apply in_seq in Hk.
    replace (pre ++ lb :: mid ++ le :: post)
      with ((pre ++ [lb]) ++ mid ++ le :: post)
      by (rewrite <- app_assoc; reflexivity).
    rewrite app_nth2 by (rewrite length_app; simpl; lia).
    rewrite length_app. simpl length.
    rewrite app_nth1 by lia.
    rewrite Forall_forall in Hmid.
    assert (Hq : quiet (nth (k - (length pre + 1)) mid "") = true)
      by (apply Hmid, nth_In; lia).
    unfold quiet in Hq. apply andb_true_iff in Hq as [_ Hq].
    now apply negb_true_iff in Hq.
Qed.

(** C1 -- the fallback position when the block does not exist yet.  In a
    document without a line of body [b], [replace_body_block] puts the new
    block after the last line of the document.  [rewrite_acf_bodies] puts it
    right after the [PROPERTIES_BEGIN] line when no [P _body/] line stands
    between the markers. *)
Theorem patch_fallback_position :
  (forall (lines blk : list string) (b : Z),
      body_block lines b = [] ->
      replace_body_block lines b blk = lines ++ blk) /\
  (forall (pre mid post blk : list string) (lb le : string),
      Forall (fun l => plain l = true) pre ->
      is_begin lb = true ->
      Forall (fun l => quiet l = true) mid ->
      is_end le = true ->
      rewrite_acf_bodies (pre ++ lb :: mid ++ le :: post) blk =
      Ok (pre ++ lb :: blk ++ mid ++ le :: post)).
Proof.
  split.
  - intros lines blk b. apply replace_body_block_absent.
  - apply rewrite_acf_bodies_no_bodies.
Qed.

Definition demo_doc : list string :=
  ["A"; "PROPERTIES_BEGIN"; "P acf/_name demo"; "P acf/_size 3";
   "PROPERTIES_END"; "Z"].

Definition demo_block : list string :=
  ["P _body/7/_part_x 0.000000000"; "P _body/7/_part_y 0.000000000"].

Lemma patch_fallback_position_witness :
  replace_body_block demo_doc 7 demo_block = demo_doc ++ demo_block /\
  rewrite_acf_bodies demo_doc demo_block =
  Ok (["A"; "PROPERTIES_BEGIN"] ++ demo_block
        ++ ["P acf/_name demo"; "P acf/_size 3"; "PROPERTIES_END"; "Z"]).
Proof.
  split.
  - apply (proj1 patch_fallback_position demo_doc demo_block 7%Z).
    reflexivity.
  - apply (proj2 patch_fallback_position ["A"]
             ["P acf/_name demo"; "P acf/_size 3"] ["Z"] demo_block
             "PROPERTIES_BEGIN" "PROPERTIES_END").
    + repeat constructor.
    + reflexivity.
    + repeat constructor.
    + reflexivity.
Defined.

(** C1, as first stated, fails: the document has a properties section and
    no line of body 7, and [replace_body_block] puts the block after the
    last line of the file, not after the start marker. *)
Lemma replace_body_block_fallback_counterexample :
  body_block demo_doc 7 = [] /\
  replace_body_block demo_doc 7 demo_block = demo_doc ++ demo_block /\
  replace_body_block demo_doc 7 demo_block <>
  ["A"; "PROPERTIES_BEGIN"] ++ demo_block
    ++ ["P acf/_name demo"; "P acf/_size 3"; "PROPERTIES_END"; "Z"].
Proof.
  repeat split; try reflexivity.
  vm_compute. discriminate.
Qed.

(** C4 -- the frame property fails for [rewrite_acf_bodies]: it cuts the
    whole span from the first to the last [P _body/] line, so a line of
    another kind standing inside that span is lost. *)
Theorem rewrite_acf_bodies_drops_enclosed_line :
  let doc :=
    ["PROPERTIES_BEGIN"; "P _body/0/_part_x 0.000000000"; "P acf/_name demo";
     "P _body/1/_part_x 0.000000000"; "PROPERTIES_END"] in
  let blk := ["P _body/0/_part_x 1.000000000"] in
  is_any_body_line "P acf/_name demo" = false /\
  In "P acf/_name demo" doc /\
  rewrite_acf_bodies doc blk =
  Ok ["PROPERTIES_BEGIN"; "P _body/0/_part_x 1.000000000"; "PROPERTIES_END"] /\
  forall out, rewrite_acf_bodies doc blk = Ok out -> ~ In "P acf/_name demo" out.
Proof.
  cbv zeta. repeat split.
  - simpl. tauto.
  - intros out H. vm_compute in H. injection H as <-.
    simpl. intros [E|[E|[E|[]]]]; discriminate.
Qed.

(** C5 -- patching with the current block gives the document back when the
    lines of body [b] stand together in it (or when there are none). *)
Theorem replace_body_block_idempotent (pre blk post : list string) (b : Z) :
  Forall (fun l => is_body_line b l = false) pre ->
  Forall (fun l => is_body_line b l = true) blk ->
  Forall (fun l => is_body_line b l = false) post ->
  body_block (pre ++ blk ++ post) b = blk /\
  replace_body_block (pre ++ blk ++ post) b (body_block (pre ++ blk ++ post) b)
  = pre ++ blk ++ post.
Proof.
  intros Hpre Hblk Hpost.
  assert (E : body_block (pre ++ blk ++ post) b = blk).
  { unfold body_block. rewrite !filter_app.
    rewrite (filter_all_false _ pre), (filter_all_false _ post) by assumption.
    rewrite (filter_all_true _ blk) by assumption.
    now rewrite app_nil_r. }
  split; [exact E|]. rewrite E.
  destruct blk as [|l0 blk'].
  - simpl. rewrite replace_body_block_absent; [now rewrite app_nil_r|].
    exact E.
  - apply patch_contiguous; auto. discriminate.
Qed.

Lemma replace_body_block_idempotent_witness :
  replace_body_block
    (["PROPERTIES_BEGIN"; "P acf/_name demo"]
       ++ ["P _body/7/_part_x 1.500000000"; "  P _body/7/_part_y 0.000000000"]
       ++ ["P _body/70/_part_x 2.000000000"; "PROPERTIES_END"]) 7
    (body_block
       (["PROPERTIES_BEGIN"; "P acf/_name demo"]
          ++ ["P _body/7/_part_x 1.500000000"; "  P _body/7/_part_y 0.000000000"]
          ++ ["P _body/70/_part_x 2.000000000"; "PROPERTIES_END"]) 7)
  = ["PROPERTIES_BEGIN"; "P acf/_name demo"]
      ++ ["P _body/7/_part_x 1.500000000"; "  P _body/7/_part_y 0.000000000"]
      ++ ["P _body/70/_part_x 2.000000000"; "PROPERTIES_END"].
Proof.
  apply (replace_body_block_idempotent
           ["PROPERTIES_BEGIN"; "P acf/_name demo"]
           ["P _body/7/_part_x 1.500000000"; "  P _body/7/_part_y 0.000000000"]
           ["P _body/70/_part_x 2.000000000"; "PROPERTIES_END"] 7%Z).
  - repeat constructor.
  - repeat constructor.
  - repeat constructor.
Defined.

(** C5, as first stated, fails when the lines of the body are apart: the
    patch gathers them at the place of the first one. *)
Lemma replace_body_block_idempotent_counterexample :
  let L := ["P _body/7/_part_x 1.500000000"; "P acf/_name demo";
            "P _body/7/_part_y 0.000000000"] in
  body_block L 7 =
    ["P _body/7/_part_x 1.500000000"; "P _body/7/_part_y 0.000000000"] /\
  replace_body_block L 7 (body_block L 7) =
    ["P _body/7/_part_x 1.500000000"; "P _body/7/_part_y 0.000000000";
     "P acf/_name demo"] /\
  replace_body_block L 7 (body_block L 7) <> L.
Proof.
  cbv zeta. repeat split. vm_compute. discriminate.
Qed.

(** ** Dimension discovery *)

(** Line [s] carries the integer [v] under the path prefix [p]. *)
Definition carries (p s : string) (v : Z) : Prop :=
  PyStr.startswith (PyStr.strip s) p = true /\
  last_token_int (PyStr.strip s) = Some v.

Lemma prefix_same_length (p1 p2 t : string) :
  String.prefix p1 t = true -> String.prefix p2 t = true ->
  String.length p1 = String.length p2 -> p1 = p2.
Proof.
  revert p2 t.
  induction p1 as [|c1 p1 IH]; intros [|c2 p2] [|c t]; simpl;
    try discriminate; try reflexivity.
  destruct (ascii_dec c1 c); [|discriminate].
  destruct (ascii_dec c2 c); [|discriminate].
  intros H1 H2 Hl. subst. f_equal. eapply IH; eauto.
Qed.

Lemma string_length_app (a b : string) :
  String.length (a ++ b)%string = String.length a + String.length b.
Proof. induction a as [|c a IH]; simpl; [reflexivity|now rewrite IH]. Qed.

Lemma string_app_inj (a b c : string) :
  (a ++ b)%string = (a ++ c)%string -> b = c.
Proof.
  induction a as [|x a IH]; simpl; [easy|].
  intros H. injection H as H. auto.
Qed.

Lemma count_prefixes_exclusive (b : Z) (t : string) :
  PyStr.startswith t (i_count_prefix b) = true ->
  PyStr.startswith t (j_count_prefix b) = false.
Proof.
  unfold PyStr.startswith. intros Hi.
  destruct (String.prefix (j_count_prefix b) t) eqn:Hj; [|reflexivity].
  assert (E : i_count_prefix b = j_count_prefix b).
  { eapply prefix_same_length; eauto.
    unfold i_count_prefix, j_count_prefix.
    rewrite !string_length_app. reflexivity. }
  unfold i_count_prefix, j_count_prefix in E.
  apply string_app_inj, string_app_inj in E. discriminate.
Qed.

Section ReadDims.

Variables pi pj : string.
Hypothesis exclusive :
  forall t, PyStr.startswith t pi = true -> PyStr.startswith t pj = false.

Lemma or_keep_cases (new old : option Z) :
  (new = None /\ or_keep new old = old) \/
  (exists v, new = Some v /\ or_keep new old = Some v).
Proof. destruct new; simpl; eauto. Qed.

Lemma read_dims_loop_spec (lines : list string) :
  forall i0 j0 i1 j1,
    read_dims_loop pi pj lines i0 j0 = (i1, j1) ->
    (i1 = i0 \/ exists s v, In s lines /\ carries pi s v /\ i1 = Some v) /\
    (j1 = j0 \/ exists s v, In s lines /\ carries pj s v /\ j1 = Some v) /\
    (i1 = None -> i0 = None /\ forall s v, In s lines -> ~ carries pi s v) /\
    (j1 = None -> j0 = None /\ forall s v, In s lines -> ~ carries pj s v).
Proof.
  induction lines as [|s rest IH]; intros i0 j0 i1 j1 H; simpl in H.
  - injection H as <- <-. repeat split; auto; intros ? ? [].
  - set (t := PyStr.strip s) in *.
    (* the state after the line [s] *)
    set (i' := if PyStr.startswith t pi then or_keep (last_token_int t) i0
               else i0).
    set (j' := if PyStr.startswith t pi then j0
               else if PyStr.startswith t pj
                    then or_keep (last_token_int t) j0 else j0).
    assert (Hstep :
      (if PyStr.startswith t pi
       then (or_keep (last_token_int t) i0, j0)
       else if PyStr.startswith t pj
            then (i0, or_keep (last_token_int t) j0) else (i0, j0))
      = (i', j')).
    { unfold i', j'. destruct (PyStr.startswith t pi), (PyStr.startswith t pj);
        reflexivity. }
    rewrite Hstep in H.
    assert (Hi' : (i' = i0 /\ forall v, ~ carries pi s v) \/
                  (exists v, carries pi s v /\ i' = Some v)).
    { unfold i', carries. fold t.
      destruct (PyStr.startswith t pi) eqn:Ei.
      - destruct (or_keep_cases (last_token_int t) i0) as [[En ->]|[v [Ev ->]]].
        + left. split; [reflexivity|]. intros v [_ Hv]. congruence.
        + right. exists v. auto.
      - left. split; [reflexivity|]. intros v [Hv _]. discriminate. }
    assert (Hj' : (j' = j0 /\ forall v, ~ carries pj s v) \/
                  (exists v, carries pj s v /\ j' = Some v)).
    { unfold j', carries. fold t.
      destruct (PyStr.startswith t pi) eqn:Ei.
      - left. split; [reflexivity|]. intros v [Hv _].
        rewrite (exclusive t Ei) in Hv. discriminate.
      - destruct (PyStr.startswith t pj) eqn:Ej.
        + destruct (or_keep_cases (last_token_int t) j0) as [[En ->]|[v [Ev ->]]].
          * left. split; [reflexivity|]. intros v [_ Hv]. congruence.
          * right. exists v. auto.
        + left. split; [reflexivity|]. intros v [Hv _]. discriminate. }
    clearbody i' j'. clear Hstep.
    assert (Hrec :
      (exists a c, i' = Some a /\ j' = Some c /\ i1 = i' /\ j1 = j') \/
      read_dims_loop pi pj rest i' j' = (i1, j1)).
    { destruct i' as [a|], j' as [c|]; auto.
      left. exists a, c. injection H as <- <-. auto. }
    clear H.
    destruct Hrec as [(a & c & Ea & Ec & -> & ->)|Hrec].
    + repeat split.
      * destruct Hi' as [[E _]|(v & Hv & E)]; [now left|].
        right. exists s, v. simpl. auto.
      * destruct Hj' as [[E _]|(v & Hv & E)]; [now left|].
        right. exists s, v. simpl. auto.
      * congruence.
      * congruence.
      * congruence.
      * congruence.
    + apply IH in Hrec as (Ri & Rj & Ni & Nj).
      repeat split.
      * destruct Ri as [->|(s' & v & Hin & Hc & E)].
        -- destruct Hi' as [[E _]|(v & Hv & E)]; [now left|].
           right. exists s, v. simpl. auto.
        -- right. exists s', v. simpl. auto.
      * destruct Rj as [->|(s' & v & Hin & Hc & E)].
        -- destruct Hj' as [[E _]|(v & Hv & E)]; [now left|].
           right. exists s, v. simpl. auto.
        -- right. exists s', v. simpl. auto.
      * destruct (Ni H) as [E _]. subst i'.
        destruct Hi' as [[E _]|(v & _ & E)]; congruence.
      * intros s' v [<-|Hin].
        -- destruct (Ni H) as [E _]. subst i'.
           destruct Hi' as [[_ Hn]|(w & _ & E)]; [apply Hn|congruence].
        -- now apply (proj2 (Ni H)).
      * destruct (Nj H) as [E _]. subst j'.
        destruct Hj' as [[E _]|(v & _ & E)]; congruence.
      * intros s' v [<-|Hin].
        -- destruct (Nj H) as [E _]. subst j'.
           destruct Hj' as [[_ Hn]|(w & _ & E)]; [apply Hn|congruence].
        -- now apply (proj2 (Nj H)).
Qed.

End ReadDims.

(** Each count returned is an integer that some line carries, and the
    default when no line carries one. *)
Lemma read_target_dims_carried (acf_lines : list string) (b : Z) :
  let r := read_target_dims_from_acf acf_lines b in
  ((exists s, In s acf_lines /\ carries (i_count_prefix b) s (fst r)) \/
   ((forall s v, In s acf_lines -> ~ carries (i_count_prefix b) s v) /\
    fst r = 20%Z)) /\
  ((exists s, In s acf_lines /\ carries (j_count_prefix b) s (snd r)) \/
   ((forall s v, In s acf_lines -> ~ carries (j_count_prefix b) s v) /\
    snd r = 18%Z)).
Proof.
  cbv zeta. unfold read_target_dims_from_acf.
  destruct (read_dims_loop (i_count_prefix b) (j_count_prefix b) acf_lines
              None None) as [i1 j1] eqn:E.
  apply (read_dims_loop_spec _ _ (count_prefixes_exclusive b)) in E
    as (Ri & Rj & Ni & Nj).
  split; simpl.
  - destruct i1 as [v|].
    + left. destruct Ri as [Ri|(s & w & Hin & Hc & Ew)]; [discriminate|].
      injection Ew as ->. eauto.
    + right. split; [|reflexivity]. now apply Ni.
  - destruct j1 as [v|].
    + left. destruct Rj as [Rj|(s & w & Hin & Hc & Ew)]; [discriminate|].
      injection Ew as ->. eauto.
    + right. split; [|reflexivity]. now apply Nj.
Qed.

Example read_target_dims_demo :
  read_target_dims_from_acf
    ["P _body/1/_locked/i_count 12"; "  P _body/0/_locked/j_count 16  ";
     "P _body/0/_locked/i_count twenty"; "P _body/0/_part_x 1.000000000"] 0
  = (20%Z, 16%Z).
Proof. reflexivity. Qed.

(** ** Grid mapper: the shape of the emitted grid *)

Definition geo_key (l : geo_line) : nat * nat * nat :=
  (geo_i l, geo_j l, geo_k l).

(** The [(i, j, k)] triples of station [i] over [J] slots. *)
Definition station_keys (J i : nat) : list (nat * nat * nat) :=
  flat_map (fun j => [(i, j, 0); (i, j, 1); (i, j, 2)]) (seq 0 J).

Lemma map_flat_map_comm {A B C : Type} (f : B -> C) (g : A -> list B)
  (l : list A) :
  map f (flat_map g l) = flat_map (fun x => map f (g x)) l.
Proof.
  induction l as [|x l IH]; simpl; [reflexivity|].
  now rewrite map_app, IH.
Qed.

Lemma station_lines_keys b J wtt last i vs :
  map geo_key (station_lines b J wtt last i vs) = station_keys J i.
Proof.
  unfold station_lines, station_keys.
  destruct vs as [|v vs]; [now rewrite map_flat_map_comm|].
  destruct (_ || _); now rewrite map_flat_map_comm.
Qed.

Lemma enumerate_from_keys {A : Type} (f : nat -> A -> list geo_line)
  (g : nat -> list (nat * nat * nat)) (l : list A) :
  (forall i x, map geo_key (f i x) = g i) ->
  forall k,
    map geo_key (flat_map (fun iv => f (fst iv) (snd iv)) (enumerate_from k l))
    = flat_map g (seq k (length l)).
Proof.
  intros H. induction l as [|x l IH]; intros k; simpl; [reflexivity|].
  now rewrite map_app, H, IH.
Qed.

Lemma firstn_repeat {A : Type} (x : A) (n m : nat) :
  firstn n (repeat x m) = repeat x (Nat.min n m).
Proof.
  revert m. induction n as [|n IH]; intros [|m]; simpl; try reflexivity.
  now rewrite IH.
Qed.

Lemma clamp_nonneg (len : nat) (k : Z) :
  (0 <= k)%Z -> PyList.clamp len k = Nat.min len (Z.to_nat k).
Proof.
  intros H. unfold PyList.clamp.
  replace (k <? 0)%Z with false by (symmetry; apply Z.ltb_ge; lia).
  lia.
Qed.

(** For a target that is not negative, padding and truncation are one
    operation: the first [target_i] stations of the list followed by empty
    stations. *)
Lemma pad_or_truncate_stations_firstn (stations : list (list vertex)) (ti : Z) :
  (0 <= ti)%Z ->
  pad_or_truncate_stations stations ti =
  firstn (Z.to_nat ti) (stations ++ repeat [] (Z.to_nat ti)).
Proof.
  intros H. unfold pad_or_truncate_stations.
  destruct (Z.eqb_spec (Z.of_nat (length stations)) ti) as [E|E].
  - rewrite firstn_app.
    replace (Z.to_nat ti) with (length stations) by lia.
    now rewrite firstn_all, Nat.sub_diag, app_nil_r.
  - destruct (Z.ltb_spec ti (Z.of_nat (length stations))) as [L|L].
    + unfold PyList.slice. rewrite !clamp_nonneg by lia.
      simpl. rewrite Nat.min_0_r, Nat.sub_0_r. simpl.
      rewrite firstn_app.
      replace (Z.to_nat ti - length stations) with 0 by lia.
      simpl. rewrite app_nil_r.
      replace (Nat.min (length stations) (Z.to_nat ti)) with (Z.to_nat ti) by lia.
      reflexivity.
    + rewrite firstn_app, firstn_all2 by lia.
      rewrite firstn_repeat. do 2 f_equal. lia.
Qed.

Lemma pad_or_truncate_stations_length (stations : list (list vertex)) (ti : Z) :
  (0 <= ti)%Z ->
  length (pad_or_truncate_stations stations ti) = Z.to_nat ti.
Proof.
  intros H. rewrite pad_or_truncate_stations_firstn by assumption.
  rewrite length_firstn, length_app, repeat_length. lia.
Qed.

Lemma in_enumerate_from {A : Type} (l : list A) (k i : nat) (x : A) :
  In (i, x) (enumerate_from k l) -> k <= i /\ nth_error l (i - k) = Some x.
Proof.
  revert k. induction l as [|y l IH]; intros k; simpl; [easy|].
  intros [E|H].
  - injection E as <- <-. rewrite Nat.sub_diag. auto.
  - apply IH in H as [Hk Hn]. split; [lia|].
    replace (i - k) with (S (i - S k)) by lia. exact Hn.
Qed.

Lemma station_lines_index b J wtt last i vs l :
  In l (station_lines b J wtt last i vs) -> geo_i l = i.
Proof.
  intros H.
  assert (K : In (geo_key l) (station_keys J i)).
  { rewrite <- (station_lines_keys b J wtt last i vs). now apply in_map. }
  unfold station_keys in K. apply in_flat_map in K as (j & _ & K).
  unfold geo_key in K. simpl in K.
  destruct K as [K|[K|[K|[]]]]; now injection K.
Qed.

Lemma station_lines_empty b J wtt last i l :
  In l (station_lines b J wtt last i []) -> geo_val l = 0%Q.
Proof.
  simpl. intros H. apply in_flat_map in H as (j & _ & H).
  simpl in H. destruct H as [<-|[<-|[<-|[]]]]; reflexivity.
Qed.

Lemma flat_map_constant_length {A B : Type} (f : A -> list B) (n : nat)
  (l : list A) :
  (forall x, length (f x) = n) -> length (flat_map f l) = length l * n.
Proof.
  intros H. induction l as [|x l IH]; simpl; [reflexivity|].
  now rewrite length_app, H, IH.
Qed.

Example render_zero_line :
  render_geo_line (GeoLine 7 3 4 1 0) = "P _body/7/_geo_xyz/3,4,1 0.000000000".
Proof. reflexivity. Qed.

(** C2 -- the emitted grid.  For a target station count that is not
    negative the lines are those of exactly [target_i] stations, each of
    [max(2, target_j)] slots with three axes, in ascending order; the
    stations kept are the first [target_i] of the mesh, followed by empty
    ones; no line has a station index of [target_i] or more; and every line
    of a station past the real ones has the value 0. *)
Theorem geo_grid_shape (stations : list (list vertex)) (b ti tj : Z)
  (wtt : bool) :
  (0 <= ti)%Z ->
  let J := Z.to_nat (Z.max 2 tj) in
  let g := geo_xyz_from_stations stations b ti tj wtt in
  pad_or_truncate_stations stations ti =
    firstn (Z.to_nat ti) (stations ++ repeat [] (Z.to_nat ti)) /\
  map geo_key g = flat_map (station_keys J) (seq 0 (Z.to_nat ti)) /\
  (forall l, In l g -> geo_i l < Z.to_nat ti /\ geo_j l < J) /\
  (forall l, In l g -> length stations <= geo_i l -> geo_val l = 0%Q) /\
  generate_geo_xyz_literal_from_stations stations b ti tj wtt =
    map render_geo_line g /\
  length (generate_geo_xyz_literal_from_stations stations b ti tj wtt) =
    Z.to_nat ti * (J * 3).
Proof.
  intros H J g.
  assert (K : map geo_key g = flat_map (station_keys J) (seq 0 (Z.to_nat ti))).
  { unfold g, geo_xyz_from_stations.
    rewrite (enumerate_from_keys _ (station_keys J)).
    - now rewrite pad_or_truncate_stations_length.
    - intros i x. apply station_lines_keys. }
  split; [now apply pad_or_truncate_stations_firstn|].
  split; [exact K|]. split; [|split; [|split]].
  - intros l Hl. apply (in_map geo_key) in Hl. rewrite K in Hl.
    apply in_flat_map in Hl as (i & Hi & Hl). apply in_seq in Hi.
    unfold station_keys in Hl. apply in_flat_map in Hl as (j & Hj & Hl).
    apply in_seq in Hj. unfold geo_key in Hl. simpl in Hl.
    destruct Hl as [E|[E|[E|[]]]]; injection E as <- <- _; lia.
  - intros l Hl Hge. unfold g, geo_xyz_from_stations in Hl.
    apply in_flat_map in Hl as ([i vs] & Hiv & Hl). simpl in Hl.
    pose proof (station_lines_index _ _ _ _ _ _ _ Hl) as Ei.
    apply in_enumerate_from in Hiv as [_ Hn].
    rewrite Nat.sub_0_r, pad_or_truncate_stations_firstn in Hn by assumption.
    assert (Hin : In vs (firstn (Z.to_nat ti - length stations)
                           (repeat [] (Z.to_nat ti)))).
    { rewrite firstn_app in Hn.
      rewrite nth_error_app2 in Hn by (rewrite length_firstn; lia).
      now apply nth_error_In in Hn. }
    rewrite firstn_repeat in Hin. apply repeat_spec in Hin. subst vs.
    now apply station_lines_empty in Hl.
  - reflexivity.
  - unfold generate_geo_xyz_literal_from_stations. fold g.
    rewrite length_map, <- (length_map geo_key), K.
    rewrite (flat_map_constant_length (station_keys J) (J * 3)).
    + now rewrite length_seq.
    + intros i. unfold station_keys.
      rewrite (flat_map_constant_length _ 3); [now rewrite length_seq|].
      reflexivity.
Qed.

Lemma geo_grid_shape_witness :
  map geo_key
    (geo_xyz_from_stations [[(1 # 2, 1, 0)%Q]; [(1, 2, 3)%Q; (0, 1, 3)%Q]] 0 1 2 true)
  = [(0, 0, 0); (0, 0, 1); (0, 0, 2); (0, 1, 0); (0, 1, 1); (0, 1, 2)].
Proof.
  apply (geo_grid_shape [[(1 # 2, 1, 0)%Q]; [(1, 2, 3)%Q; (0, 1, 3)%Q]]
           0%Z 1%Z 2%Z true).
  lia.
Defined.

(** C2, as first stated, fails on the slot count and on negative targets:
    for [target_j = 1] each station has two slots, and for [target_i = -1]
    the slice [stations[:-1]] keeps two of three stations, whose lines have
    station indices above the target. *)
Lemma geo_grid_shape_counterexample :
  map geo_key (geo_xyz_from_stations [[(1, 1, 1)%Q]] 0 1 1 true)
  = [(0, 0, 0); (0, 0, 1); (0, 0, 2); (0, 1, 0); (0, 1, 1); (0, 1, 2)] /\
  (exists l, In l (geo_xyz_from_stations [[(1, 1, 1)%Q]] 0 1 1 true) /\
             (Z.of_nat (geo_j l) >= 1)%Z) /\
  length (pad_or_truncate_stations
            [[(0, 0, 0)%Q]; [(0, 0, 1)%Q]; [(0, 0, 2)%Q]] (-1)) = 2 /\
  (exists l, In l (geo_xyz_from_stations
                     [[(0, 0, 0)%Q]; [(0, 0, 1)%Q]; [(0, 0, 2)%Q]] 0 (-1) 2 true)
             /\ (Z.of_nat (geo_i l) >= -1)%Z).
Proof.
  split; [reflexivity|]. split.
  - exists (GeoLine 0 0 1 0 0). split; [|simpl; lia].
    vm_compute. tauto.
  - split; [reflexivity|].
    exists (GeoLine 0 0 0 0 0). split; [|simpl; lia].
    vm_compute. tauto.
Qed.

(** ** The stable sort *)

Section StableSort.

Context {A : Type}.
Variable le : A -> A -> bool.
Hypothesis le_total : forall a b, le a b = true \/ le b a = true.
Hypothesis le_trans : forall a b c, le a b = true -> le b c = true -> le a c = true.

Lemma insert_by_perm (x : A) (l : list A) :
  Permutation (PyList.insert_by le x l) (x :: l).
Proof.
  induction l as [|y l IH]; simpl; [reflexivity|].
  destruct (le x y); [reflexivity|].
  rewrite IH. apply perm_swap.
Qed.

Lemma sorted_by_perm (l : list A) : Permutation (PyList.sorted_by le l) l.
Proof.
  induction l as [|x l IH]; simpl; [reflexivity|].
  rewrite insert_by_perm. now constructor.
Qed.



End StableSort.



Lemma sorted_key_perm {A : Type} (key : A -> Q) (l : list A) :
  Permutation (PyList.sorted_key key l) l.
Proof. apply sorted_by_perm. Qed.





(** ** The z-sorted stationing ends *)

Lemma station_loop_total (middle : list vertex) (vpl : Z) :
  (0 < vpl)%Z ->
  forall fuel off,
    (Z.of_nat (length middle) - off <= Z.of_nat fuel)%Z ->
    exists mids, station_loop fuel middle vpl off = Some mids.
Proof.
  intros Hv. induction fuel as [|fuel IH]; intros off H; simpl.
  - replace (off <? Z.of_nat (length middle))%Z with false
      by (symmetry; apply Z.ltb_ge; lia).
    eauto.
  - destruct (off <? Z.of_nat (length middle))%Z eqn:E; [|eauto].
    destruct (IH (off + vpl)%Z) as [mids ->]; [lia|].
    simpl. eauto.
Qed.

(** With a positive [verts_per_loop] the stationing returns. *)
Lemma build_stations_from_geometry_total (verts : list vertex) (vpl : Z)
  (wtt : bool) :
  (0 < vpl)%Z ->
  exists stations, build_stations_from_geometry verts vpl wtt = Some stations.
Proof.
  intros Hv. unfold build_stations_from_geometry.
  destruct verts as [|v vs]; [eauto|].
  destruct (_ <? _)%Z; [eauto|].
  match goal with
  | |- context [station_loop (length ?m) ?m vpl 0] =>
      destruct (station_loop_total m vpl Hv (length m) 0%Z) as [mids ->];
        [lia|eauto]
  end.
Qed.

(** ** Small meshes in the z-sorted stationing *)


(** The lines of a station that broadcasts [(0, y, z)]. *)
Definition broadcast_lines (b : Z) (J i : nat) (y z : Q) : list geo_line :=
  flat_map (fun j => slot_lines b i j 0 y z) (seq 0 J).






(** ** Emission order *)













Lemma flat_map_perm_pointwise {A B : Type} (f g : A -> list B) (l : list A) :
  (forall x, Permutation (f x) (g x)) ->
  Permutation (flat_map f l) (flat_map g l).
Proof.
  intros H. induction l as [|x l IH]; simpl; [reflexivity|].
  now apply Permutation_app.
Qed.




(** ** Bounding radius *)

Lemma Qltb_lt (a b : Q) : Qltb a b = true <-> (a < b)%Q.
Proof.
  unfold Qltb. rewrite Qlt_alt.
  destruct (a ?= b)%Q; split; congruence.
Qed.












(** *** The radius against the grid of [extractBodies.py] *)










Lemma in_firstn_in {A : Type} (n : nat) (l : list A) (x : A) :
  In x (firstn n l) -> In x l.
Proof.
  intros H. rewrite <- (firstn_skipn n l). apply in_or_app. now left.
Qed.

Lemma in_skipn_in {A : Type} (n : nat) (l : list A) (x : A) :
  In x (skipn n l) -> In x l.
Proof.
  intros H. rewrite <- (firstn_skipn n l). apply in_or_app. now right.
Qed.



(** *** The radius of [cis_bodies2pm_working.py] *)
















(** ** Ring canonicalizer *)

Lemma in_enumerate_from_intro {A : Type} (l : list A) (k i : nat) (x : A) :
  nth_error l i = Some x -> In (k + i, x) (enumerate_from k l).
Proof.
  revert k i. induction l as [|y l IH]; intros k [|i]; simpl; try discriminate.
  - intros [= ->]. left. f_equal. lia.
  - intros H. right. replace (k + S i) with (S k + i) by lia. now apply IH.
Qed.

Definition origin : vertex := (0%Q, 0%Q, 0%Q).

Lemma center_indices_in (half_ft : list vertex) (i : nat) :
  In i (center_indices half_ft) ->
  In (nth i half_ft origin) half_ft /\
  (Qabs (vx (nth i half_ft origin)) < eps_center)%Q.
Proof.
  unfold center_indices. intros H.
  apply in_map_iff in H as ([i' v] & E & H). simpl in E. subst i'.
  apply filter_In in H as [H Hc]. simpl in Hc.
  apply in_enumerate_from in H as [_ H]. rewrite Nat.sub_0_r in H.
  rewrite (nth_error_nth _ _ origin H).
  split; [now apply nth_error_In in H|now apply Qltb_lt].
Qed.






Section RingProps.

Variable atan2 : Q -> Q -> Q.



Lemma left_ring_length (ordered : list vertex) :
  length (left_ring_of ordered) = 9.
Proof. unfold left_ring_of. now rewrite length_map, length_seq. Qed.



Lemma map_snd_enumerate_from {A : Type} (l : list A) (k : nat) :
  map snd (enumerate_from k l) = l.
Proof.
  revert k. induction l as [|x l IH]; intros k; simpl; [reflexivity|].
  now rewrite IH.
Qed.








End RingProps.

(** A ring of eight points around the z axis, in no particular order. *)
Definition octagon : list vertex :=
  [(-1, 1, 1)%Q; (2, 0, 1)%Q; (0, -2, 1)%Q; (1, 1, 1)%Q; (-2, 0, 1)%Q;
   (0, 2, 1)%Q; (1, -1, 1)%Q; (-1, -1, 1)%Q].




Example mid_ring_octagon_order :
  half_order diamond_atan2
    (map to_ft (filter (fun v => Qle_bool (- eps_split)%Q (vx v)) octagon))
  = map to_ft [(0, 2, 1)%Q; (1, 1, 1)%Q; (2, 0, 1)%Q; (1, -1, 1)%Q; (0, -2, 1)%Q].
Proof. reflexivity. Qed.

(** ** Topology: the search ends *)

Section BfsTotal.

Variable N : nat.

(** The vertices below [N] that [dist] has not reached. *)
Definition unvisited (dist : dist_dict) : nat :=
  length (filter (fun k => negb (dist_mem dist k)) (seq 0 N)).

(** The entries of the queue that are below [N]. *)
Definition queued (q : list nat) : nat :=
  length (filter (fun v => (v <? N)%nat) q).

Lemma dist_mem_app (dist : dist_dict) (nb d k : nat) :
  dist_mem (dist ++ [(nb, d)]) k = dist_mem dist k || (nb =? k)%nat.
Proof.
  unfold dist_mem. induction dist as [|[k' d'] dist IH]; simpl.
  - now destruct (nb =? k)%nat.
  - destruct (k' =? k)%nat; [reflexivity|exact IH].
Qed.

Lemma filter_drop_one (dist : dist_dict) (nb d : nat) (l : list nat) :
  NoDup l -> dist_mem dist nb = false ->
  length (filter (fun k => negb (dist_mem dist k)) l) =
  length (filter (fun k => negb (dist_mem (dist ++ [(nb, d)]) k)) l)
  + (if in_dec Nat.eq_dec nb l then 1 else 0).
Proof.
  intros Hnd Hnb. induction Hnd as [|x l Hx Hnd IH]; [reflexivity|].
  cbn [filter]. rewrite dist_mem_app.
  destruct (in_dec Nat.eq_dec nb (x :: l)) as [Hin|Hout].
  - destruct (Nat.eq_dec nb x) as [->|Hne].
    + rewrite Hnb, Nat.eqb_refl. cbn [negb orb length].
      destruct (in_dec Nat.eq_dec x l) as [Hin'|_]; [contradiction|].
      rewrite IH. lia.
    + replace (nb =? x)%nat with false by (symmetry; now apply Nat.eqb_neq).
      rewrite orb_false_r.
      destruct (in_dec Nat.eq_dec nb l) as [_|Hout'];
        [|destruct Hin; [congruence|contradiction]].
      destruct (dist_mem dist x); cbn [negb length]; rewrite IH; lia.
  - assert (Hne : nb <> x) by (intros ->; apply Hout; simpl; auto).
    replace (nb =? x)%nat with false by (symmetry; now apply Nat.eqb_neq).
    rewrite orb_false_r.
    destruct (in_dec Nat.eq_dec nb l) as [Hin'|_];
      [exfalso; apply Hout; simpl; auto|].
    destruct (dist_mem dist x); cbn [negb length]; rewrite IH; lia.
Qed.

Lemma unvisited_add (dist : dist_dict) (nb d : nat) :
  dist_mem dist nb = false ->
  unvisited dist =
  unvisited (dist ++ [(nb, d)]) + (if (nb <? N)%nat then 1 else 0).
Proof.
  intros H. unfold unvisited.
  rewrite (filter_drop_one dist nb d (seq 0 N) (seq_NoDup N 0) H).
  f_equal.
  destruct (in_dec Nat.eq_dec nb (seq 0 N)) as [Hin|Hout];
    destruct (Nat.ltb_spec nb N) as [L|L]; try reflexivity.
  - apply in_seq in Hin. lia.
  - exfalso. apply Hout, in_seq. lia.
Qed.

Lemma queued_app (q : list nat) (nb : nat) :
  queued (q ++ [nb]) = queued q + (if (nb <? N)%nat then 1 else 0).
Proof.
  unfold queued. rewrite filter_app, length_app. simpl.
  now destruct (nb <? N)%nat.
Qed.

(** The inner loop moves vertices from "not reached" to "queued". *)
Lemma visit_measure (nbs : list nat) (dv : nat) :
  forall dist q dist' q',
    visit nbs dv dist q = (dist', q') ->
    unvisited dist' + queued q' = unvisited dist + queued q.
Proof.
  induction nbs as [|nb nbs IH]; intros dist q dist' q' H; simpl in H.
  - now injection H as <- <-.
  - destruct (dist_mem dist nb) eqn:E; [now apply IH|].
    apply IH in H. rewrite H, queued_app, (unvisited_add dist nb (dv + 1) E).
    lia.
Qed.

Lemma unvisited_le (dist : dist_dict) : unvisited dist <= N.
Proof.
  unfold unvisited.
  eapply Nat.le_trans; [apply filter_length_le|].
  now rewrite length_seq.
Qed.

Lemma start_measure (nose : nat) :
  unvisited [(nose, 0)] + queued [nose] <= N.
Proof.
  pose proof (unvisited_add [] nose 0 eq_refl) as H. simpl app in H.
  pose proof (unvisited_le []) as H0.
  unfold queued. simpl. destruct (nose <? N)%nat; simpl; lia.
Qed.

Variable neighbors : list (list nat).
Hypothesis N_is_length : N = length neighbors.

Lemma bfs_loop_enough (fuel : nat) :
  forall q dist,
    unvisited dist + queued q < fuel ->
    exists r, bfs_loop fuel neighbors q dist = Some r.
Proof.
  induction fuel as [|fuel IH]; intros q dist H; [lia|].
  destruct q as [|v q]; simpl; [eauto|].
  destruct (nth_error neighbors v) as [nbs|] eqn:Env; [|eauto].
  destruct (dist_get dist v) as [dv|]; [|eauto].
  destruct (visit nbs dv dist q) as [dist' q'] eqn:Ev.
  apply IH. apply visit_measure in Ev. rewrite Ev.
  assert (Hv : v < N).
  { rewrite N_is_length. apply nth_error_Some. congruence. }
  unfold queued in H. simpl in H.
  replace (v <? N)%nat with true in H by (symmetry; now apply Nat.ltb_lt).
  simpl in H. unfold queued. lia.
Qed.

End BfsTotal.

(** The search of [compute_topological_layers] ends within the fuel it is
    given: every round takes a vertex below [len(neighbors)] out of the
    queue, and each such vertex enters the queue at most once. *)
Lemma bfs_loop_total (neighbors : list (list nat)) (nose : nat) :
  exists r,
    bfs_loop (S (length neighbors)) neighbors [nose] [(nose, 0)] = Some r.
Proof.
  apply (bfs_loop_enough (length neighbors) neighbors eq_refl).
  pose proof (start_measure (length neighbors) nose). lia.
Qed.

(** ** Topology: malformed layers abort the run *)







Lemma mid_stations_error (dist : dist_dict) (tail_d : nat) (ds : list nat)
  (e : exn) :
  mid_stations dist tail_d ds = Raise e -> e = ValueError.
Proof.
  induction ds as [|d0 ds IH]; cbn [mid_stations]; [discriminate|].
  destruct (_ || _)%nat; [exact IH|].
  destruct (_ =? 0)%nat; [exact IH|].
  destruct (negb _); [congruence|].
  destruct (mid_stations dist tail_d ds); simpl; [discriminate|].
  intros [= <-]. now apply IH.
Qed.





Section RunProps.

Variable atan2 : Q -> Q -> Q.
Variable list_of_set : list nat -> list nat.
Variable build_body_block_from_template :
  list body -> nat -> list string -> result (list string).


Lemma name_in_iff (name : string) (l : list string) :
  name_in name l = true <-> In name l.
Proof.
  unfold name_in. rewrite existsb_exists. split.
  - intros (x & Hx & E). apply String.eqb_eq in E. now subst.
  - intros H. exists name. split; [exact H|apply String.eqb_refl].
Qed.







End RunProps.


(** A mesh of ten vertices: a nose, two rings of four and a tail.  Its
    layers at distance 1 and 2 hold four vertices each. *)
Definition thin_verts : list vertex :=
  [(0, 0, 0)%Q;
   (1, 1, 1)%Q; (1, -1, 1)%Q; (-1, -1, 1)%Q; (-1, 1, 1)%Q;
   (1, 1, 2)%Q; (1, -1, 2)%Q; (-1, -1, 2)%Q; (-1, 1, 2)%Q;
   (0, 0, 3)%Q].

Definition thin_faces : list (list nat) :=
  [[0; 1; 2]; [0; 2; 3]; [0; 3; 4]; [0; 4; 1];
   [1; 2; 6; 5]; [2; 3; 7; 6]; [3; 4; 8; 7]; [4; 1; 5; 8];
   [9; 5; 6]; [9; 6; 7]; [9; 7; 8]; [9; 8; 5]].




(** A well-formed mesh, for comparison: a nose, one ring of eight and a
    tail give three rings of 18 slots and a half count of 5. *)
Example well_formed_mesh_rings :
  let verts :=
    [(0, 0, 0)%Q;
     (0, 2, 1)%Q; (1, 1, 1)%Q; (2, 0, 1)%Q; (1, -1, 1)%Q;
     (0, -2, 1)%Q; (-1, -1, 1)%Q; (-2, 0, 1)%Q; (-1, 1, 1)%Q;
     (0, 0, 2)%Q] in
  let faces :=
    [[0; 1; 2]; [0; 2; 3]; [0; 3; 4]; [0; 4; 5];
     [0; 5; 6]; [0; 6; 7]; [0; 7; 8]; [0; 8; 1];
     [9; 1; 2]; [9; 2; 3]; [9; 3; 4]; [9; 4; 5];
     [9; 5; 6]; [9; 6; 7]; [9; 7; 8]; [9; 8; 1]] in
  exists part_x rings,
    build_pm_rings_for_mesh diamond_atan2 insertion_order verts faces
    = Ok (part_x, rings, 5) /\
    map (@length vertex) rings = [18; 18; 18].
Proof.
  cbv zeta. eexists. eexists. split.
  - vm_compute. reflexivity.
  - reflexivity.
Qed.

(** * Further properties of the code *)

(** ** Prefix strategy: what a patch leaves and where it puts the block *)

Lemma body_block_of_patch (lines blk : list string) (b : Z) :
  Forall (fun l => is_body_line b l = true) blk ->
  body_block (replace_body_block lines b blk) b = blk.
Proof.
  intros Hblk.
  destruct (replace_body_block_shape b lines blk) as [p ->].
  set (kept := filter (fun l => negb (is_body_line b l)) lines).
  assert (Hk : filter (is_body_line b) kept = []).
  { apply filter_all_false. apply Forall_forall. intros x Hx.
    apply filter_In in Hx as [_ Hx]. now apply negb_true_iff in Hx. }
  rewrite <- (firstn_skipn p kept), filter_app in Hk.
  apply app_eq_nil in Hk as [H1 H2].
  unfold body_block. rewrite !filter_app, H1, H2, app_nil_r. simpl.
  now apply filter_all_true.
Qed.

(** Reading the block of body [b] back from a patched document gives the
    lines that were put in, when these are lines of body [b]. *)
Theorem replace_body_block_extract (lines blk : list string) (b : Z) :
  Forall (fun l => is_body_line b l = true) blk ->
  body_block (replace_body_block lines b blk) b = blk.
Proof. apply body_block_of_patch. Qed.

Lemma replace_body_block_extract_witness :
  body_block
    (replace_body_block
       ["PROPERTIES_BEGIN"; "P _body/7/_part_x 9.000000000"; "P acf/_name demo";
        "P _body/7/_part_y 9.000000000"; "PROPERTIES_END"] 7 demo_block) 7
  = demo_block.
Proof.
  apply (replace_body_block_extract
           ["PROPERTIES_BEGIN"; "P _body/7/_part_x 9.000000000";
            "P acf/_name demo"; "P _body/7/_part_y 9.000000000";
            "PROPERTIES_END"] demo_block 7%Z).
  repeat constructor.
Defined.

(** The new block goes where the first line of the old block was: the
    lines before it stay, and the other lines that follow come after the
    new block in their order. *)
Theorem replace_body_block_position (pre rest blk : list string)
  (l0 : string) (b : Z) :
  Forall (fun l => is_body_line b l = false) pre ->
  is_body_line b l0 = true ->
  replace_body_block (pre ++ l0 :: rest) b blk =
  pre ++ blk ++ filter (fun l => negb (is_body_line b l)) rest.
Proof.
  intros Hpre Hl0. unfold replace_body_block.
  rewrite filter_app. cbn [filter]. rewrite Hl0. cbn [negb].
  rewrite (filter_all_true _ pre)
    by (eapply Forall_impl; [|exact Hpre]; intros x Hx; now rewrite Hx).
  rewrite first_index_skip by assumption.
  cbn [first_index]. rewrite Hl0, length_app. simpl Nat.add.
  replace (Nat.min (length pre)
             (length pre
              + length (filter (fun l => negb (is_body_line b l)) rest)))
    with (length pre) by lia.
  rewrite firstn_app, firstn_all, Nat.sub_diag, firstn_0, app_nil_r.
  rewrite skipn_app, skipn_all, Nat.sub_diag. reflexivity.
Qed.

Lemma replace_body_block_position_witness :
  replace_body_block
    (["PROPERTIES_BEGIN"; "P acf/_a 1"]
       ++ "P _body/7/_part_x 9.000000000"
       :: ["P acf/_b 2"; "P _body/7/_part_y 9.000000000"; "PROPERTIES_END"])
    7 demo_block
  = ["PROPERTIES_BEGIN"; "P acf/_a 1"] ++ demo_block
      ++ ["P acf/_b 2"; "PROPERTIES_END"].
Proof.
  apply (replace_body_block_position
           ["PROPERTIES_BEGIN"; "P acf/_a 1"]
           ["P acf/_b 2"; "P _body/7/_part_y 9.000000000"; "PROPERTIES_END"]
           demo_block "P _body/7/_part_x 9.000000000" 7%Z).
  - repeat constructor.
  - reflexivity.
Defined.

(** A patch keeps every line that is not of body [b], in order, and the
    document it returns has those lines and the new block and nothing
    else. *)
Theorem replace_body_block_keeps_others (lines blk : list string) (b : Z) :
  Forall (fun l => is_body_line b l = true) blk ->
  filter (fun l => negb (is_body_line b l)) (replace_body_block lines b blk) =
    filter (fun l => negb (is_body_line b l)) lines /\
  length (replace_body_block lines b blk) =
    length (filter (fun l => negb (is_body_line b l)) lines) + length blk.
Proof.
  intros Hblk. split; [now apply replace_body_block_frame|].
  destruct (replace_body_block_shape b lines blk) as [p ->].
  rewrite !length_app.
  rewrite <- (firstn_skipn p (filter _ lines)) at 3.
  rewrite length_app. lia.
Qed.

Lemma replace_body_block_keeps_others_witness :
  filter (fun l => negb (is_body_line 7 l))
    (replace_body_block
       ["P _body/7/_part_x 9.000000000"; "P acf/_name demo";
        "P _body/70/_part_x 1.000000000"; "P _body/7/_part_y 9.000000000"]
       7 demo_block)
  = ["P acf/_name demo"; "P _body/70/_part_x 1.000000000"].
Proof.
  apply (replace_body_block_keeps_others
           ["P _body/7/_part_x 9.000000000"; "P acf/_name demo";
            "P _body/70/_part_x 1.000000000"; "P _body/7/_part_y 9.000000000"]
           demo_block 7%Z).
  repeat constructor.
Defined.

(** ** Marker strategy: the markers and the span that is replaced *)

Lemma is_end_not_begin (l : string) : is_end l = true -> is_begin l = false.
Proof.
  unfold is_begin, is_end. intros H. apply String.eqb_eq in H. now rewrite H.
Qed.

Lemma find_markers_no_end (lines : list string) :
  Forall (fun l => is_end l = false) lines ->
  forall idx pb, snd (find_markers lines idx pb) = None.
Proof.
  induction 1 as [|l lines Hl _ IH]; intros idx pb; simpl; [reflexivity|].
  unfold is_end in Hl. rewrite Hl.
  destruct (String.eqb (PyStr.strip l) "PROPERTIES_BEGIN"); apply IH.
Qed.

Lemma find_markers_before_end (pre rest : list string) :
  Forall (fun l => is_end l = false) pre ->
  forall idx pb,
    exists pb',
      find_markers (pre ++ rest) idx pb =
      find_markers rest (idx + length pre) pb' /\
      (Forall (fun l => is_begin l = false) pre -> pb' = pb).
Proof.
  induction 1 as [|l pre Hl _ IH]; intros idx pb; simpl.
  - exists pb. rewrite Nat.add_0_r. auto.
  - unfold is_end in Hl. rewrite Hl.
    destruct (String.eqb (PyStr.strip l) "PROPERTIES_BEGIN") eqn:Eb.
    + destruct (IH (S idx) (Some idx)) as (pb' & E & _).
      exists pb'. split; [rewrite E; f_equal; lia|].
      intros Hf. inversion Hf as [|? ? Hb _]; subst.
      unfold is_begin in Hb. congruence.
    + destruct (IH (S idx) pb) as (pb' & E & Hsame).
      exists pb'. split; [rewrite E; f_equal; lia|].
      intros Hf. inversion Hf; subst. auto.
Qed.

(** Missing markers are fatal: without a [PROPERTIES_END] line, or when
    the first one comes before any [PROPERTIES_BEGIN] line,
    [rewrite_acf_bodies] raises [RuntimeError] whatever the new lines. *)
Theorem rewrite_acf_bodies_missing_markers (lines new_body_lines : list string) :
  Forall (fun l => is_end l = false) lines \/
  (exists pre le post,
      lines = pre ++ le :: post /\
      Forall (fun l => plain l = true) pre /\ is_end le = true) ->
  rewrite_acf_bodies lines new_body_lines = Raise RuntimeError.
Proof.
  intros [H|(pre & le & post & -> & Hpre & He)]; unfold rewrite_acf_bodies.
  - pose proof (find_markers_no_end lines H 0 None) as E.
    destruct (find_markers lines 0 None) as [pb pe]. simpl in E. subst pe.
    now destruct pb.
  - rewrite find_markers_skip by assumption. simpl.
    pose proof (is_end_not_begin le He) as Hb.
    unfold is_begin in Hb. unfold is_end in He. now rewrite Hb, He.
Qed.

Lemma rewrite_acf_bodies_missing_markers_witness :
  rewrite_acf_bodies ["A"; "PROPERTIES_BEGIN"; "P acf/_name demo"] demo_block
    = Raise RuntimeError /\
  rewrite_acf_bodies ["A"; "PROPERTIES_END"; "PROPERTIES_BEGIN"; "PROPERTIES_END"]
    demo_block = Raise RuntimeError.
Proof.
  split.
  - apply (rewrite_acf_bodies_missing_markers
             ["A"; "PROPERTIES_BEGIN"; "P acf/_name demo"] demo_block).
    left. repeat constructor.
  - apply (rewrite_acf_bodies_missing_markers
             ["A"; "PROPERTIES_END"; "PROPERTIES_BEGIN"; "PROPERTIES_END"]
             demo_block).
    right. exists ["A"], "PROPERTIES_END", ["PROPERTIES_BEGIN"; "PROPERTIES_END"].
    split; [reflexivity|]. split; [repeat constructor|reflexivity].
Defined.

Definition scan_step (lines : list string) (st : option nat * option nat)
  (idx : nat) : option nat * option nat :=
  if is_any_body_line (nth idx lines "") then
    (match fst st with None => Some idx | Some s => Some s end, Some idx)
  else st.

Lemma scan_bodies_fold (lines : list string) (idxs : list nat) :
  scan_bodies lines idxs = fold_left (scan_step lines) idxs (None, None).
Proof. reflexivity. Qed.

Lemma scan_quiet_any (lines : list string) (idxs : list nat) :
  Forall (fun k => is_any_body_line (nth k lines "") = false) idxs ->
  forall st, fold_left (scan_step lines) idxs st = st.
Proof.
  induction 1 as [|k idxs Hk _ IH]; intros st; simpl; [reflexivity|].
  unfold scan_step at 2. now rewrite Hk.
Qed.

Lemma scan_keeps_start (lines : list string) (idxs : list nat) (a : nat) :
  forall st, fst st = Some a ->
             fst (fold_left (scan_step lines) idxs st) = Some a.
Proof.
  induction idxs as [|k idxs IH]; intros st H; simpl; [exact H|].
  apply IH. unfold scan_step. destruct (is_any_body_line _); [|exact H].
  simpl. now rewrite H.
Qed.

(** The scan over a span whose first and last lines are [P _body/] lines. *)
Lemma scan_span (lines : list string) (a n : nat) :
  is_any_body_line (nth a lines "") = true ->
  is_any_body_line (nth (a + n) lines "") = true ->
  forall e,
    fold_left (scan_step lines) (seq a (S n)) (None, e) =
    (Some a, Some (a + n)).
Proof.
  intros Ha Hl e. destruct n as [|n].
  - simpl. unfold scan_step. now rewrite Ha, Nat.add_0_r.
  - replace (S (S n)) with (S n + 1) by lia.
    rewrite seq_app, fold_left_app.
    change (seq (a + S n) 1) with [a + S n].
    set (st := fold_left (scan_step lines) (seq a (S n)) (None, e)).
    assert (Hst : fst st = Some a).
    { unfold st. cbn [seq fold_left]. apply scan_keeps_start.
      unfold scan_step. now rewrite Ha. }
    cbn [fold_left]. unfold scan_step. rewrite Hl, Hst. reflexivity.
Qed.

Lemma nth_middle_app (A B C : list string) (k : nat) :
  k < length B ->
  nth (length A + k) (A ++ B ++ C) "" = nth k B "".
Proof.
  intros H. rewrite app_nth2 by lia.
  replace (length A + k - length A) with k by lia.
  now rewrite app_nth1.
Qed.

Lemma splice_span {A : Type} (X span Y new : list A) :
  firstn (length X) (X ++ span ++ Y) ++ new
    ++ skipn (length X + length span) (X ++ span ++ Y)
  = X ++ new ++ Y.
Proof.
  rewrite firstn_app, firstn_all, Nat.sub_diag, firstn_0, app_nil_r.
  do 2 f_equal.
  rewrite <- length_app, (app_assoc X span Y).
  now rewrite skipn_app, skipn_all, Nat.sub_diag.
Qed.

Lemma rewrite_span
  (pre m1 span m2 post new_body_lines : list string) (lb le s0 s1 : string)
  (inner : list string) :
  Forall (fun l => is_end l = false) pre ->
  is_begin lb = true ->
  Forall (fun l => quiet l = true) m1 ->
  span = [s0] \/ span = s0 :: inner ++ [s1] ->
  Forall (fun l => plain l = true) span ->
  is_any_body_line s0 = true ->
  is_any_body_line (last span "") = true ->
  Forall (fun l => quiet l = true) m2 ->
  is_end le = true ->
  rewrite_acf_bodies (pre ++ lb :: m1 ++ span ++ m2 ++ le :: post)
    new_body_lines
  = Ok (pre ++ lb :: m1 ++ new_body_lines ++ m2 ++ le :: post).
Proof.
  intros Hpre Hb Hm1 Hspan Hplain Hs0 Hs1 Hm2 He.
  set (mid := m1 ++ span ++ m2).
  set (A := pre ++ [lb]).
  set (lines := pre ++ lb :: m1 ++ span ++ m2 ++ le :: post).
  assert (Hlines : lines = A ++ mid ++ le :: post).
  { unfold lines, A, mid. now rewrite <- !app_assoc. }
  assert (HA : length A = length pre + 1)
    by (unfold A; rewrite length_app; reflexivity).
  assert (Hmid : Forall (fun l => plain l = true) mid).
  { unfold mid. apply Forall_app. split; [now apply quiet_plain|].
    apply Forall_app. split; [exact Hplain|now apply quiet_plain]. }
  (* the markers *)
  assert (Hfm : find_markers lines 0 None =
                (Some (length pre), Some (length pre + 1 + length mid))).
  { unfold lines. fold mid.
    replace (m1 ++ span ++ m2 ++ le :: post) with (mid ++ le :: post)
      by (unfold mid; now rewrite <- !app_assoc).
    destruct (find_markers_before_end pre (lb :: mid ++ le :: post) Hpre 0 None)
      as (pb' & -> & _).
    simpl. unfold is_begin in Hb. rewrite Hb.
    rewrite find_markers_skip by assumption. simpl.
    pose proof (is_end_not_begin le He) as Hnb.
    unfold is_begin in Hnb. unfold is_end in He. rewrite Hnb, He.
    f_equal. f_equal. lia. }
  unfold rewrite_acf_bodies. fold lines. rewrite Hfm.
  replace (length pre + 1 + length mid <=? length pre)%nat with false
    by (symmetry; apply Nat.leb_gt; lia).
  replace (length pre + 1 + length mid - (length pre + 1)) with (length mid)
    by lia.
  (* the scan *)
  assert (Hlen : length span = S (length span - 1))
    by (destruct Hspan as [->| ->]; simpl; lia).
  assert (Hscan : scan_bodies lines (seq (length pre + 1) (length mid)) =
                  (Some (length A + length m1),
                   Some (length A + length m1 + (length span - 1)))).
  { rewrite scan_bodies_fold. unfold mid. rewrite !length_app.
    rewrite <- HA. rewrite !seq_app, !fold_left_app.
    rewrite (scan_quiet_any lines (seq (length A) (length m1))).
    2:{ apply Forall_forall. intros k Hk. apply in_seq in Hk.
        replace k with (length A + (k - length A)) by lia.
        rewrite Hlines. unfold mid.
        rewrite (app_assoc m1), <- (app_assoc (m1 ++ span)), <- app_assoc.
        rewrite (nth_middle_app A m1) by lia.
        rewrite Forall_forall in Hm1.
        assert (Hq : quiet (nth (k - length A) m1 "") = true)
          by (apply Hm1, nth_In; lia).
        unfold quiet in Hq. apply andb_true_iff in Hq as [_ Hq].
        now apply negb_true_iff in Hq. }
    replace (seq (length A + length m1) (length span))
      with (seq (length A + length m1) (S (length span - 1)))
      by (now rewrite <- Hlen).
    rewrite scan_span.
    - rewrite scan_quiet_any; [reflexivity|].
      apply Forall_forall. intros k Hk. apply in_seq in Hk.
      replace k with (length (A ++ m1 ++ span)
                      + (k - length (A ++ m1 ++ span)))
        by (rewrite !length_app; lia).
      rewrite Hlines. unfold mid.
      replace (A ++ (m1 ++ span ++ m2) ++ le :: post)
        with ((A ++ m1 ++ span) ++ m2 ++ le :: post)
        by now rewrite <- !app_assoc.
      rewrite (nth_middle_app (A ++ m1 ++ span) m2)
        by (rewrite !length_app in *; lia).
      rewrite Forall_forall in Hm2.
      assert (Hq : quiet (nth (k - length (A ++ m1 ++ span)) m2 "") = true)
        by (apply Hm2, nth_In; rewrite !length_app in *; lia).
      unfold quiet in Hq. apply andb_true_iff in Hq as [_ Hq].
      now apply negb_true_iff in Hq.
    - rewrite Hlines. unfold mid.
      replace (A ++ (m1 ++ span ++ m2) ++ le :: post)
        with ((A ++ m1) ++ span ++ m2 ++ le :: post)
        by now rewrite <- !app_assoc.
      rewrite <- length_app, <- (Nat.add_0_r (length (A ++ m1))).
      rewrite nth_middle_app by lia.
      destruct Hspan as [->| ->]; exact Hs0.
    - rewrite Hlines. unfold mid.
      replace (A ++ (m1 ++ span ++ m2) ++ le :: post)
        with ((A ++ m1) ++ span ++ m2 ++ le :: post)
        by now rewrite <- !app_assoc.
      rewrite <- length_app.
      rewrite nth_middle_app by lia.
      replace (nth (length span - 1) span "") with (last span "");
        [exact Hs1|].
      destruct Hspan as [->| ->]; [reflexivity|].
      change (s0 :: inner ++ [s1]) with ((s0 :: inner) ++ [s1]).
      rewrite last_last, length_app.
      replace (length (s0 :: inner) + length [s1] - 1)
        with (length (s0 :: inner)) by (simpl; lia).
      rewrite app_nth2 by lia. now rewrite Nat.sub_diag. }
  rewrite Hscan.
  (* the slices *)
  rewrite Hlines. unfold mid.
  replace (A ++ (m1 ++ span ++ m2) ++ le :: post)
    with ((A ++ m1) ++ span ++ m2 ++ le :: post)
    by now rewrite <- !app_assoc.
  rewrite <- length_app.
  replace (length (A ++ m1) + (length span - 1) + 1)
    with (length (A ++ m1) + length span) by lia.
  rewrite splice_span. unfold A. now rewrite <- !app_assoc.
Qed.

(** [rewrite_acf_bodies] replaces the span from the first to the last
    [P _body/] line between the markers and keeps every line outside that
    span, before, between and after the markers, in place. *)
Theorem rewrite_acf_bodies_replaces_span
  (pre m1 span m2 post new_body_lines : list string) (lb le s0 s1 : string)
  (inner : list string) :
  Forall (fun l => is_end l = false) pre ->
  is_begin lb = true ->
  Forall (fun l => quiet l = true) m1 ->
  span = [s0] \/ span = s0 :: inner ++ [s1] ->
  Forall (fun l => plain l = true) span ->
  is_any_body_line s0 = true ->
  is_any_body_line (last span "") = true ->
  Forall (fun l => quiet l = true) m2 ->
  is_end le = true ->
  rewrite_acf_bodies (pre ++ lb :: m1 ++ span ++ m2 ++ le :: post)
    new_body_lines
  = Ok (pre ++ lb :: m1 ++ new_body_lines ++ m2 ++ le :: post).
Proof. apply rewrite_span. Qed.

Lemma rewrite_acf_bodies_replaces_span_witness :
  rewrite_acf_bodies
    (["A"; " PROPERTIES_BEGIN"]
       ++ "PROPERTIES_BEGIN"
       :: ["P acf/_a 1"]
       ++ ["P _body/0/_part_x 1.000000000"; "P _body/0/_part_y 1.000000000";
           "  P _body/1/_part_x 2.000000000"]
       ++ ["P acf/_z 1"] ++ "PROPERTIES_END " :: ["PROPERTIES_END"; "Z"])
    demo_block
  = Ok (["A"; " PROPERTIES_BEGIN"]
          ++ "PROPERTIES_BEGIN"
          :: ["P acf/_a 1"] ++ demo_block
          ++ ["P acf/_z 1"] ++ "PROPERTIES_END " :: ["PROPERTIES_END"; "Z"]).
Proof.
  apply (rewrite_acf_bodies_replaces_span
           ["A"; " PROPERTIES_BEGIN"] ["P acf/_a 1"]
           ["P _body/0/_part_x 1.000000000"; "P _body/0/_part_y 1.000000000";
            "  P _body/1/_part_x 2.000000000"]
           ["P acf/_z 1"] ["PROPERTIES_END"; "Z"] demo_block
           "PROPERTIES_BEGIN" "PROPERTIES_END "
           "P _body/0/_part_x 1.000000000" "  P _body/1/_part_x 2.000000000"
           ["P _body/0/_part_y 1.000000000"]).
  - repeat constructor.
  - reflexivity.
  - repeat constructor.
  - right. reflexivity.
  - repeat constructor.
  - reflexivity.
  - reflexivity.
  - repeat constructor.
  - reflexivity.
Defined.

(** ** Strings: stripping and prefixes *)

Definition all_space (s : string) : Prop :=
  Forall (fun c => PyStr.isspace c = true) (list_ascii_of_string s).

(** The last character of [s] is not white space. *)
Definition ends_solid (s : string) : Prop :=
  exists s' c, s = (s' ++ String c "")%string /\ PyStr.isspace c = false.

Lemma string_app_assoc (a b c : string) :
  ((a ++ b) ++ c)%string = (a ++ (b ++ c))%string.
Proof. induction a as [|x a IH]; simpl; [reflexivity|now rewrite IH]. Qed.

Lemma string_app_nil_r (a : string) : (a ++ "")%string = a.
Proof. induction a as [|x a IH]; simpl; [reflexivity|now rewrite IH]. Qed.

Lemma rev_string_acc (s acc : string) :
  PyStr.rev_string s acc = (PyStr.rev_string s "" ++ acc)%string.
Proof.
  revert acc. induction s as [|c s IH]; intros acc; simpl; [reflexivity|].
  rewrite IH, (IH (String c "")), string_app_assoc. reflexivity.
Qed.

Lemma rev_string_app (s t : string) :
  PyStr.rev_string (s ++ t) "" =
  (PyStr.rev_string t "" ++ PyStr.rev_string s "")%string.
Proof.
  induction s as [|c s IH]; simpl.
  - now rewrite string_app_nil_r.
  - rewrite rev_string_acc, IH, (rev_string_acc s (String c "")).
    now rewrite string_app_assoc.
Qed.

Lemma rev_string_involutive (s : string) :
  PyStr.rev_string (PyStr.rev_string s "") "" = s.
Proof.
  induction s as [|c s IH]; simpl; [reflexivity|].
  rewrite (rev_string_acc s (String c "")), rev_string_app, IH. reflexivity.
Qed.

Lemma all_space_app (a b : string) :
  all_space (a ++ b) <-> all_space a /\ all_space b.
Proof.
  unfold all_space. induction a as [|c a IH]; simpl.
  - split; [auto|tauto].
  - split.
    + intros H. inversion H; subst. apply IH in H3 as [? ?]. auto.
    + intros [H Hb]. inversion H; subst. constructor; [assumption|].
      apply IH. auto.
Qed.

Lemma all_space_rev (s : string) :
  all_space s -> all_space (PyStr.rev_string s "").
Proof.
  induction s as [|c s IH]; simpl; [auto|].
  intros H. inversion H; subst. rewrite rev_string_acc.
  apply all_space_app. split; [now apply IH|].
  repeat constructor. assumption.
Qed.

(** [lstrip] takes a run of white space off the front and stops at the
    first character that is not white space. *)
Lemma lstrip_spec (s : string) :
  exists ws,
    s = (ws ++ PyStr.lstrip s)%string /\ all_space ws /\
    (PyStr.lstrip s = "" \/
     exists c t, PyStr.lstrip s = String c t /\ PyStr.isspace c = false).
Proof.
  induction s as [|c s (ws & E & Hws & Hl)]; simpl.
  - exists "". repeat split; [constructor|now left].
  - destruct (PyStr.isspace c) eqn:Ec.
    + exists (String c ws). split; [simpl; now rewrite <- E|].
      split; [constructor; assumption|exact Hl].
    + exists "". split; [reflexivity|]. split; [constructor|].
      right. eauto.
Qed.

(** [rstrip] takes a run of white space off the end, likewise. *)
Lemma rstrip_spec (s : string) :
  exists ws,
    s = (PyStr.rstrip s ++ ws)%string /\ all_space ws /\
    (PyStr.rstrip s = "" \/ ends_solid (PyStr.rstrip s)).
Proof.
  unfold PyStr.rstrip.
  destruct (lstrip_spec (PyStr.rev_string s "")) as (ws & E & Hws & Hl).
  exists (PyStr.rev_string ws "").
  split; [|split].
  - rewrite <- rev_string_app, <- E. symmetry. apply rev_string_involutive.
  - now apply all_space_rev.
  - destruct Hl as [->|(c & t & -> & Hc)]; [now left|].
    right. exists (PyStr.rev_string t ""), c. split; [|exact Hc].
    simpl. now rewrite rev_string_acc.
Qed.

Lemma lstrip_solid (c : ascii) (s : string) :
  PyStr.isspace c = false -> PyStr.lstrip (String c s) = String c s.
Proof. intros H. simpl. now rewrite H. Qed.

Lemma rstrip_solid (s : string) : ends_solid s -> PyStr.rstrip s = s.
Proof.
  intros (s' & c & -> & Hc). unfold PyStr.rstrip.
  rewrite rev_string_app. simpl PyStr.rev_string at 2.
  cbn [append]. rewrite lstrip_solid by assumption.
  simpl. rewrite rev_string_acc, rev_string_involutive. reflexivity.
Qed.

(** A line that starts and ends with characters that are not white space
    is its own [strip]. *)
Lemma strip_solid (c : ascii) (s : string) :
  PyStr.isspace c = false -> ends_solid (String c s) ->
  PyStr.strip (String c s) = String c s.
Proof.
  intros Hc He. unfold PyStr.strip.
  rewrite lstrip_solid by assumption. now apply rstrip_solid.
Qed.

Lemma prefix_app (a t : string) : String.prefix a (a ++ t) = true.
Proof.
  induction a as [|c a IH]; simpl; [now destruct t|].
  destruct (ascii_dec c c); [exact IH|congruence].
Qed.

Lemma prefix_inv (p s : string) :
  String.prefix p s = true -> exists t, s = (p ++ t)%string.
Proof.
  revert s. induction p as [|c p IH]; intros s H.
  - exists s. reflexivity.
  - destruct s as [|c' s]; simpl in H; [discriminate|].
    destruct (ascii_dec c c') as [->|]; [|discriminate].
    destruct (IH s H) as [t ->]. now exists t.
Qed.

Lemma prefix_trans_app (p r ws : string) :
  String.prefix p r = true -> String.prefix p (r ++ ws) = true.
Proof.
  intros H. destruct (prefix_inv p r H) as [t ->].
  rewrite string_app_assoc. apply prefix_app.
Qed.

(** What starts the stripped line also starts the left-stripped line. *)
Lemma startswith_strip_lstrip (s p : string) :
  PyStr.startswith (PyStr.strip s) p = true ->
  PyStr.startswith (PyStr.lstrip s) p = true.
Proof.
  unfold PyStr.startswith, PyStr.strip. intros H.
  destruct (rstrip_spec (PyStr.lstrip s)) as (ws & E & _ & _).
  rewrite E. now apply prefix_trans_app.
Qed.

Lemma string_app_eq_app (a t r ws : string) :
  (a ++ t)%string = (r ++ ws)%string ->
  (exists l, a = (r ++ l)%string /\ ws = (l ++ t)%string) \/
  (exists l, r = (a ++ l)%string /\ t = (l ++ ws)%string).
Proof.
  revert r. induction a as [|c a IH]; intros r H.
  - right. exists r. auto.
  - destruct r as [|c' r].
    + left. exists (String c a). auto.
    + simpl in H. injection H as -> H.
      destruct (IH r H) as [(l & -> & ->)|(l & -> & ->)]; [left|right];
        exists l; auto.
Qed.

Lemma all_space_solid_end (r l s' : string) (c : ascii) :
  (s' ++ String c "")%string = (r ++ l)%string ->
  PyStr.isspace c = false -> all_space l -> l = "".
Proof.
  intros E Hc Hl. destruct l as [|x l]; [reflexivity|exfalso].
  assert (Hrev : PyStr.rev_string (s' ++ String c "") "" =
                 PyStr.rev_string (r ++ String x l) "") by now rewrite E.
  rewrite !rev_string_app in Hrev. simpl PyStr.rev_string at 1 in Hrev.
  simpl append at 1 in Hrev.
  apply all_space_rev in Hl.
  destruct (PyStr.rev_string (String x l) "") as [|y ys] eqn:Ey.
  - simpl in Ey. rewrite rev_string_acc in Ey.
    destruct (PyStr.rev_string l ""); discriminate.
  - simpl in Hrev. injection Hrev as <- _.
    inversion Hl; subst. congruence.
Qed.

(** A prefix that ends in a character that is not white space survives
    the right strip. *)
Lemma startswith_lstrip_strip (s p : string) :
  ends_solid p ->
  PyStr.startswith (PyStr.lstrip s) p = true ->
  PyStr.startswith (PyStr.strip s) p = true.
Proof.
  unfold PyStr.startswith, PyStr.strip. intros (p' & c & Ep & Hc) H.
  destruct (prefix_inv _ _ H) as [t Et].
  destruct (rstrip_spec (PyStr.lstrip s)) as (ws & E & Hws & _).
  rewrite Et in E at 1.
  destruct (string_app_eq_app _ _ _ _ E) as [(l & El & Ew)|(l & El & _)].
  - assert (Hl : all_space l).
    { rewrite Ew in Hws. now apply all_space_app in Hws. }
    rewrite Ep in El.
    rewrite (all_space_solid_end _ _ _ _ El Hc Hl), string_app_nil_r in El.
    rewrite <- El, <- Ep. rewrite <- (string_app_nil_r p) at 2.
    apply prefix_app.
  - rewrite El. apply prefix_app.
Qed.

(** A [P _body/] line is neither marker. *)
Lemma any_body_line_plain (l : string) :
  is_any_body_line l = true -> plain l = true.
Proof.
  unfold is_any_body_line. intros H.
  apply startswith_lstrip_strip in H.
  2:{ exists "P _body", "/"%char. split; reflexivity. }
  destruct (prefix_inv _ _ H) as [t Et].
  unfold plain, is_begin, is_end. rewrite Et. reflexivity.
Qed.

Lemma list_ends {A : Type} (l : list A) :
  l <> [] ->
  (exists x, l = [x]) \/ (exists x inner y, l = x :: inner ++ [y]).
Proof.
  destruct l as [|x l]; [congruence|]. intros _.
  destruct (exists_last (l := x :: l)) as (l' & y & E); [discriminate|].
  destruct l' as [|x' l'].
  - left. exists y. exact E.
  - right. simpl in E. injection E as -> ->. eauto.
Qed.

Lemma last_in {A : Type} (l : list A) (d : A) : l <> [] -> In (last l d) l.
Proof.
  intros H. destruct (exists_last H) as (l' & y & ->).
  rewrite last_last. apply in_or_app. simpl. auto.
Qed.

(** Two patches in a row are the second one alone, and a patch with the
    block that is already there changes nothing: once [rewrite_acf_bodies]
    has written a block of [P _body/] lines, the next call replaces
    exactly that block. *)
Theorem rewrite_acf_bodies_twice
  (pre m1 span m2 post blk1 blk2 : list string) (lb le s0 s1 : string)
  (inner : list string) :
  Forall (fun l => is_end l = false) pre ->
  is_begin lb = true ->
  Forall (fun l => quiet l = true) m1 ->
  span = [s0] \/ span = s0 :: inner ++ [s1] ->
  Forall (fun l => plain l = true) span ->
  is_any_body_line s0 = true ->
  is_any_body_line (last span "") = true ->
  Forall (fun l => quiet l = true) m2 ->
  is_end le = true ->
  blk1 <> [] ->
  Forall (fun l => is_any_body_line l = true) blk1 ->
  let doc := pre ++ lb :: m1 ++ span ++ m2 ++ le :: post in
  exists doc1,
    rewrite_acf_bodies doc blk1 = Ok doc1 /\
    rewrite_acf_bodies doc1 blk2 = rewrite_acf_bodies doc blk2 /\
    rewrite_acf_bodies doc1 blk1 = Ok doc1.
Proof.
  intros Hpre Hb Hm1 Hspan Hplain Hs0 Hs1 Hm2 He Hne Hbody doc.
  exists (pre ++ lb :: m1 ++ blk1 ++ m2 ++ le :: post).
  assert (H1 : forall blk,
             rewrite_acf_bodies doc blk =
             Ok (pre ++ lb :: m1 ++ blk ++ m2 ++ le :: post)).
  { intros blk. unfold doc.
    eapply rewrite_span; eauto. }
  assert (H2 : forall blk,
             rewrite_acf_bodies (pre ++ lb :: m1 ++ blk1 ++ m2 ++ le :: post)
               blk =
             Ok (pre ++ lb :: m1 ++ blk ++ m2 ++ le :: post)).
  { intros blk.
    assert (Hp1 : Forall (fun l => plain l = true) blk1).
    { eapply Forall_impl; [|exact Hbody]. apply any_body_line_plain. }
    assert (Hl1 : is_any_body_line (last blk1 "") = true).
    { rewrite Forall_forall in Hbody. now apply Hbody, last_in. }
    destruct (list_ends blk1 Hne) as [(x & E)|(x & inn & y & E)].
    - eapply (rewrite_span pre m1 blk1 m2 post blk
                lb le x x []); eauto.
      subst blk1. now inversion Hbody.
    - eapply (rewrite_span pre m1 blk1 m2 post blk
                lb le x y inn); eauto.
      subst blk1. now inversion Hbody. }
  split; [apply H1|]. split; [now rewrite H1, H2|apply H2].
Qed.

Lemma rewrite_acf_bodies_twice_witness :
  exists doc1,
    rewrite_acf_bodies
      ([] ++ "PROPERTIES_BEGIN" :: ["P acf/_a 1"]
         ++ ["P _body/0/_part_x 1.000000000"]
         ++ ["P acf/_z 1"] ++ "PROPERTIES_END" :: []) demo_block = Ok doc1 /\
    rewrite_acf_bodies doc1 ["P _body/0/_part_y 3.000000000"] =
    rewrite_acf_bodies
      ([] ++ "PROPERTIES_BEGIN" :: ["P acf/_a 1"]
         ++ ["P _body/0/_part_x 1.000000000"]
         ++ ["P acf/_z 1"] ++ "PROPERTIES_END" :: [])
      ["P _body/0/_part_y 3.000000000"] /\
    rewrite_acf_bodies doc1 demo_block = Ok doc1.
Proof.
  apply (rewrite_acf_bodies_twice [] ["P acf/_a 1"]
           ["P _body/0/_part_x 1.000000000"] ["P acf/_z 1"] []
           demo_block ["P _body/0/_part_y 3.000000000"]
           "PROPERTIES_BEGIN" "PROPERTIES_END"
           "P _body/0/_part_x 1.000000000" "" []).
  - constructor.
  - reflexivity.
  - repeat constructor.
  - left. reflexivity.
  - repeat constructor.
  - reflexivity.
  - reflexivity.
  - repeat constructor.
  - reflexivity.
  - discriminate.
  - repeat constructor.
Defined.

(** ** Body lines of different bodies *)

Definition is_digit (c : ascii) : Prop :=
  In c ["0"; "1"; "2"; "3"; "4"; "5"; "6"; "7"; "8"; "9"]%char.

Lemma uint_string_digits (d : Decimal.uint) :
  Forall is_digit (list_ascii_of_string (NilEmpty.string_of_uint d)).
Proof.
  induction d; simpl; constructor; try assumption;
    unfold is_digit; simpl; tauto.
Qed.

Lemma uint_string_digits_z (d : Decimal.uint) :
  Forall is_digit (list_ascii_of_string (NilZero.string_of_uint d)).
Proof.
  destruct d; try apply (uint_string_digits (Decimal.D0 _));
    try apply uint_string_digits.
  simpl. constructor; [unfold is_digit; simpl; tauto|constructor].
Qed.

(** The characters of a printed integer: digits after an optional sign. *)
Lemma of_int_chars (n : Z) :
  Forall (fun c => is_digit c \/ c = "-"%char)
    (list_ascii_of_string (PyStr.of_int n)).
Proof.
  unfold PyStr.of_int, NilZero.string_of_int.
  destruct (Z.to_int n) as [d|d].
  - eapply Forall_impl; [|apply uint_string_digits_z]. auto.
  - simpl. constructor; [auto|].
    eapply Forall_impl; [|apply uint_string_digits_z]. auto.
Qed.

Lemma of_int_inj (n m : Z) : PyStr.of_int n = PyStr.of_int m -> n = m.
Proof.
  unfold PyStr.of_int. intros H.
  apply DecimalZ.to_int_inj.
  assert (Hn : forall z, NilZero.int_of_string
                           (NilZero.string_of_int (Z.to_int z)) =
                         Some (Z.to_int z)).
  { intros z. apply NilZero.isi; destruct z; simpl; try discriminate.
    - intros [= E]. now apply (DecimalPos.Unsigned.to_uint_nonnil p).
    - intros [= E]. now apply (DecimalPos.Unsigned.to_uint_nonnil p). }
  pose proof (Hn n) as E1. rewrite H, Hn in E1. now injection E1.
Qed.

Definition no_slash (s : string) : Prop :=
  Forall (fun c => c <> "/"%char) (list_ascii_of_string s).

Lemma of_int_no_slash (n : Z) : no_slash (PyStr.of_int n).
Proof.
  unfold no_slash. eapply Forall_impl; [|apply of_int_chars].
  intros c [H| ->]; [|discriminate].
  unfold is_digit in H. simpl in H.
  repeat (destruct H as [<-|H]; [discriminate|]). destruct H.
Qed.

Lemma slash_split (a b x y : string) :
  no_slash a -> no_slash b ->
  (a ++ String "/" x)%string = (b ++ String "/" y)%string -> a = b.
Proof.
  unfold no_slash. revert b.
  induction a as [|c a IH]; intros [|c' b] Ha Hb E; simpl in *.
  - reflexivity.
  - injection E as <- _. inversion Hb; subst. congruence.
  - injection E as -> _. inversion Ha; subst. congruence.
  - injection E as -> E. inversion Ha; inversion Hb; subst.
    f_equal. now apply IH.
Qed.

Lemma body_prefix_app (b : Z) (t : string) :
  (body_prefix b ++ t)%string =
  ("P _body/" ++ (PyStr.of_int b ++ String "/" t))%string.
Proof.
  unfold body_prefix. rewrite !string_app_assoc. reflexivity.
Qed.

(** No line belongs to two bodies. *)
Lemma body_prefix_exclusive (b b' : Z) (l : string) :
  is_body_line b l = true -> is_body_line b' l = true -> b = b'.
Proof.
  unfold is_body_line, PyStr.startswith. intros H H'.
  destruct (prefix_inv _ _ H) as [t E].
  destruct (prefix_inv _ _ H') as [t' E'].
  rewrite E, !body_prefix_app in E'.
  apply string_app_inj in E'.
  apply of_int_inj. eapply slash_split; eauto using of_int_no_slash.
Qed.

Lemma body_line_is_body (b : Z) (rest : string) :
  is_body_line b (body_line b rest) = true.
Proof.
  unfold is_body_line, PyStr.startswith, body_line.
  change ("P _body/" ++ PyStr.of_int b ++ "/" ++ rest)%string
    with (String "P" (" _body/" ++ PyStr.of_int b ++ "/" ++ rest))%string.
  rewrite lstrip_solid by reflexivity.
  change (String "P" (" _body/" ++ PyStr.of_int b ++ "/" ++ rest))%string
    with ("P _body/" ++ (PyStr.of_int b ++ String "/" rest))%string.
  rewrite <- body_prefix_app. apply prefix_app.
Qed.

Lemma render_geo_line_body (g : geo_line) :
  exists rest, render_geo_line g = body_line (geo_body g) rest.
Proof.
  destruct g as [b i j k v]. eexists. unfold render_geo_line, body_line.
  cbn [geo_body geo_i geo_j geo_k geo_val].
  change ("/_geo_xyz/")%string with ("/" ++ "_geo_xyz/")%string.
  rewrite (string_app_assoc "/" "_geo_xyz/"). reflexivity.
Qed.

Lemma station_lines_body b J wtt last i vs l :
  In l (station_lines b J wtt last i vs) -> geo_body l = b.
Proof.
  unfold station_lines. intros H.
  destruct vs as [|v vs'] eqn:Evs.
  - apply in_flat_map in H as (j & _ & H). simpl in H.
    destruct H as [<-|[<-|[<-|[]]]]; reflexivity.
  - destruct (_ || _); apply in_flat_map in H as (j & _ & H); simpl in H;
      destruct H as [<-|[<-|[<-|[]]]]; reflexivity.
Qed.

Lemma geo_xyz_from_stations_body stations b ti tj wtt l :
  In l (geo_xyz_from_stations stations b ti tj wtt) -> geo_body l = b.
Proof.
  unfold geo_xyz_from_stations. intros H.
  apply in_flat_map in H as (iv & _ & H).
  now apply station_lines_body in H.
Qed.

(** Every line of the block built for body [b] is a line of body [b]. *)
Lemma build_body_block_all_body (b : Z) (stations : list (list vertex))
  (verts : list vertex) (ti tj : Z) (off : Q) :
  Forall (fun l => is_body_line b l = true)
    (build_body_block b stations verts ti tj off).
Proof.
  unfold build_body_block.
  repeat (apply Forall_app; split);
    try (repeat constructor; apply body_line_is_body).
  - unfold generate_geo_xyz_literal_from_stations.
    apply Forall_forall. intros l Hl.
    apply in_map_iff in Hl as (g & <- & Hg).
    destruct (render_geo_line_body g) as [rest ->].
    rewrite (geo_xyz_from_stations_body _ _ _ _ _ _ Hg).
    apply body_line_is_body.
  - unfold locked_lines. apply Forall_forall. intros l Hl.
    apply in_flat_map in Hl as (i & _ & Hl).
    apply in_map_iff in Hl as (j & <- & _). apply body_line_is_body.
Qed.

Lemma other_body_untouched (lines blk : list string) (b b' : Z) :
  Forall (fun l => is_body_line b l = true) blk -> b' <> b ->
  body_block (replace_body_block lines b blk) b' = body_block lines b'.
Proof.
  intros Hblk Hne.
  destruct (replace_body_block_shape b lines blk) as [p ->].
  unfold body_block. rewrite !filter_app.
  rewrite (filter_all_false (is_body_line b') blk).
  2:{ eapply Forall_impl; [|exact Hblk]. intros l Hl.
      destruct (is_body_line b' l) eqn:E; [|reflexivity].
      exfalso. apply Hne. eapply body_prefix_exclusive; eauto. }
  simpl. rewrite <- filter_app, firstn_skipn.
  induction lines as [|l lines IH]; simpl; [reflexivity|].
  destruct (is_body_line b l) eqn:Eb; simpl.
  - destruct (is_body_line b' l) eqn:Eb'; [|exact IH].
    exfalso. apply Hne. eapply body_prefix_exclusive; eauto.
  - destruct (is_body_line b' l); [f_equal|]; exact IH.
Qed.

(** Patching a document with the block built for body [b]: reading body
    [b] back gives the block, and the block of every other body reads as
    before. *)
Theorem patch_with_built_block (lines : list string) (b : Z)
  (stations : list (list vertex)) (verts : list vertex) (ti tj : Z)
  (off : Q) :
  let blk := build_body_block b stations verts ti tj off in
  body_block (replace_body_block lines b blk) b = blk /\
  forall b', b' <> b ->
    body_block (replace_body_block lines b blk) b' = body_block lines b'.
Proof.
  intros blk. split.
  - apply body_block_of_patch, build_body_block_all_body.
  - intros b' Hne. apply other_body_untouched;
      [apply build_body_block_all_body|exact Hne].
Qed.

Lemma patch_with_built_block_witness :
  body_block
    (replace_body_block
       ["PROPERTIES_BEGIN"; "P _body/1/_part_x 5.000000000";
        "P _body/10/_part_x 6.000000000"; "PROPERTIES_END"] 1
       (build_body_block 1 [[(0, 0, 0)%Q]] [(0, 0, 0)%Q] 1 2 0)) 10
  = ["P _body/10/_part_x 6.000000000"].
Proof.
  apply (proj2 (patch_with_built_block
                  ["PROPERTIES_BEGIN"; "P _body/1/_part_x 5.000000000";
                   "P _body/10/_part_x 6.000000000"; "PROPERTIES_END"] 1%Z
                  [[(0, 0, 0)%Q]] [(0, 0, 0)%Q] 1%Z 2%Z 0%Q) 10%Z).
  discriminate.
Defined.

(** ** Printed integers are read back *)

Definition solid (s : string) : Prop :=
  Forall (fun c => PyStr.isspace c = false) (list_ascii_of_string s).

Lemma of_int_solid (n : Z) : solid (PyStr.of_int n).
Proof.
  unfold solid. eapply Forall_impl; [|apply of_int_chars].
  intros c [H| ->]; [|reflexivity].
  unfold is_digit in H. simpl in H.
  repeat (destruct H as [<-|H]; [reflexivity|]). destruct H.
Qed.

Lemma solid_all_space_nil (s : string) : solid s -> all_space s -> s = "".
Proof.
  destruct s as [|c s]; [reflexivity|].
  intros Hs Ha. inversion Hs; inversion Ha; subst. congruence.
Qed.

Lemma solid_app (a b : string) : solid (a ++ b) <-> solid a /\ solid b.
Proof.
  unfold solid. induction a as [|c a IH]; simpl.
  - split; [auto|tauto].
  - split.
    + intros H. inversion H; subst. apply IH in H3 as [? ?]. auto.
    + intros [H Hb]. inversion H; subst. constructor; [assumption|].
      apply IH. auto.
Qed.

Lemma strip_of_solid (s : string) : solid s -> PyStr.strip s = s.
Proof.
  intros Hs. unfold PyStr.strip.
  assert (El : PyStr.lstrip s = s).
  { destruct s as [|c s]; [reflexivity|]. inversion Hs; subst.
    now apply lstrip_solid. }
  rewrite El.
  destruct (rstrip_spec s) as (ws & E & Hws & _).
  assert (Hw : ws = "").
  { apply solid_all_space_nil; [|exact Hws].
    rewrite E in Hs. now apply solid_app in Hs. }
  rewrite Hw, string_app_nil_r in E. now symmetry.
Qed.

Lemma solid_ends_solid (s : string) : s <> "" -> solid s -> ends_solid s.
Proof.
  intros Hne Hs.
  assert (E : exists s' c, s = (s' ++ String c "")%string).
  { clear Hs. induction s as [|c s IH]; [congruence|].
    destruct s as [|c' s].
    - exists "", c. reflexivity.
    - destruct IH as (s' & x & E); [discriminate|].
      exists (String c s'), x. simpl. now rewrite <- E. }
  destruct E as (s' & c & ->). exists s', c. split; [reflexivity|].
  apply solid_app in Hs as [_ Hs]. now inversion Hs.
Qed.

Lemma ends_solid_app (a b : string) : ends_solid b -> ends_solid (a ++ b).
Proof.
  intros (s' & c & -> & Hc). exists (a ++ s')%string, c.
  split; [now rewrite string_app_assoc|exact Hc].
Qed.

Lemma of_int_nonempty (n : Z) : PyStr.of_int n <> "".
Proof.
  unfold PyStr.of_int, NilZero.string_of_int, NilZero.string_of_uint.
  destruct (Z.to_int n) as [d|d]; [|discriminate].
  destruct d; discriminate.
Qed.

(** The value of a decimal numeral read from the left, after [acc]. *)
Fixpoint uint_val (d : Decimal.uint) (acc : Z) : Z :=
  match d with
  | Decimal.Nil => acc
  | Decimal.D0 d => uint_val d (10 * acc)
  | Decimal.D1 d => uint_val d (10 * acc + 1)
  | Decimal.D2 d => uint_val d (10 * acc + 2)
  | Decimal.D3 d => uint_val d (10 * acc + 3)
  | Decimal.D4 d => uint_val d (10 * acc + 4)
  | Decimal.D5 d => uint_val d (10 * acc + 5)
  | Decimal.D6 d => uint_val d (10 * acc + 6)
  | Decimal.D7 d => uint_val d (10 * acc + 7)
  | Decimal.D8 d => uint_val d (10 * acc + 8)
  | Decimal.D9 d => uint_val d (10 * acc + 9)
  end%Z.

Lemma int_digits_uint (d : Decimal.uint) :
  forall acc,
    PyStr.int_digits (NilEmpty.string_of_uint d) acc = Some (uint_val d acc).
Proof.
  induction d; intros acc; simpl; try reflexivity; rewrite IHd;
    do 2 f_equal; lia.
Qed.

Lemma of_uint_acc_val (d : Decimal.uint) :
  forall acc, Zpos (Pos.of_uint_acc d acc) = uint_val d (Zpos acc).
Proof.
  induction d; intros acc; cbn [Pos.of_uint_acc uint_val]; try reflexivity;
    rewrite IHd; f_equal; lia.
Qed.

Lemma of_uint_val (d : Decimal.uint) :
  Z.of_N (Pos.of_uint d) = uint_val d 0.
Proof.
  induction d; simpl; try reflexivity; try exact IHd;
    rewrite of_uint_acc_val; reflexivity.
Qed.

Lemma to_uint_val (p : positive) : uint_val (Pos.to_uint p) 0 = Zpos p.
Proof.
  rewrite <- of_uint_val, DecimalPos.Unsigned.of_to. reflexivity.
Qed.

Lemma int_unsigned_uint (d : Decimal.uint) :
  d <> Decimal.Nil ->
  PyStr.int_unsigned (NilEmpty.string_of_uint d) = Some (uint_val d 0).
Proof.
  destruct d; intros H; try congruence; simpl;
    rewrite int_digits_uint; reflexivity.
Qed.

Lemma string_of_uint_first (d : Decimal.uint) :
  d <> Decimal.Nil ->
  exists c s, NilEmpty.string_of_uint d = String c s /\ is_digit c.
Proof.
  destruct d; intros H; try congruence; simpl; eexists; eexists;
    (split; [reflexivity|unfold is_digit; simpl; tauto]).
Qed.

(** [int(f"{n}") == n] *)
Lemma to_int_of_int (n : Z) : PyStr.to_int (PyStr.of_int n) = Some n.
Proof.
  unfold PyStr.to_int. rewrite strip_of_solid by apply of_int_solid.
  unfold PyStr.of_int. destruct n as [|p|p]; [reflexivity| |].
  - simpl Z.to_int. simpl NilZero.string_of_int.
    pose proof (DecimalPos.Unsigned.to_uint_nonnil p) as Hn.
    pose proof (to_uint_val p) as Hv.
    destruct (Pos.to_uint p) as [|d|d|d|d|d|d|d|d|d|d]; try congruence;
      simpl; rewrite int_digits_uint; f_equal; exact Hv.
  - simpl Z.to_int. simpl NilZero.string_of_int.
    pose proof (DecimalPos.Unsigned.to_uint_nonnil p) as Hn.
    pose proof (to_uint_val p) as Hv.
    destruct (Pos.to_uint p) as [|d|d|d|d|d|d|d|d|d|d]; try congruence;
      simpl; rewrite int_digits_uint; simpl; f_equal;
      simpl in Hv; rewrite Hv; reflexivity.
Qed.

(** ** The dimensions written by the builder are the ones read back *)

Lemma split_ws_solid (t : string) :
  forall cur,
    solid t -> (t <> "" \/ cur <> "") ->
    PyStr.split_ws t cur = [(PyStr.rev_string cur "" ++ t)%string].
Proof.
  induction t as [|c t IH]; intros cur Hs Hne.
  - destruct Hne as [Hne|Hne]; [congruence|].
    simpl. destruct cur; [congruence|]. now rewrite string_app_nil_r.
  - inversion Hs as [|? ? Hc Ht]; subst. cbn [PyStr.split_ws]. rewrite Hc.
    rewrite IH; [|exact Ht|right; discriminate].
    cbn [PyStr.rev_string].
    rewrite (rev_string_acc cur (String c "")), string_app_assoc.
    reflexivity.
Qed.

Lemma split_ws_last (s tok : string) :
  tok <> "" -> solid tok ->
  forall cur,
    exists front,
      PyStr.split_ws (s ++ String " " tok) cur = front ++ [tok].
Proof.
  intros Hne Hs. induction s as [|c s IH]; intros cur.
  - cbn [String.append PyStr.split_ws].
    change (PyStr.isspace " ") with true. cbn iota.
    rewrite (split_ws_solid tok "" Hs (or_introl Hne)).
    destruct cur as [|x cur].
    + exists []. reflexivity.
    + exists [PyStr.rev_string (String x cur) ""]. reflexivity.
  - cbn [String.append PyStr.split_ws].
    destruct (PyStr.isspace c).
    + destruct (IH "") as (front & E). rewrite E.
      destruct cur as [|x cur].
      * exists front. reflexivity.
      * exists (PyStr.rev_string (String x cur) "" :: front). reflexivity.
    + apply IH.
Qed.

Lemma last_token_int_of_int (s : string) (n : Z) :
  last_token_int (s ++ String " " (PyStr.of_int n)) = Some n.
Proof.
  unfold last_token_int, PyStr.split.
  destruct (split_ws_last s (PyStr.of_int n) (of_int_nonempty n)
              (of_int_solid n) "") as (front & ->).
  rewrite rev_app_distr. simpl. apply to_int_of_int.
Qed.

Lemma prefix_app_cancel (a x y : string) :
  String.prefix (a ++ x) (a ++ y) = String.prefix x y.
Proof.
  induction a as [|c a IH]; simpl; [reflexivity|].
  destruct (ascii_dec c c); [exact IH|congruence].
Qed.

Lemma prefix_app_l (a x s : string) :
  String.prefix (a ++ x) s = true -> String.prefix a s = true.
Proof.
  intros H. apply prefix_inv in H as (t & ->).
  rewrite string_app_assoc. apply prefix_app.
Qed.

Lemma body_line_prefix (b : Z) (rest : string) :
  body_line b rest = (body_prefix b ++ rest)%string.
Proof. rewrite body_prefix_app. reflexivity. Qed.

Lemma i_count_prefix_body (b : Z) :
  i_count_prefix b = (body_prefix b ++ "_locked/i_count")%string.
Proof. rewrite body_prefix_app. reflexivity. Qed.

Lemma j_count_prefix_body (b : Z) :
  j_count_prefix b = (body_prefix b ++ "_locked/j_count")%string.
Proof. rewrite body_prefix_app. reflexivity. Qed.

(** A line that sets neither count of body [b]. *)
Definition dims_silent (b : Z) (s : string) : Prop :=
  PyStr.startswith (PyStr.strip s) (i_count_prefix b) = false /\
  PyStr.startswith (PyStr.strip s) (j_count_prefix b) = false.

Lemma other_line_silent (b : Z) (s : string) :
  is_body_line b s = false -> dims_silent b s.
Proof.
  intros H. unfold is_body_line, PyStr.startswith in H.
  split; apply not_true_is_false; intros E;
    apply startswith_strip_lstrip in E; unfold PyStr.startswith in E.
  - rewrite i_count_prefix_body in E. apply prefix_app_l in E. congruence.
  - rewrite j_count_prefix_body in E. apply prefix_app_l in E. congruence.
Qed.

Lemma lstrip_body_line (b : Z) (rest : string) :
  PyStr.lstrip (body_line b rest) = body_line b rest.
Proof. reflexivity. Qed.

Lemma body_line_silent (b : Z) (rest : string) :
  String.prefix "_locked/i_count" rest = false ->
  String.prefix "_locked/j_count" rest = false ->
  dims_silent b (body_line b rest).
Proof.
  intros Hi Hj.
  split; apply not_true_is_false; intros E;
    apply startswith_strip_lstrip in E; unfold PyStr.startswith in E;
    rewrite lstrip_body_line, body_line_prefix in E.
  - rewrite i_count_prefix_body, prefix_app_cancel in E. congruence.
  - rewrite j_count_prefix_body, prefix_app_cancel in E. congruence.
Qed.

Lemma of_int_first (n : Z) :
  exists c s, PyStr.of_int n = String c s /\ (is_digit c \/ c = "-"%char).
Proof.
  pose proof (of_int_chars n) as H. pose proof (of_int_nonempty n) as Hn.
  destruct (PyStr.of_int n) as [|c s]; [congruence|].
  exists c, s. split; [reflexivity|]. now inversion H.
Qed.

Lemma render_geo_line_silent (g : geo_line) :
  dims_silent (geo_body g) (render_geo_line g).
Proof.
  unfold render_geo_line.
  change ("P _body/" ++ PyStr.of_int (geo_body g) ++ "/_geo_xyz/"
            ++ PyStr.of_int (Z.of_nat (geo_i g)) ++ ","
            ++ PyStr.of_int (Z.of_nat (geo_j g)) ++ ","
            ++ PyStr.of_int (Z.of_nat (geo_k g)) ++ " "
            ++ fmt9 (geo_val g))%string
    with (body_line (geo_body g)
            ("_geo_xyz/" ++ PyStr.of_int (Z.of_nat (geo_i g)) ++ ","
               ++ PyStr.of_int (Z.of_nat (geo_j g)) ++ ","
               ++ PyStr.of_int (Z.of_nat (geo_k g)) ++ " "
               ++ fmt9 (geo_val g))).
  apply body_line_silent; reflexivity.
Qed.

Lemma locked_line_silent (b i j : Z) :
  dims_silent b
    (body_line b ("_locked/" ++ PyStr.of_int i ++ "," ++ PyStr.of_int j ++ " 0")).
Proof.
  destruct (of_int_first i) as (c & s & E & Hc).
  apply body_line_silent; rewrite E; cbn [String.append String.prefix];
    repeat match goal with
           | |- context [ascii_dec ?x ?x] =>
               destruct (ascii_dec x x); [|congruence]
           end.
  - destruct (ascii_dec "i" c) as [<-|]; [|reflexivity].
    exfalso. destruct Hc as [Hc|Hc]; [|discriminate].
    unfold is_digit in Hc. simpl in Hc.
    repeat (destruct Hc as [Hc|Hc]; [discriminate|]). destruct Hc.
  - destruct (ascii_dec "j" c) as [<-|]; [|reflexivity].
    exfalso. destruct Hc as [Hc|Hc]; [|discriminate].
    unfold is_digit in Hc. simpl in Hc.
    repeat (destruct Hc as [Hc|Hc]; [discriminate|]). destruct Hc.
Qed.

Lemma read_dims_loop_skip (b : Z) (pre rest : list string)
  (i j : option Z) :
  Forall (dims_silent b) pre -> i = None \/ j = None ->
  read_dims_loop (i_count_prefix b) (j_count_prefix b) (pre ++ rest) i j =
  read_dims_loop (i_count_prefix b) (j_count_prefix b) rest i j.
Proof.
  intros Hpre Hij. induction Hpre as [|s pre [Hi Hj] _ IH]; [reflexivity|].
  cbn [app read_dims_loop]. rewrite Hi, Hj.
  destruct i, j; try exact IH. destruct Hij; discriminate.
Qed.

Lemma count_line_strip (b : Z) (key : string) (n : Z) :
  PyStr.strip (body_line b (key ++ String " " (PyStr.of_int n))) =
  body_line b (key ++ String " " (PyStr.of_int n)).
Proof.
  unfold body_line. cbn [String.append].
  apply strip_solid; [reflexivity|].
  change (String "P" (String " " (String "_" (String "b" (String "o"
            (String "d" (String "y" (String "/"
               (PyStr.of_int b ++ String "/"
                  (key ++ String " " (PyStr.of_int n)))))))))))
    with ("P _body/" ++ (PyStr.of_int b ++ String "/"
            (key ++ String " " (PyStr.of_int n))))%string.
  apply ends_solid_app.
  change (String "/" (key ++ String " " (PyStr.of_int n)))
    with ("/" ++ (key ++ (" " ++ PyStr.of_int n)))%string.
  do 4 apply ends_solid_app.
  apply solid_ends_solid; [apply of_int_nonempty|apply of_int_solid].
Qed.

Lemma count_line_value (b : Z) (key : string) (n : Z) :
  last_token_int (body_line b (key ++ String " " (PyStr.of_int n))) = Some n.
Proof.
  unfold body_line.
  replace ("P _body/" ++ PyStr.of_int b ++ "/"
             ++ key ++ String " " (PyStr.of_int n))%string
    with (("P _body/" ++ PyStr.of_int b ++ "/" ++ key)
            ++ String " " (PyStr.of_int n))%string.
  - apply last_token_int_of_int.
  - now rewrite !string_app_assoc.
Qed.

Lemma read_dims_loop_found (b ti tj : Z) (pre rest : list string) :
  Forall (dims_silent b) pre ->
  read_dims_loop (i_count_prefix b) (j_count_prefix b)
    (pre
       ++ body_line b ("_locked/i_count " ++ PyStr.of_int ti)
       :: body_line b ("_locked/j_count " ++ PyStr.of_int tj) :: rest)
    None None = (Some ti, Some tj).
Proof.
  intros Hpre. rewrite read_dims_loop_skip by auto.
  change ("_locked/i_count " ++ PyStr.of_int ti)%string
    with ("_locked/i_count" ++ String " " (PyStr.of_int ti))%string.
  change ("_locked/j_count " ++ PyStr.of_int tj)%string
    with ("_locked/j_count" ++ String " " (PyStr.of_int tj))%string.
  cbn [read_dims_loop].
  rewrite !count_line_strip, !count_line_value.
  unfold PyStr.startswith.
  rewrite !body_line_prefix, i_count_prefix_body, j_count_prefix_body,
    !prefix_app_cancel.
  reflexivity.
Qed.

Lemma build_body_block_counts (b : Z) (stations : list (list vertex))
  (verts : list vertex) (ti tj : Z) (off : Q) :
  exists pre rest,
    build_body_block b stations verts ti tj off =
    pre
      ++ body_line b ("_locked/i_count " ++ PyStr.of_int ti)
      :: body_line b ("_locked/j_count " ++ PyStr.of_int tj) :: rest /\
    Forall (dims_silent b) pre.
Proof.
  unfold build_body_block.
  set (hdr := [body_line b "_bot_s1 0.000000000"; _; _; _; _; _]).
  set (geo := generate_geo_xyz_literal_from_stations _ _ _ _ _).
  set (lk := locked_lines _ _ _).
  exists (hdr ++ geo ++ lk). eexists. split.
  - rewrite <- (app_assoc hdr), <- (app_assoc geo). reflexivity.
  - subst hdr geo lk. apply Forall_app; split; [|apply Forall_app; split].
    + repeat (apply Forall_cons; [apply body_line_silent; reflexivity|]).
      apply Forall_nil.
    + unfold generate_geo_xyz_literal_from_stations.
      apply Forall_forall. intros l Hl.
      apply in_map_iff in Hl as (g & <- & Hg).
      apply geo_xyz_from_stations_body in Hg. rewrite <- Hg.
      apply render_geo_line_silent.
    + unfold locked_lines. apply Forall_forall. intros l Hl.
      apply in_flat_map in Hl as (i & _ & Hl).
      apply in_map_iff in Hl as (j & <- & _).
      apply locked_line_silent.
Qed.

Lemma dims_after_patch (lines : list string) (b : Z)
  (stations : list (list vertex)) (verts : list vertex) (ti tj : Z)
  (off : Q) :
  read_target_dims_from_acf
    (replace_body_block lines b (build_body_block b stations verts ti tj off))
    b = (ti, tj).
Proof.
  destruct (replace_body_block_shape b lines
              (build_body_block b stations verts ti tj off)) as (p & ->).
  destruct (build_body_block_counts b stations verts ti tj off)
    as (pre & rest & -> & Hpre).
  unfold read_target_dims_from_acf.
  rewrite <- app_assoc. cbn [app]. rewrite app_assoc.
  rewrite read_dims_loop_found; [reflexivity|].
  apply Forall_app. split; [|exact Hpre].
  apply Forall_forall. intros l Hl. apply in_firstn_in in Hl.
  apply filter_In in Hl as [_ Hl]. apply other_line_silent.
  now apply negb_true_iff in Hl.
Qed.

(** After body [b]'s block is replaced by a freshly built one, the
    dimension reader returns the [target_i] and [target_j] the block was
    built with, whatever else the document holds. *)
Theorem built_dims_read_back (lines : list string) (b : Z)
  (stations : list (list vertex)) (verts : list vertex) (ti tj : Z)
  (off : Q) :
  read_target_dims_from_acf
    (replace_body_block lines b (build_body_block b stations verts ti tj off))
    b = (ti, tj).
Proof. apply dims_after_patch. Qed.

(** ** Geometry emission: the grid is mirrored for an even column count *)

(** The cells of column [J - 1 - j] mirror those of column [j]. *)
Definition cells_mirrored (J : nat) (cell : cell_dict) : Prop :=
  forall j, j < J ->
    cell_get cell (J - 1 - j) 0 = (- cell_get cell j 0)%Q /\
    cell_get cell (J - 1 - j) 1 = cell_get cell j 1 /\
    cell_get cell (J - 1 - j) 2 = cell_get cell j 2.

Lemma Qopp_opp_eq (q : Q) : (- - q)%Q = q.
Proof. destruct q as [n d]. unfold Qopp. simpl. now rewrite Z.opp_involutive. Qed.

Lemma cell_get_set (cell : cell_dict) (j' k' j k : nat) (v : Q) :
  cell_get (cell_set cell j' k' v) j k =
  if ((j' =? j) && (k' =? k))%nat then v else cell_get cell j k.
Proof. reflexivity. Qed.

Lemma cells_mirrored_step (h : nat) (cell : cell_dict) (jr : nat) (x y z : Q) :
  jr < h ->
  cells_mirrored (2 * h) cell ->
  cells_mirrored (2 * h)
    (cell_set
       (cell_set
          (cell_set
             (cell_set (cell_set (cell_set cell jr 0 x) jr 1 y) jr 2 z)
             (2 * h - 1 - jr) 0 (- x)%Q)
          (2 * h - 1 - jr) 1 y)
       (2 * h - 1 - jr) 2 z).
Proof.
  intros Hjr Hc j Hj. rewrite !cell_get_set.
  destruct (Hc j Hj) as (H0 & H1 & H2).
  destruct (Nat.eq_dec j jr) as [->|Hne1].
  - replace (2 * h - 1 - jr =? jr)%nat with false
      by (symmetry; apply Nat.eqb_neq; lia).
    rewrite !Nat.eqb_refl. simpl. auto.
  - destruct (Nat.eq_dec j (2 * h - 1 - jr)) as [->|Hne2].
    + replace (2 * h - 1 - (2 * h - 1 - jr)) with jr by lia.
      replace (2 * h - 1 - jr =? jr)%nat with false
        by (symmetry; apply Nat.eqb_neq; lia).
      rewrite !Nat.eqb_refl. simpl. rewrite Qopp_opp_eq. auto.
    + replace (2 * h - 1 - jr =? 2 * h - 1 - j)%nat with false
        by (symmetry; apply Nat.eqb_neq; lia).
      replace (jr =? 2 * h - 1 - j)%nat with false
        by (symmetry; apply Nat.eqb_neq; lia).
      replace (2 * h - 1 - jr =? j)%nat with false
        by (symmetry; apply Nat.eqb_neq; lia).
      replace (jr =? j)%nat with false by (symmetry; apply Nat.eqb_neq; lia).
      simpl. auto.
Qed.

Lemma fill_cells_mirrored (h : nat) (pos_sorted : list vertex) :
  0 < h ->
  forall idx cell,
    cells_mirrored (2 * h) cell ->
    cells_mirrored (2 * h)
      (fill_cells (seq 0 h) (rev (seq h (2 * h - h))) pos_sorted idx cell).
Proof.
  intros Hh. induction pos_sorted as [|v rest IH]; intros idx cell Hc;
    [exact Hc|].
  cbn [fill_cells]. apply IH.
  rewrite length_rev, !length_seq.
  replace (2 * h - h) with h by lia.
  replace (Nat.max 1 h) with h by lia.
  assert (Hm : idx mod h < h) by (apply Nat.mod_upper_bound; lia).
  rewrite seq_nth by exact Hm.
  rewrite rev_nth by (rewrite length_seq; exact Hm).
  rewrite length_seq, seq_nth by lia.
  replace (h + (h - S (idx mod h))) with (2 * h - 1 - (0 + idx mod h)) by lia.
  apply cells_mirrored_step; [simpl; exact Hm|exact Hc].
Qed.

Lemma in_slots (b : Z) (i J : nat) (X Y Z' : nat -> Q) (g : geo_line) :
  In g (flat_map (fun j => slot_lines b i j (X j) (Y j) (Z' j)) (seq 0 J)) <->
  exists j, j < J /\
    (g = GeoLine b i j 0 (X j) \/ g = GeoLine b i j 1 (Y j) \/
     g = GeoLine b i j 2 (Z' j)).
Proof.
  rewrite in_flat_map. split.
  - intros (j & Hj & Hg). apply in_seq in Hj. exists j. split; [lia|].
    simpl in Hg. destruct Hg as [<-|[<-|[<-|[]]]]; auto.
  - intros (j & Hj & Hg). exists j. split; [apply in_seq; lia|].
    simpl. destruct Hg as [->|[->| ->]]; auto.
Qed.

(** The mirror image of a line in a grid of [J] columns. *)
Definition mirror_line (J : nat) (g : geo_line) : geo_line :=
  GeoLine (geo_body g) (geo_i g) (J - 1 - geo_j g) (geo_k g)
    (if (geo_k g =? 0)%nat then (- geo_val g)%Q else geo_val g).

Lemma slots_mirrored (b : Z) (i h : nat) (X Y Z' : nat -> Q) (g : geo_line) :
  (forall j, j < 2 * h ->
     X (2 * h - 1 - j) = (- X j)%Q /\ Y (2 * h - 1 - j) = Y j /\
     Z' (2 * h - 1 - j) = Z' j) ->
  In g (flat_map (fun j => slot_lines b i j (X j) (Y j) (Z' j))
          (seq 0 (2 * h))) ->
  In (mirror_line (2 * h) g)
    (flat_map (fun j => slot_lines b i j (X j) (Y j) (Z' j)) (seq 0 (2 * h))).
Proof.
  intros Hm Hg. apply in_slots in Hg as (j & Hj & Hg). apply in_slots.
  exists (2 * h - 1 - j). split; [lia|].
  destruct (Hm j Hj) as (H0 & H1 & H2). rewrite H0, H1, H2.
  destruct Hg as [->|[->| ->]]; unfold mirror_line; simpl; auto.
Qed.

Lemma station_lines_mirrored (b : Z) (h : nat) (wtt : bool) (last_idx : Z)
  (i : nat) (vs : list vertex) (g : geo_line) :
  0 < h ->
  In g (station_lines b (2 * h) wtt last_idx i vs) ->
  In (mirror_line (2 * h) g) (station_lines b (2 * h) wtt last_idx i vs).
Proof.
  intros Hh. unfold station_lines.
  destruct vs as [|v vs'].
  - apply (slots_mirrored b i h (fun _ => 0%Q) (fun _ => 0%Q) (fun _ => 0%Q)).
    intros; auto.
  - destruct (_ || _).
    + apply (slots_mirrored b i h (fun _ => 0%Q)
               (fun _ => (mean_or_zero (map vy (v :: vs')) * FT_PER_M)%Q)
               (fun _ => (mean_or_zero (map vz (v :: vs')) * FT_PER_M)%Q)).
      intros; auto.
    + replace (2 * h / 2) with h by (rewrite Nat.mul_comm, Nat.div_mul; lia).
      set (cell := fill_cells _ _ _ _ _).
      apply (slots_mirrored b i h (fun j => cell_get cell j 0)
               (fun j => cell_get cell j 1) (fun j => cell_get cell j 2)).
      subst cell. apply fill_cells_mirrored; [exact Hh|].
      intros j _. auto.
Qed.

(** For an even number of columns [J = max(2, target_j)], the emitted grid
    is symmetric about the plane [x = 0]: with every line for cell
    [(i, j, k)] comes the line for [(i, J - 1 - j, k)] holding the opposite
    value when [k] is the x axis and the same value otherwise. *)
Theorem geo_grid_mirrored (stations_mesh : list (list vertex))
  (body_index target_i target_j : Z) (with_tip_tail : bool) (g : geo_line) :
  Nat.even (Z.to_nat (Z.max 2 target_j)) = true ->
  In g (geo_xyz_from_stations stations_mesh body_index target_i target_j
          with_tip_tail) ->
  In (mirror_line (Z.to_nat (Z.max 2 target_j)) g)
    (geo_xyz_from_stations stations_mesh body_index target_i target_j
       with_tip_tail).
Proof.
  intros Hev Hg. unfold geo_xyz_from_stations in *.
  apply Nat.even_spec in Hev as [h Hh].
  assert (Hpos : 0 < h) by lia.
  rewrite Hh in *.
  apply in_flat_map in Hg as (iv & Hiv & Hg). apply in_flat_map.
  exists iv. split; [exact Hiv|].
  now apply station_lines_mirrored.
Qed.

Lemma geo_grid_mirrored_witness :
  In (GeoLine 3 1 2 0 (- (2 * FT_PER_M))%Q)
    (geo_xyz_from_stations
       [[(0, 0, 0)%Q]; [(2, 1, 5)%Q; (1, 3, 5)%Q]; [(0, 0, 9)%Q]] 3 3 4 true).
Proof.
  apply (geo_grid_mirrored
           [[(0, 0, 0)%Q]; [(2, 1, 5)%Q; (1, 3, 5)%Q]; [(0, 0, 9)%Q]]
           3%Z 3%Z 4%Z true (GeoLine 3 1 1 0 (2 * FT_PER_M)%Q)).
  - reflexivity.
  - vm_compute. repeat first [left; reflexivity | right].
Defined.

(** ** Stationing: the stations are consecutive chunks of the sorted list *)

Lemma clamp_neg (len : nat) (k : Z) :
  (k < 0)%Z -> (0 <= k + Z.of_nat len)%Z ->
  PyList.clamp len k = Z.to_nat (k + Z.of_nat len).
Proof.
  intros H1 H2. unfold PyList.clamp.
  replace (k <? 0)%Z with true by (symmetry; apply Z.ltb_lt; lia).
  lia.
Qed.

Lemma slice_chunk {A : Type} (l : list A) (off vpl : Z) :
  (0 <= off)%Z -> (0 < vpl)%Z -> (off < Z.of_nat (length l))%Z ->
  let chunk := PyList.slice l off (off + vpl) in
  (chunk ++ skipn (Z.to_nat (off + vpl)) l = skipn (Z.to_nat off) l) /\
  1 <= length chunk <= Z.to_nat vpl.
Proof.
  intros H0 Hv Hlt chunk. subst chunk. unfold PyList.slice.
  rewrite !clamp_nonneg by lia.
  replace (Nat.min (length l) (Z.to_nat off)) with (Z.to_nat off) by lia.
  set (a := Z.to_nat off).
  set (k := Nat.min (length l) (Z.to_nat (off + vpl)) - a).
  assert (Hk : 1 <= k <= Z.to_nat vpl) by (subst k a; lia).
  assert (Hlen : length (firstn k (skipn a l)) = k).
  { rewrite length_firstn, length_skipn. subst k a. lia. }
  split; [|now rewrite Hlen].
  rewrite <- (firstn_skipn k (skipn a l)) at 2. f_equal.
  rewrite skipn_skipn.
  destruct (Nat.le_gt_cases (length l) (Z.to_nat (off + vpl))) as [Hge|Hlt'].
  - rewrite !skipn_all2 by (subst k a; lia). reflexivity.
  - f_equal. subst k a. lia.
Qed.

Lemma station_loop_chunks (middle : list vertex) (vpl : Z) :
  (0 < vpl)%Z ->
  forall fuel off mids,
    (0 <= off)%Z ->
    station_loop fuel middle vpl off = Some mids ->
    concat mids = skipn (Z.to_nat off) middle /\
    Forall (fun s => 1 <= length s <= Z.to_nat vpl) mids.
Proof.
  intros Hv. induction fuel as [|fuel IH]; intros off mids H0 H;
    cbn [station_loop] in H;
    destruct (off <? Z.of_nat (length middle))%Z eqn:E;
    try discriminate.
  - injection H as <-. apply Z.ltb_ge in E.
    rewrite skipn_all2 by lia. split; [reflexivity|constructor].
  - destruct (station_loop fuel middle vpl (off + vpl)) as [more|] eqn:Em;
      [|discriminate].
    injection H as <-. apply Z.ltb_lt in E.
    destruct (IH (off + vpl)%Z more ltac:(lia) Em) as [Hc Hf].
    destruct (slice_chunk middle off vpl H0 Hv E) as [Hs Hl].
    split.
    + cbn [concat]. rewrite Hc. exact Hs.
    + constructor; assumption.
  - injection H as <-. apply Z.ltb_ge in E.
    rewrite skipn_all2 by lia. split; [reflexivity|constructor].
Qed.

Lemma sorted_split {A : Type} (s : list A) :
  3 <= length s ->
  exists tip tail,
    firstn 1 s = [tip] /\
    PyList.slice s (-1) (Z.of_nat (length s)) = [tail] /\
    s = tip :: PyList.slice s 1 (-1) ++ [tail].
Proof.
  intros Hn. unfold PyList.slice.
  rewrite (clamp_neg (length s) (-1)) by lia.
  rewrite !clamp_nonneg by lia.
  replace (Z.to_nat (-1 + Z.of_nat (length s))) with (length s - 1) by lia.
  replace (Nat.min (length s) (Z.to_nat (Z.of_nat (length s)))) with (length s)
    by lia.
  replace (Nat.min (length s) (Z.to_nat 1)) with 1 by lia.
  replace (length s - (length s - 1)) with 1 by lia.
  destruct s as [|tip s']; [simpl in Hn; lia|].
  assert (Hlast : exists tail, skipn (length (tip :: s') - 1) (tip :: s') = [tail]).
  { destruct (exists_last (l := tip :: s') ltac:(discriminate)) as (l' & y & E).
    exists y. rewrite E, length_app. simpl length.
    replace (length l' + 1 - 1) with (length l') by lia.
    now rewrite skipn_app, skipn_all, Nat.sub_diag. }
  destruct Hlast as [tail Ht]. exists tip, tail.
  rewrite Ht. repeat split.
  change (skipn 1 (tip :: s')) with s'. f_equal.
  rewrite <- (firstn_skipn (length (tip :: s') - 1 - 1) s') at 1. f_equal.
  simpl length in *.
  replace (S (length s') - 1) with (S (length s' - 1)) in Ht by lia.
  cbn [skipn] in Ht. rewrite <- Ht. f_equal. lia.
Qed.

(** With a positive [verts_per_loop] and a mesh too large for a single
    station, the stations are consecutive chunks of the z-sorted vertex
    list: the lowest vertex alone, then chunks of one to [verts_per_loop]
    vertices, then the highest vertex alone.  Nothing is lost or repeated
    with the tip and the tail; without them the lowest and the highest
    vertex are in no station. *)
Theorem stations_are_sorted_chunks (verts : list vertex) (vpl : Z)
  (wtt : bool) :
  (0 < vpl)%Z ->
  (vpl + 2 <= Z.of_nat (length verts))%Z ->
  exists tip mids tail,
    PyList.sorted_key vz verts = tip :: concat mids ++ [tail] /\
    build_stations_from_geometry verts vpl wtt =
      Some ((if wtt then [[tip]] else []) ++ mids
              ++ (if wtt then [[tail]] else [])) /\
    Forall (fun s => 1 <= length s <= Z.to_nat vpl) mids.
Proof.
  intros Hv Hn.
  pose proof (Permutation_length (sorted_key_perm vz verts)) as Hlen.
  unfold build_stations_from_geometry.
  destruct verts as [|v0 vs]; [simpl in Hn; lia|].
  set (s := PyList.sorted_key vz (v0 :: vs)) in *.
  replace (Z.of_nat (length s) <? 1 + vpl + 1)%Z with false
    by (symmetry; apply Z.ltb_ge; lia).
  destruct (sorted_split s ltac:(lia)) as (tip & tail & Htip & Htail & Hs).
  rewrite Htip, Htail.
  set (middle := PyList.slice s 1 (-1)) in *.
  destruct (station_loop_total middle vpl Hv (length middle) 0%Z ltac:(lia))
    as [mids Hm].
  rewrite Hm.
  destruct (station_loop_chunks middle vpl Hv (length middle) 0%Z mids
              ltac:(lia) Hm) as [Hc Hf].
  exists tip, mids, tail. repeat split; [|exact Hf].
  rewrite Hc. exact Hs.
Qed.

Lemma stations_are_sorted_chunks_witness :
  exists tip mids tail,
    PyList.sorted_key vz
      [(0, 0, 4)%Q; (1, 0, 0)%Q; (0, 1, 2)%Q; (0, 0, 1)%Q; (1, 1, 3)%Q]
    = tip :: concat mids ++ [tail] /\
    build_stations_from_geometry
      [(0, 0, 4)%Q; (1, 0, 0)%Q; (0, 1, 2)%Q; (0, 0, 1)%Q; (1, 1, 3)%Q] 2 true
    = Some ([[tip]] ++ mids ++ [[tail]]) /\
    Forall (fun s => 1 <= length s <= Z.to_nat 2) mids.
Proof.
  apply (stations_are_sorted_chunks
           [(0, 0, 4)%Q; (1, 0, 0)%Q; (0, 1, 2)%Q; (0, 0, 1)%Q; (1, 1, 3)%Q]
           2%Z true).
  - lia.
  - simpl. lia.
Defined.

Lemma station_loop_stuck (middle : list vertex) (vpl : Z) (fuel : nat) :
  (vpl <= 0)%Z -> middle <> [] ->
  station_loop fuel middle vpl 0 = None.
Proof.
  intros Hv Hm.
  assert (H : forall off, (off <= 0)%Z ->
                station_loop fuel middle vpl off = None).
  { induction fuel as [|fuel IH]; intros off Ho; cbn [station_loop];
      replace (off <? Z.of_nat (length middle))%Z with true
        by (symmetry; apply Z.ltb_lt; destruct middle;
            [congruence|simpl length; lia]).
    - reflexivity.
    - rewrite IH by lia. reflexivity. }
  apply H. lia.
Qed.

(** With [verts_per_loop] zero or negative and at least three vertices, the
    stationing does not return: the offset of its [while] loop never passes
    the end of the middle list, however many rounds the loop is given. *)
Theorem stationing_never_ends (verts : list vertex) (vpl : Z) (wtt : bool) :
  (vpl <= 0)%Z -> 3 <= length verts ->
  (forall fuel,
     station_loop fuel (PyList.slice (PyList.sorted_key vz verts) 1 (-1))
       vpl 0 = None) /\
  build_stations_from_geometry verts vpl wtt = None.
Proof.
  intros Hv Hn.
  pose proof (Permutation_length (sorted_key_perm vz verts)) as Hlen.
  assert (Hm : PyList.slice (PyList.sorted_key vz verts) 1 (-1) <> []).
  { destruct (sorted_split (PyList.sorted_key vz verts) ltac:(lia))
      as (tip & tail & _ & _ & Hs).
    intros E. rewrite E in Hs. apply (f_equal (@length vertex)) in Hs.
    simpl in Hs. lia. }
  split; [intros fuel; now apply station_loop_stuck|].
  unfold build_stations_from_geometry.
  destruct verts as [|v0 vs]; [simpl in Hn; lia|].
  replace (Z.of_nat (length (PyList.sorted_key vz (v0 :: vs))) <? 1 + vpl + 1)%Z
    with false by (symmetry; apply Z.ltb_ge; lia).
  now rewrite station_loop_stuck.
Qed.

Lemma stationing_never_ends_witness :
  build_stations_from_geometry
    [(0, 0, 4)%Q; (1, 0, 0)%Q; (0, 1, 2)%Q] 0 true = None.
Proof.
  apply (stationing_never_ends
           [(0, 0, 4)%Q; (1, 0, 0)%Q; (0, 1, 2)%Q] 0%Z true).
  - lia.
  - simpl. lia.
Defined.

(** ** Topology: the shape of the station groups *)

Lemma dist_get_bucket (dist : dist_dict) (v d : nat) :
  dist_get dist v = Some d -> In v (bucket dist d).
Proof.
  unfold bucket. induction dist as [|[k d'] dist IH]; simpl; [discriminate|].
  destruct (Nat.eqb_spec k v) as [->|Hk].
  - intros [= ->]. rewrite Nat.eqb_refl. simpl. auto.
  - intros H. destruct (d' =? d)%nat; simpl; auto.
Qed.

Lemma mid_stations_sizes (dist : dist_dict) (tail_d : nat)
  (d_values : list nat) :
  forall mids,
    mid_stations dist tail_d d_values = Ok mids ->
    Forall (fun ring => 8 <= length ring <= 16) mids.
Proof.
  induction d_values as [|d rest IH]; intros mids H; cbn [mid_stations] in H.
  - injection H as <-. constructor.
  - destruct ((d =? 0) || (d =? tail_d))%nat; [now apply IH|].
    destruct (length (bucket dist d) =? 0)%nat; [now apply IH|].
    destruct ((8 <=? length (bucket dist d))
              && (length (bucket dist d) <=? 16))%nat eqn:E;
      cbn [negb] in H; [|discriminate].
    destruct (mid_stations dist tail_d rest) as [more|] eqn:Em;
      cbn [bind] in H; [|discriminate].
    injection H as <-. constructor; [|now apply IH].
    apply andb_true_iff in E as [E1 E2].
    apply Nat.leb_le in E1, E2. lia.
Qed.

Lemma station_groups_shape_core (verts_m : list vertex)
  (neighbors : list (list nat)) (max_stations : nat)
  (stations : list (list nat)) :
  build_station_vertex_groups verts_m neighbors max_stations = Ok stations ->
  exists nose mids tail,
    stations = [nose] :: mids ++ [[tail]] /\
    argmin (map vz verts_m) = Ok nose /\
    argmax (map vz verts_m) = Ok tail /\
    Forall (fun ring => 8 <= length ring <= 16) mids /\
    length stations <= max_stations.
Proof.
  unfold build_station_vertex_groups, compute_topological_layers.
  destruct (argmin (map vz verts_m)) as [nose|] eqn:En;
    cbn [bind]; [|discriminate].
  destruct (argmax (map vz verts_m)) as [tail|] eqn:Et;
    cbn [bind]; [|discriminate].
  destruct (bfs_loop _ _ _ _) as [[dist|]|]; cbn [bind]; try discriminate.
  destruct (d_values_of dist) as [|d0 ds] eqn:Ed; cbn [bind];
    [discriminate|].
  destruct (negb (d0 =? 0)%nat); [discriminate|].
  destruct (dist_get dist tail) as [tail_d|] eqn:Eg; [|discriminate].
  destruct (mid_stations dist tail_d (d0 :: ds)) as [mids|] eqn:Em;
    cbn [bind]; [|discriminate].
  destruct (length (bucket dist tail_d) =? 1)%nat eqn:El; cbn [negb];
    [|discriminate].
  destruct (max_stations <? _)%nat eqn:Emax; [discriminate|].
  intros [= <-].
  apply Nat.eqb_eq in El. apply Nat.ltb_ge in Emax.
  apply dist_get_bucket in Eg.
  destruct (bucket dist tail_d) as [|t [|t' l]]; simpl in El; try lia.
  destruct Eg as [->|[]].
  exists nose, mids, tail. repeat split.
  - eapply mid_stations_sizes, Em.
  - exact Emax.
Qed.

(** When [build_station_vertex_groups] returns, the groups are: the nose
    (the first vertex of least z) alone, then layers of 8 to 16 vertices,
    then the tail (the first vertex of greatest z) alone; there are at most
    [max_stations] of them. *)
Theorem station_groups_shape (verts_m : list vertex)
  (neighbors : list (list nat)) (max_stations : nat)
  (stations : list (list nat)) :
  build_station_vertex_groups verts_m neighbors max_stations = Ok stations ->
  exists nose mids tail,
    stations = [nose] :: mids ++ [[tail]] /\
    argmin (map vz verts_m) = Ok nose /\
    argmax (map vz verts_m) = Ok tail /\
    Forall (fun ring => 8 <= length ring <= 16) mids /\
    length stations <= max_stations.
Proof. apply station_groups_shape_core. Qed.

(** A cone-shaped mesh: a nose, one ring of eight vertices and a tail. *)
Definition spindle_verts : list vertex :=
  [(0, 0, 0)%Q;
   (0, 2, 1)%Q; (1, 1, 1)%Q; (2, 0, 1)%Q; (1, -1, 1)%Q;
   (0, -2, 1)%Q; (-1, -1, 1)%Q; (-2, 0, 1)%Q; (-1, 1, 1)%Q;
   (0, 0, 2)%Q].

Definition spindle_faces : list (list nat) :=
  [[0; 1; 2]; [0; 2; 3]; [0; 3; 4]; [0; 4; 5];
   [0; 5; 6]; [0; 6; 7]; [0; 7; 8]; [0; 8; 1];
   [9; 1; 2]; [9; 2; 3]; [9; 3; 4]; [9; 4; 5];
   [9; 5; 6]; [9; 6; 7]; [9; 7; 8]; [9; 8; 1]].

Definition spindle_neighbors : list (list nat) :=
  [[1; 2; 3; 4; 5; 6; 7; 8]; [0; 2; 8; 9]; [1; 0; 3; 9]; [2; 0; 4; 9];
   [3; 0; 5; 9]; [4; 0; 6; 9]; [5; 0; 7; 9]; [6; 0; 8; 9]; [7; 0; 1; 9];
   [1; 2; 3; 4; 5; 6; 7; 8]].

Lemma station_groups_shape_witness :
  exists nose mids tail,
    [[0]; [1; 2; 3; 4; 5; 6; 7; 8]; [9]] = [nose] :: mids ++ [[tail]] /\
    argmin (map vz spindle_verts) = Ok nose /\
    argmax (map vz spindle_verts) = Ok tail /\
    Forall (fun ring => 8 <= length ring <= 16) mids /\
    length [[0]; [1; 2; 3; 4; 5; 6; 7; 8]; [9]] <= 20.
Proof.
  apply (station_groups_shape spindle_verts spindle_neighbors 20
           [[0]; [1; 2; 3; 4; 5; 6; 7; 8]; [9]]).
  vm_compute. reflexivity.
Defined.

(** ** Rings: eighteen mirrored slots, at most twenty rings *)

(** A ring of 18 slots whose slot [9 + j] mirrors slot [j]. *)
Definition ring_ok (ring : list vertex) : Prop :=
  length ring = 18 /\
  forall j, j < 9 -> nth (9 + j) ring origin = mirror (nth j ring origin).

Lemma tip_ring_ok (v : vertex) : ring_ok (tip_ring v).
Proof.
  unfold ring_ok, tip_ring. split; [apply repeat_length|].
  intros j Hj.
  rewrite !nth_repeat_lt by lia. reflexivity.
Qed.

Lemma mirrored_halves_ok (left : list vertex) :
  length left = 9 -> ring_ok (left ++ map mirror left).
Proof.
  intros Hl. split.
  - rewrite length_app, length_map. lia.
  - intros j Hj.
    rewrite app_nth2 by lia. rewrite app_nth1 by lia.
    replace (9 + j - length left) with j by lia.
    rewrite (nth_indep _ origin (mirror origin))
      by (rewrite length_map; lia).
    apply map_nth.
Qed.

Section RingShape.

Variable atan2 : Q -> Q -> Q.
Variable list_of_set : list nat -> list nat.

Lemma mid_ring_ok (station_verts_m : list vertex) (ring : list vertex)
  (n_half : nat) :
  mid_ring atan2 station_verts_m = Ok (ring, n_half) ->
  ring_ok ring /\ 5 <= n_half <= 9.
Proof.
  unfold mid_ring.
  set (n := length (filter _ station_verts_m)).
  destruct ((5 <=? n) && (n <=? 9))%nat eqn:E; cbn [negb]; [|discriminate].
  set (left := left_ring_of _). intros H.
  assert (Hr : ring = left ++ map mirror left) by congruence.
  assert (Hn : n_half = n) by congruence.
  subst ring n_half. split.
  - apply mirrored_halves_ok, left_ring_length.
  - apply andb_true_iff in E as [E1 E2]. apply Nat.leb_le in E1, E2. lia.
Qed.

Lemma rings_loop_ok (verts_local : list vertex) (groups : list (list nat)) :
  forall h0 rings h,
    rings_loop atan2 verts_local groups h0 = Ok (rings, h) ->
    length rings = length groups /\ Forall ring_ok rings /\
    h <= Nat.max h0 9.
Proof.
  induction groups as [|station rest IH]; intros h0 rings h H.
  - injection H as <- <-. repeat split; [constructor|lia].
  - cbn [rings_loop] in H.
    assert (Hmid :
      (station_verts_m <-
         fold_right
           (fun idx acc =>
              match nth_error verts_local idx with
              | None => Raise IndexError
              | Some v => vs <- acc ;; Ok (v :: vs)
              end)
           (Ok []) station ;;
       ' (ring, n_half) <- mid_ring atan2 station_verts_m ;;
       ' (rings, h) <-
         rings_loop atan2 verts_local rest (Nat.max h0 n_half) ;;
       Ok (ring :: rings, h)) = Ok (rings, h) ->
      length rings = length (station :: rest) /\ Forall ring_ok rings /\
      h <= Nat.max h0 9).
    { clear H. intros H.
      destruct (fold_right _ _ station) as [vs|]; cbn [bind] in H;
        [|discriminate].
      destruct (mid_ring atan2 vs) as [[ring n_half]|] eqn:Er;
        cbn [bind] in H; [|discriminate].
      destruct (rings_loop atan2 verts_local rest (Nat.max h0 n_half))
        as [[rings' h']|] eqn:El; cbn [bind] in H; [|discriminate].
      injection H as <- <-.
      apply mid_ring_ok in Er as [Hr Hn].
      apply IH in El as (Hl & Hf & Hh).
      repeat split; [simpl; lia|constructor; assumption|lia]. }
    destruct station as [|idx [|idx' station']]; try (apply Hmid; exact H).
    destruct (nth_error verts_local idx) as [v|]; [|discriminate].
    destruct (rings_loop atan2 verts_local rest h0) as [[rings' h']|] eqn:El;
      cbn [bind] in H; [|discriminate].
    injection H as <- <-.
    apply IH in El as (Hl & Hf & Hh).
    repeat split; [simpl; lia|constructor; [apply tip_ring_ok|assumption]|lia].
Qed.

(** When [build_pm_rings_for_mesh] returns for a mesh with vertices, it
    returns between 2 and 20 rings; every ring has 18 slots, slot [9 + j]
    being slot [j] with its x negated (and set to zero below [eps]) and the
    same y and z; the half count is at most 9.  For an empty mesh it
    returns no ring. *)
Theorem pm_rings_shape (verts_m : list vertex) (faces : list (list nat))
  (part_x : Q) (rings : list (list vertex)) (h : nat) :
  build_pm_rings_for_mesh atan2 list_of_set verts_m faces
  = Ok (part_x, rings, h) ->
  Forall ring_ok rings /\ h <= 9 /\
  (verts_m = [] -> rings = []) /\
  (verts_m <> [] -> 2 <= length rings <= 20).
Proof.
  unfold build_pm_rings_for_mesh.
  destruct verts_m as [|v0 vs].
  - intros [= <- <- <-].
    split; [constructor|]. split; [lia|]. split; [reflexivity|congruence].
  - cbn [map].
    destruct (build_vertex_adjacency _ _ _) as [neighbors|]; cbn [bind];
      [|discriminate].
    destruct (build_station_vertex_groups _ neighbors 20) as [groups|] eqn:Eg;
      cbn [bind]; [|discriminate].
    destruct (rings_loop _ _ groups 0) as [[rings' h']|] eqn:El;
      cbn [bind]; [|discriminate].
    intros [= <- <- <-].
    apply rings_loop_ok in El as (Hl & Hf & Hh).
    apply station_groups_shape_core in Eg
      as (nose & mids & tail & -> & _ & _ & _ & Hmax).
    split; [exact Hf|]. split; [lia|]. split; [discriminate|].
    intros _. rewrite Hl. simpl in *. rewrite length_app in *. simpl in *.
    lia.
Qed.

End RingShape.

Lemma pm_rings_shape_witness :
  exists part_x rings h,
    build_pm_rings_for_mesh diamond_atan2 insertion_order spindle_verts
      spindle_faces = Ok (part_x, rings, h) /\
    Forall ring_ok rings /\ h <= 9 /\ 2 <= length rings <= 20.
Proof.
  destruct (build_pm_rings_for_mesh diamond_atan2 insertion_order
              spindle_verts spindle_faces) as [[[part_x rings] h]|] eqn:E;
    [|vm_compute in E; discriminate].
  exists part_x, rings, h.
  destruct (pm_rings_shape diamond_atan2 insertion_order spindle_verts
              spindle_faces part_x rings h E) as (Hf & Hh & _ & Hl).
  repeat split; try assumption; apply Hl; discriminate.
Defined.

(** ** Adjacency: exactly the edges of the faces, in both directions *)

(** [v] is in the neighbour set of [u]. *)
Definition adjacent (nbs : list (list nat)) (u v : nat) : Prop :=
  In v (nth u nbs []).

(** [(u, v)] is a pair of cyclically consecutive corners of a face with at
    least two corners. *)
Definition face_edge (faces : list (list nat)) (u v : nat) : Prop :=
  exists face, In face faces /\ 2 <= length face /\ In (u, v) (face_edges face).

Lemma nth_list_set {A : Type} (l : list A) (x d : A) :
  forall i u,
    i < length l ->
    nth u (list_set l i x) d = if (u =? i)%nat then x else nth u l d.
Proof.
  induction l as [|y l IH]; intros i u Hi; [simpl in Hi; lia|].
  destruct i as [|i]; destruct u as [|u]; simpl; try reflexivity.
  apply IH. simpl in Hi. lia.
Qed.

Lemma length_list_set {A : Type} (l : list A) (x : A) :
  forall i, length (list_set l i x) = length l.
Proof.
  induction l as [|y l IH]; intros [|i]; simpl; try reflexivity.
  now rewrite IH.
Qed.

Lemma in_set_add (s : list nat) (x y : nat) :
  In y (set_add s x) <-> In y s \/ y = x.
Proof.
  unfold set_add. destruct (existsb (Nat.eqb x) s) eqn:E.
  - apply existsb_exists in E as (z & Hz & Ez). apply Nat.eqb_eq in Ez.
    subst z. split; [auto|]. intros [H| ->]; assumption.
  - rewrite in_app_iff. simpl. intuition.
Qed.

Lemma add_neighbor_spec (nbs nbs' : list (list nat)) (a b : nat) :
  add_neighbor nbs a b = Ok nbs' ->
  length nbs' = length nbs /\
  forall u v, adjacent nbs' u v <-> adjacent nbs u v \/ (u = a /\ v = b).
Proof.
  unfold add_neighbor. destruct (nth_error nbs a) as [s|] eqn:E;
    [|discriminate].
  intros [= <-]. split; [apply length_list_set|].
  assert (Ha : a < length nbs) by (apply nth_error_Some; congruence).
  intros u v. unfold adjacent. rewrite nth_list_set by exact Ha.
  destruct (Nat.eqb_spec u a) as [->|Hne].
  - rewrite in_set_add, (nth_error_nth _ _ [] E). intuition.
  - intuition.
Qed.

Lemma fold_raise {A B : Type} (f : result A -> B -> result A) (l : list B)
  (e : exn) :
  (forall x, f (Raise e) x = Raise e) -> fold_left f l (Raise e) = Raise e.
Proof.
  intros Hf. induction l as [|x l IH]; simpl; [reflexivity|].
  now rewrite Hf.
Qed.

Lemma add_edges_spec (edges : list (nat * nat)) :
  forall nbs nbs',
    add_edges nbs edges = Ok nbs' ->
    length nbs' = length nbs /\
    forall u v,
      adjacent nbs' u v <->
      adjacent nbs u v \/ (u <> v /\ (In (u, v) edges \/ In (v, u) edges)).
Proof.
  unfold add_edges.
  induction edges as [|[a b] edges IH]; intros nbs nbs' H.
  - injection H as <-. split; [reflexivity|]. intros u v. simpl. tauto.
  - cbn [fold_left bind fst snd] in H.
    destruct (Nat.eqb_spec a b) as [->|Hab].
    + apply IH in H as [Hl H]. split; [exact Hl|].
      intros u v. rewrite H. simpl.
      split; [tauto|]. intros [?|[Hne [[E|?]|[E|?]]]]; auto;
        injection E as <- <-; congruence.
    + destruct (add_neighbor nbs a b) as [nbs1|e] eqn:E1; cbn [bind] in H;
        [|rewrite fold_raise in H by reflexivity; discriminate].
      destruct (add_neighbor nbs1 b a) as [nbs2|e] eqn:E2;
        [|rewrite fold_raise in H by reflexivity; discriminate].
      apply add_neighbor_spec in E1 as [L1 S1].
      apply add_neighbor_spec in E2 as [L2 S2].
      apply IH in H as [Hl H]. split; [congruence|].
      intros u v. rewrite H, S2, S1. simpl.
      split.
      * intros [[[?|[-> ->]]|[-> ->]]|[? [?|?]]]; auto 6.
      * intros [?|[Hne [[E|?]|[E|?]]]]; auto 6;
          injection E as <- <-; auto 6.
Qed.

Lemma faces_fold_spec (faces : list (list nat)) :
  forall nbs sets,
    fold_left
      (fun acc face =>
         nbs <- acc ;;
         if (length face <? 2)%nat then Ok nbs
         else add_edges nbs (face_edges face))
      faces (Ok nbs) = Ok sets ->
    length sets = length nbs /\
    forall u v,
      adjacent sets u v <->
      adjacent nbs u v \/
      (u <> v /\ (face_edge faces u v \/ face_edge faces v u)).
Proof.
  induction faces as [|face faces IH]; intros nbs sets H.
  - injection H as <-. split; [reflexivity|]. intros u v.
    unfold face_edge. simpl. split; [auto|].
    intros [?|[_ [(f & [] & _)|(f & [] & _)]]]. assumption.
  - cbn [fold_left bind] in H.
    assert (Hcons : forall u v,
      face_edge (face :: faces) u v <->
      (2 <= length face /\ In (u, v) (face_edges face)) \/
      face_edge faces u v).
    { intros u v. unfold face_edge. split.
      - intros (f & [<-|Hf] & H2 & He); [left; auto|].
        right. exists f. auto.
      - intros [[H2 He]|(f & Hf & H2 & He)];
          [exists face|exists f]; simpl; auto. }
    destruct (Nat.ltb_spec (length face) 2) as [Hlt|Hge].
    + apply IH in H as [Hl H]. split; [exact Hl|].
      intros u v. rewrite H, !Hcons. split.
      * intros [?|[? [?|?]]]; auto 6.
      * intros [?|[? [[[? _]|?]|[[? _]|?]]]]; auto 6; lia.
    + destruct (add_edges nbs (face_edges face)) as [nbs1|e] eqn:E1;
        [|rewrite fold_raise in H by reflexivity; discriminate].
      apply add_edges_spec in E1 as [L1 S1].
      apply IH in H as [Hl H]. split; [congruence|].
      intros u v. rewrite H, S1, !Hcons. split.
      * intros [[?|[? [?|?]]]|[? [?|?]]]; auto 7.
      * intros [?|[? [[[_ ?]|?]|[[_ ?]|?]]]]; auto 7.
Qed.

Section Adjacency.

Variable list_of_set : list nat -> list nat.

(** [list(nb)] lists the elements of the set [nb]. *)
Hypothesis list_of_set_elements :
  forall s x, In x (list_of_set s) <-> In x s.

(** When [build_vertex_adjacency] returns, it returns one neighbour list
    per vertex, and [v] is a neighbour of [u] exactly when [u] and [v]
    differ and are consecutive corners, in either order, of a face with at
    least two corners.  So the adjacency is symmetric and has no loop. *)
Theorem adjacency_is_face_edges (num_verts : nat) (faces : list (list nat))
  (adj : list (list nat)) :
  build_vertex_adjacency list_of_set num_verts faces = Ok adj ->
  length adj = num_verts /\
  forall u v,
    adjacent adj u v <->
    u <> v /\ (face_edge faces u v \/ face_edge faces v u).
Proof.
  unfold build_vertex_adjacency.
  destruct (fold_left _ faces _) as [sets|] eqn:E; cbn [bind];
    [|discriminate].
  intros [= <-]. apply faces_fold_spec in E as [Hl H].
  rewrite repeat_length in Hl.
  split; [now rewrite length_map|].
  intros u v. unfold adjacent.
  assert (Hnth : In v (nth u (map list_of_set sets) []) <->
                 In v (nth u sets [])).
  { destruct (Nat.lt_ge_cases u (length sets)) as [Hu|Hu].
    - rewrite (nth_indep _ [] (list_of_set []))
        by (rewrite length_map; exact Hu).
      rewrite map_nth. apply list_of_set_elements.
    - rewrite !nth_overflow by (rewrite ?length_map; exact Hu). tauto. }
  rewrite Hnth. fold (adjacent sets u v). rewrite H.
  unfold adjacent. split; [|auto].
  intros [Hin|?]; [|assumption].
  destruct (Nat.lt_ge_cases u num_verts) as [Hu|Hu].
  - rewrite nth_repeat_lt in Hin by exact Hu. destruct Hin.
  - rewrite nth_overflow in Hin by (rewrite repeat_length; exact Hu).
    destruct Hin.
Qed.

End Adjacency.

Lemma adjacency_is_face_edges_witness :
  adjacent [[1; 2]; [0; 2]; [1; 0]] 2 0 <->
  2 <> 0 /\ (face_edge [[0; 1; 2]] 2 0 \/ face_edge [[0; 1; 2]] 0 2).
Proof.
  apply (adjacency_is_face_edges insertion_order (fun s x => iff_refl _)
           3 [[0; 1; 2]] [[1; 2]; [0; 2]; [1; 0]]).
  reflexivity.
Defined.

(** ** Topology: what the search leaves in [dist] *)

Lemma dist_get_in (dist : dist_dict) (v d : nat) :
  dist_get dist v = Some d -> In (v, d) dist.
Proof.
  induction dist as [|[k d'] dist IH]; simpl; [discriminate|].
  destruct (Nat.eqb_spec k v) as [->|_]; [intros [= ->]; auto|auto].
Qed.

Lemma dist_get_key (dist : dist_dict) (v : nat) :
  In v (map fst dist) -> exists d, dist_get dist v = Some d.
Proof.
  induction dist as [|[k d'] dist IH]; simpl; [intros []|].
  destruct (Nat.eqb_spec k v) as [->|Hne]; [eauto|].
  intros [H|H]; [congruence|auto].
Qed.

Lemma dist_mem_key (dist : dist_dict) (v : nat) :
  dist_mem dist v = false -> ~ In v (map fst dist).
Proof.
  unfold dist_mem. intros H Hin.
  apply dist_get_key in Hin as [d Hd]. now rewrite Hd in H.
Qed.

Lemma arg_first_range (better : Q -> Q -> bool) (zs : list Q) :
  forall i best_i best,
    best_i < i -> arg_first better zs i best_i best < i + length zs.
Proof.
  induction zs as [|z zs IH]; intros i best_i best H; simpl; [lia|].
  destruct (better z best).
  - specialize (IH (S i) i z). lia.
  - specialize (IH (S i) best_i best). lia.
Qed.

Lemma argmin_range (zs : list Q) (i : nat) :
  argmin zs = Ok i -> i < length zs.
Proof.
  destruct zs as [|z zs]; [discriminate|]. intros [= <-].
  pose proof (arg_first_range Qltb zs 1 0 z). simpl. lia.
Qed.

Section BfsLayers.

Variable neighbors : list (list nat).
Variable nose : nat.

(** Every neighbour listed is a vertex of the mesh. *)
Hypothesis neighbors_closed :
  forall u v, In v (nth u neighbors []) -> v < length neighbors.

(** [dist] starts with the nose at 0, holds each vertex once, holds only
    vertices of the mesh, and gives each vertex of a layer above 0 a
    neighbour in the layer below. *)
Definition layered (dist : dist_dict) : Prop :=
  (exists rest, dist = (nose, 0) :: rest) /\
  NoDup (map fst dist) /\
  (forall v d, In (v, d) dist -> v < length neighbors) /\
  (forall v d, In (v, S d) dist ->
     exists u, In (u, d) dist /\ In v (nth u neighbors [])).

Lemma visit_layered (u dv : nat) (nbs : list nat) :
  forall dist q dist' q',
    visit nbs dv dist q = (dist', q') ->
    layered dist -> In (u, dv) dist ->
    (forall v, In v nbs -> In v (nth u neighbors [])) ->
    Forall (fun v => In v (map fst dist)) q ->
    layered dist' /\ Forall (fun v => In v (map fst dist')) q'.
Proof.
  induction nbs as [|nb nbs IH]; intros dist q dist' q' H Hl Hu Hn Hq;
    cbn [visit] in H.
  - injection H as <- <-. auto.
  - destruct (dist_mem dist nb) eqn:Em.
    + apply (IH _ _ _ _ H Hl Hu); [|exact Hq].
      intros v Hv. apply Hn. now right.
    + apply (IH _ _ _ _ H).
      * destruct Hl as ((rest & ->) & Hnd & Hlt & Hpred).
        split; [exists (rest ++ [(nb, dv + 1)]); reflexivity|].
        split; [|split].
        -- rewrite map_app. cbn [map fst].
           apply (Permutation_NoDup
                    (Permutation_cons_append (map fst ((nose, 0) :: rest)) nb)).
           constructor; [now apply dist_mem_key|exact Hnd].
        -- intros v d Hv. apply in_app_iff in Hv as [Hv|[[= <- <-]|[]]].
           ++ eapply Hlt, Hv.
           ++ eapply neighbors_closed, Hn. now left.
        -- intros v d Hv. apply in_app_iff in Hv as [Hv|[[= <- E]|[]]].
           ++ destruct (Hpred v d Hv) as (w & Hw & Hvw).
              exists w. split; [apply in_app_iff; now left|exact Hvw].
           ++ exists u. replace d with dv by lia.
              split; [apply in_app_iff; now left|apply Hn; now left].
      * apply in_app_iff. now left.
      * intros v Hv. apply Hn. now right.
      * rewrite map_app. apply Forall_app. split.
        -- eapply Forall_impl; [|exact Hq]. intros v Hv.
           apply in_app_iff. now left.
        -- constructor; [|constructor]. apply in_app_iff. right. now left.
Qed.

Lemma bfs_loop_layered (fuel : nat) :
  forall q dist r,
    bfs_loop fuel neighbors q dist = Some r ->
    layered dist -> Forall (fun v => In v (map fst dist)) q ->
    exists dist', r = Ok dist' /\ layered dist'.
Proof.
  induction fuel as [|fuel IH]; intros q dist r H Hl Hq;
    destruct q as [|v q]; cbn [bfs_loop] in H; try discriminate.
  - injection H as <-. eauto.
  - injection H as <-. eauto.
  - inversion Hq as [|? ? Hv Hq']; subst.
    destruct (dist_get_key dist v Hv) as [dv Hdv]. rewrite Hdv in H.
    pose proof (dist_get_in dist v dv Hdv) as Hin.
    assert (Hlt : v < length neighbors)
      by (destruct Hl as (_ & _ & Hlt & _); eapply Hlt, Hin).
    destruct (nth_error neighbors v) as [nbs|] eqn:En;
      [|apply nth_error_None in En; lia].
    destruct (visit nbs dv dist q) as [dist' q''] eqn:Ev.
    destruct (visit_layered v dv nbs dist q dist' q'' Ev Hl Hin) as [Hl' Hq''].
    + intros w Hw. now rewrite (nth_error_nth _ _ [] En).
    + exact Hq'.
    + eapply IH; eassumption.
Qed.

End BfsLayers.

(** On a non-empty mesh whose adjacency has one list per vertex and lists
    only vertices of the mesh, [compute_topological_layers] returns; the
    nose is the first vertex of [dist], at layer 0; no vertex is in [dist]
    twice; and every vertex of a layer above 0 is a neighbour of a vertex
    of the layer just below. *)
Theorem layers_of_closed_mesh (verts_m : list vertex)
  (neighbors : list (list nat)) :
  verts_m <> [] ->
  length neighbors = length verts_m ->
  (forall u v, In v (nth u neighbors []) -> v < length neighbors) ->
  exists dist nose tail,
    compute_topological_layers verts_m neighbors = Ok (dist, nose, tail) /\
    argmin (map vz verts_m) = Ok nose /\
    dist_get dist nose = Some 0 /\
    NoDup (map fst dist) /\
    (forall v d, In (v, S d) dist ->
       exists u, In (u, d) dist /\ In v (nth u neighbors [])).
Proof.
  intros Hne Hlen Hclosed. unfold compute_topological_layers.
  destruct (argmin (map vz verts_m)) as [nose|] eqn:En;
    [|destruct verts_m; [congruence|discriminate]].
  destruct (argmax (map vz verts_m)) as [tail|] eqn:Et;
    [|destruct verts_m; [congruence|discriminate]].
  cbn [bind].
  destruct (bfs_loop_total neighbors nose) as [r Hr]. rewrite Hr.
  apply argmin_range in En as Hnose. rewrite length_map in Hnose.
  destruct (bfs_loop_layered neighbors nose Hclosed _ _ _ _ Hr)
    as (dist & -> & (rest & ->) & Hnd & _ & Hpred).
  - split; [exists []; reflexivity|]. split; [|split].
    + repeat constructor. intros [].
    + intros v d [[= <- <-]|[]]. lia.
    + intros v d [[=]|[]].
  - repeat constructor.
  - cbn [bind]. exists ((nose, 0) :: rest), nose, tail.
    split; [reflexivity|]. split; [reflexivity|]. split; [|split].
    + simpl. now rewrite Nat.eqb_refl.
    + exact Hnd.
    + exact Hpred.
Qed.

Lemma layers_of_closed_mesh_witness :
  exists dist nose tail,
    compute_topological_layers spindle_verts spindle_neighbors
    = Ok (dist, nose, tail) /\
    argmin (map vz spindle_verts) = Ok nose /\
    dist_get dist nose = Some 0 /\
    NoDup (map fst dist) /\
    (forall v d, In (v, S d) dist ->
       exists u, In (u, d) dist /\ In v (nth u spindle_neighbors [])).
Proof.
  apply (layers_of_closed_mesh spindle_verts spindle_neighbors).
  - discriminate.
  - reflexivity.
  - intros u v.
    do 10 (destruct u as [|u];
           [simpl; intros H; repeat (destruct H as [<-|H]; [lia|]); destruct H|]).
    destruct u; intros [].
Defined.

(** ** One run of the importer: a second run changes nothing *)

Lemma build_body_block_nonempty (b : Z) (stations : list (list vertex))
  (verts : list vertex) (ti tj : Z) (off : Q) :
  build_body_block b stations verts ti tj off <> [].
Proof. unfold build_body_block. discriminate. Qed.

Lemma patch_stable (lines blk : list string) (b : Z) :
  Forall (fun l => is_body_line b l = true) blk -> blk <> [] ->
  replace_body_block (replace_body_block lines b blk) b blk =
  replace_body_block lines b blk.
Proof.
  intros Hblk Hne.
  destruct (replace_body_block_shape b lines blk) as [p ->].
  assert (Hkept : forall l,
            In l (filter (fun l => negb (is_body_line b l)) lines) ->
            is_body_line b l = false).
  { intros l Hl. apply filter_In in Hl as [_ Hl].
    now apply negb_true_iff in Hl. }
  apply patch_contiguous; try assumption; apply Forall_forall; intros l Hl;
    apply Hkept; [eapply in_firstn_in|eapply in_skipn_in]; exact Hl.
Qed.

(** Running the importer on the document it has just written, with the same
    mesh and settings, writes that document again: the dimensions it reads
    are the ones it wrote, so it builds the same block and puts it in the
    same place. *)
Theorem run_once_twice (acf_lines : list string) (bidx : Z)
  (verts_orig : list vertex) (vpl : Z) :
  (0 < vpl)%Z ->
  exists written,
    run_once acf_lines bidx verts_orig vpl = Some written /\
    run_once written bidx verts_orig vpl = Some written.
Proof.
  intros Hv. unfold run_once.
  destruct (read_target_dims_from_acf acf_lines bidx) as [ti tj].
  set (c := compute_center_x verts_orig).
  set (verts := recenter_vertices_x verts_orig c).
  destruct (build_stations_from_geometry_total verts vpl true Hv) as [st ->].
  eexists. split; [reflexivity|].
  rewrite dims_after_patch. f_equal.
  apply patch_stable.
  - apply build_body_block_all_body.
  - apply build_body_block_nonempty.
Qed.

Lemma run_once_twice_witness :
  exists written,
    run_once
      ["PROPERTIES_BEGIN"; "P _body/0/_locked/i_count 2";
       "P _body/0/_locked/j_count 2"; "P acf/_name demo"; "PROPERTIES_END"]
      0 [(1, 0, 0)%Q; (3, 1, 2)%Q] 4 = Some written /\
    run_once written 0 [(1, 0, 0)%Q; (3, 1, 2)%Q] 4 = Some written.
Proof.
  apply (run_once_twice
           ["PROPERTIES_BEGIN"; "P _body/0/_locked/i_count 2";
            "P _body/0/_locked/j_count 2"; "P acf/_name demo";
            "PROPERTIES_END"] 0%Z [(1, 0, 0)%Q; (3, 1, 2)%Q] 4%Z).
  lia.
Defined.

(** ** Adjacency: when it returns and what it raises *)

Lemma add_neighbor_total (nbs : list (list nat)) (a b : nat) :
  a < length nbs -> exists nbs', add_neighbor nbs a b = Ok nbs'.
Proof.
  intros Ha. unfold add_neighbor.
  destruct (nth_error nbs a) eqn:E; [eauto|].
  apply nth_error_None in E. lia.
Qed.

Lemma add_neighbor_raise (nbs : list (list nat)) (a b : nat) (e : exn) :
  add_neighbor nbs a b = Raise e -> e = IndexError.
Proof.
  unfold add_neighbor. destruct (nth_error nbs a); [discriminate|].
  now intros [= <-].
Qed.

Lemma add_edges_total (edges : list (nat * nat)) :
  forall nbs,
    (forall a b, In (a, b) edges -> a <> b ->
                 a < length nbs /\ b < length nbs) ->
    exists nbs', add_edges nbs edges = Ok nbs'.
Proof.
  unfold add_edges.
  induction edges as [|[a b] edges IH]; intros nbs H; [simpl; eauto|].
  cbn [fold_left bind fst snd].
  destruct (Nat.eqb_spec a b) as [->|Hab].
  - apply IH. intros x y Hxy. apply H. now right.
  - destruct (H a b (or_introl eq_refl) Hab) as [Ha Hb].
    destruct (add_neighbor_total nbs a b Ha) as [nbs1 E1]. rewrite E1.
    cbn [bind].
    pose proof (proj1 (add_neighbor_spec _ _ _ _ E1)) as L1.
    destruct (add_neighbor_total nbs1 b a ltac:(lia)) as [nbs2 E2].
    rewrite E2.
    pose proof (proj1 (add_neighbor_spec _ _ _ _ E2)) as L2.
    apply IH. intros x y Hxy Hne. rewrite L2, L1. apply H; [now right|exact Hne].
Qed.

Lemma add_edges_raise (edges : list (nat * nat)) :
  forall nbs e, add_edges nbs edges = Raise e -> e = IndexError.
Proof.
  unfold add_edges.
  induction edges as [|[a b] edges IH]; intros nbs e H; [discriminate|].
  cbn [fold_left bind fst snd] in H.
  destruct (a =? b)%nat; [now apply (IH nbs)|].
  destruct (add_neighbor nbs a b) as [nbs1|e1] eqn:E1; cbn [bind] in H.
  - destruct (add_neighbor nbs1 b a) as [nbs2|e2] eqn:E2.
    + now apply (IH nbs2).
    + rewrite fold_raise in H by reflexivity. injection H as <-.
      eapply add_neighbor_raise, E2.
  - rewrite fold_raise in H by reflexivity. injection H as <-.
    eapply add_neighbor_raise, E1.
Qed.

Lemma faces_fold_total (faces : list (list nat)) :
  forall nbs,
    (forall u v, u <> v -> face_edge faces u v ->
                 u < length nbs /\ v < length nbs) ->
    exists sets,
      fold_left
        (fun acc face =>
           nbs <- acc ;;
           if (length face <? 2)%nat then Ok nbs
           else add_edges nbs (face_edges face))
        faces (Ok nbs) = Ok sets.
Proof.
  induction faces as [|face faces IH]; intros nbs H; [simpl; eauto|].
  cbn [fold_left bind].
  destruct (Nat.ltb_spec (length face) 2) as [Hlt|Hge].
  - apply IH. intros u v Hne (f & Hf & H2 & He). apply H; [exact Hne|].
    exists f. simpl. auto.
  - destruct (add_edges_total (face_edges face) nbs) as [nbs1 E1].
    { intros a b Hab Hne. apply H; [exact Hne|]. exists face. simpl. auto. }
    rewrite E1.
    pose proof (proj1 (add_edges_spec _ _ _ E1)) as L1.
    apply IH. intros u v Hne (f & Hf & H2 & He). rewrite L1.
    apply H; [exact Hne|]. exists f. simpl. auto.
Qed.

Lemma faces_fold_raise (faces : list (list nat)) :
  forall nbs e,
    fold_left
      (fun acc face =>
         nbs <- acc ;;
         if (length face <? 2)%nat then Ok nbs
         else add_edges nbs (face_edges face))
      faces (Ok nbs) = Raise e ->
    e = IndexError.
Proof.
  induction faces as [|face faces IH]; intros nbs e H; [discriminate|].
  cbn [fold_left bind] in H.
  destruct (length face <? 2)%nat; [now apply (IH nbs)|].
  destruct (add_edges nbs (face_edges face)) as [nbs1|e1] eqn:E1.
  - now apply (IH nbs1).
  - rewrite fold_raise in H by reflexivity. injection H as <-.
    eapply add_edges_raise, E1.
Qed.

Lemma adjacent_bound (nbs : list (list nat)) (u v : nat) :
  adjacent nbs u v -> u < length nbs.
Proof.
  unfold adjacent. intros H.
  destruct (Nat.lt_ge_cases u (length nbs)) as [Hu|Hu]; [exact Hu|].
  rewrite nth_overflow in H by exact Hu. destruct H.
Qed.

(** [build_vertex_adjacency] returns exactly when both ends of every edge
    it records (two different, cyclically consecutive corners of a face
    with at least two corners) are below [num_verts]; the only exception it
    raises is [IndexError]. *)
Theorem adjacency_returns_iff (list_of_set : list nat -> list nat)
  (num_verts : nat) (faces : list (list nat)) :
  ((exists adj, build_vertex_adjacency list_of_set num_verts faces = Ok adj)
   <->
   (forall u v, u <> v -> face_edge faces u v ->
                u < num_verts /\ v < num_verts)) /\
  (forall e, build_vertex_adjacency list_of_set num_verts faces = Raise e ->
             e = IndexError).
Proof.
  unfold build_vertex_adjacency. split; [split|].
  - intros [adj H] u v Hne He.
    destruct (fold_left _ faces _) as [sets|] eqn:E; cbn [bind] in H;
      [|discriminate].
    apply faces_fold_spec in E as [Hl Hs]. rewrite repeat_length in Hl.
    rewrite <- Hl. split.
    + apply (adjacent_bound sets u v), Hs. right.
      split; [exact Hne|left; exact He].
    + apply (adjacent_bound sets v u), Hs. right.
      split; [now apply not_eq_sym|right; exact He].
  - intros H.
    destruct (faces_fold_total faces (repeat [] num_verts)) as [sets ->].
    { now rewrite repeat_length. }
    cbn [bind]. eauto.
  - intros e H.
    destruct (fold_left _ faces _) as [sets|e'] eqn:E; cbn [bind] in H;
      [discriminate|].
    injection H as <-. eapply faces_fold_raise, E.
Qed.

(** ** Rings: the exceptions that can leave the builder *)

Lemma visit_keeps_head (x : nat * nat) (nbs : list nat) (dv : nat) :
  forall rest q dist' q',
    visit nbs dv (x :: rest) q = (dist', q') ->
    exists rest', dist' = x :: rest'.
Proof.
  induction nbs as [|nb nbs IH]; intros rest q dist' q' H; cbn [visit] in H.
  - injection H as <- _. eauto.
  - destruct (dist_mem (x :: rest) nb).
    + eapply IH, H.
    + change ((x :: rest) ++ [(nb, dv + 1)])
        with (x :: (rest ++ [(nb, dv + 1)])) in H.
      eapply IH, H.
Qed.

Lemma bfs_loop_result (x : nat * nat) (neighbors : list (list nat))
  (fuel : nat) :
  forall q rest r,
    bfs_loop fuel neighbors q (x :: rest) = Some r ->
    (exists rest', r = Ok (x :: rest')) \/
    r = Raise IndexError \/ r = Raise KeyError.
Proof.
  induction fuel as [|fuel IH]; intros q rest r H;
    destruct q as [|v q]; cbn [bfs_loop] in H; try discriminate.
  - injection H as <-. eauto.
  - injection H as <-. eauto.
  - destruct (nth_error neighbors v) as [nbs|]; [|injection H as <-; auto].
    destruct (dist_get (x :: rest) v) as [dv|]; [|injection H as <-; auto].
    destruct (visit nbs dv (x :: rest) q) as [dist' q''] eqn:Ev.
    destruct (visit_keeps_head _ _ _ _ _ _ _ Ev) as [rest' ->].
    eapply IH, H.
Qed.

Lemma d_values_start_at_zero (l : list nat) :
  In 0 l -> exists ds, fold_right insert_nat [] l = 0 :: ds.
Proof.
  induction l as [|x l IH]; [intros []|]. intros H. cbn [fold_right].
  destruct (Nat.eq_dec x 0) as [->|Hx].
  - destruct (fold_right insert_nat [] l) as [|y ys]; simpl; eauto.
  - destruct H as [H|H]; [congruence|].
    destruct (IH H) as [ds ->]. cbn [insert_nat].
    replace (x <=? 0)%nat with false by (symmetry; apply Nat.leb_gt; lia).
    eauto.
Qed.

Lemma mid_stations_raise (dist : dist_dict) (tail_d : nat)
  (d_values : list nat) (e : exn) :
  mid_stations dist tail_d d_values = Raise e -> e = ValueError.
Proof.
  induction d_values as [|d rest IH]; cbn [mid_stations]; [discriminate|].
  destruct ((d =? 0) || (d =? tail_d))%nat; [exact IH|].
  destruct (length (bucket dist d) =? 0)%nat; [exact IH|].
  destruct (negb _); [now intros [= <-]|].
  destruct (mid_stations dist tail_d rest); cbn [bind]; [discriminate|].
  intros [= <-]. now apply IH.
Qed.

Lemma argmin_raise (zs : list Q) (e : exn) :
  argmin zs = Raise e -> e = ValueError.
Proof. destruct zs; [now intros [= <-]|discriminate]. Qed.

Lemma argmax_raise (zs : list Q) (e : exn) :
  argmax zs = Raise e -> e = ValueError.
Proof. destruct zs; [now intros [= <-]|discriminate]. Qed.

(** The exceptions of the model that are an index out of range, a missing
    dictionary key or a [ValueError]. *)
Definition mesh_error (e : exn) : Prop :=
  e = IndexError \/ e = KeyError \/ e = ValueError.

Lemma station_groups_raise (verts_m : list vertex)
  (neighbors : list (list nat)) (max_stations : nat) (e : exn) :
  build_station_vertex_groups verts_m neighbors max_stations = Raise e ->
  mesh_error e.
Proof.
  unfold build_station_vertex_groups, compute_topological_layers, mesh_error.
  destruct (argmin (map vz verts_m)) as [nose|e0] eqn:En; cbn [bind];
    [|intros [= <-]; apply argmin_raise in En; auto].
  destruct (argmax (map vz verts_m)) as [tail|e0] eqn:Et; cbn [bind];
    [|intros [= <-]; apply argmax_raise in Et; auto].
  destruct (bfs_loop_total neighbors nose) as [r Hr]. rewrite Hr.
  destruct (bfs_loop_result _ _ _ _ _ _ Hr) as [[rest ->]|[-> | ->]];
    cbn [bind]; try (intros [= <-]; now auto).
  destruct (d_values_start_at_zero (nodup Nat.eq_dec (map snd ((nose, 0) :: rest))))
    as [ds Hd].
  { apply nodup_In. simpl. auto. }
  unfold d_values_of. rewrite Hd. cbn [bind Nat.eqb negb].
  destruct (dist_get _ tail) as [tail_d|]; [|intros [= <-]; auto].
  destruct (mid_stations _ tail_d (0 :: ds)) as [mids|e0] eqn:Em;
    cbn [bind]; [|intros [= <-]; apply mid_stations_raise in Em; auto].
  destruct (negb _); [intros [= <-]; auto|].
  destruct (_ <? _)%nat; [intros [= <-]; auto|discriminate].
Qed.

Section RingErrors.

Variable atan2 : Q -> Q -> Q.
Variable list_of_set : list nat -> list nat.

Lemma rings_loop_raise (verts_local : list vertex) (groups : list (list nat)) :
  forall h0 e,
    rings_loop atan2 verts_local groups h0 = Raise e -> mesh_error e.
Proof.
  unfold mesh_error.
  induction groups as [|station rest IH]; intros h0 e H; [discriminate|].
  cbn [rings_loop] in H.
  assert (Hmid :
    (station_verts_m <-
       fold_right
         (fun idx acc =>
            match nth_error verts_local idx with
            | None => Raise IndexError
            | Some v => vs <- acc ;; Ok (v :: vs)
            end)
         (Ok []) station ;;
     ' (ring, n_half) <- mid_ring atan2 station_verts_m ;;
     ' (rings, h) <-
       rings_loop atan2 verts_local rest (Nat.max h0 n_half) ;;
     Ok (ring :: rings, h)) = Raise e ->
    e = IndexError \/ e = KeyError \/ e = ValueError).
  { clear H. intros H.
    destruct (fold_right _ _ station) as [vs|e0] eqn:Ef; cbn [bind] in H.
    - destruct (mid_ring atan2 vs) as [[ring n_half]|e0] eqn:Er;
        cbn [bind] in H.
      + destruct (rings_loop atan2 verts_local rest (Nat.max h0 n_half))
          as [[rings' h']|e0] eqn:El; cbn [bind] in H; [discriminate|].
        injection H as <-. eapply IH, El.
      + injection H as <-. unfold mid_ring in Er.
        destruct (negb _) in Er; [|discriminate].
        injection Er as <-. auto.
    - injection H as <-. left. clear -Ef. revert e0 Ef.
      induction station as [|idx station IHs]; intros e0 Ef; [discriminate|].
      cbn [fold_right] in Ef.
      destruct (nth_error verts_local idx); [|now injection Ef as <-].
      destruct (fold_right _ _ station) as [vs|e1]; cbn [bind] in Ef;
        [discriminate|].
      injection Ef as <-. now apply IHs. }
  destruct station as [|idx [|idx' station']]; try (apply Hmid; exact H).
  destruct (nth_error verts_local idx) as [v|]; [|injection H as <-; auto].
  destruct (rings_loop atan2 verts_local rest h0) as [[rings' h']|e0] eqn:El;
    cbn [bind] in H; [discriminate|].
  injection H as <-. eapply IH, El.
Qed.

(** Whatever the mesh, an exception that leaves [build_pm_rings_for_mesh]
    is an [IndexError], a [KeyError] or a [ValueError]: the search from the
    nose always puts the nose in layer 0, so the assertion [d_min == 0] of
    [build_station_vertex_groups] never fails. *)
Theorem pm_rings_exceptions (verts_m : list vertex) (faces : list (list nat))
  (e : exn) :
  build_pm_rings_for_mesh atan2 list_of_set verts_m faces = Raise e ->
  e = IndexError \/ e = KeyError \/ e = ValueError.
Proof.
  unfold build_pm_rings_for_mesh.
  destruct (map vx verts_m) as [|x0 xs]; [discriminate|].
  destruct (build_vertex_adjacency _ _ _) as [neighbors|e0] eqn:Ea;
    cbn [bind].
  - destruct (build_station_vertex_groups _ neighbors 20) as [groups|e0]
      eqn:Eg; cbn [bind].
    + destruct (rings_loop _ _ groups 0) as [[rings' h']|e0] eqn:El;
        cbn [bind]; [discriminate|].
      intros [= <-]. eapply rings_loop_raise, El.
    + intros [= <-]. eapply station_groups_raise, Eg.
  - intros [= <-]. left. unfold build_vertex_adjacency in Ea.
    destruct (fold_left _ faces _) as [sets|e1] eqn:E; cbn [bind] in Ea;
      [discriminate|].
    injection Ea as <-. eapply faces_fold_raise, E.
Qed.

End RingErrors.

Lemma pm_rings_exceptions_witness :
  build_pm_rings_for_mesh diamond_atan2 insertion_order thin_verts thin_faces
  = Raise ValueError /\
  (ValueError = IndexError \/ ValueError = KeyError \/ ValueError = ValueError).
Proof.
  split; [vm_compute; reflexivity|].
  apply (pm_rings_exceptions diamond_atan2 insertion_order thin_verts
           thin_faces ValueError).
  vm_compute. reflexivity.
Defined.

(** ** Bodies: the processing order *)

Lemma priority_fold (names : list string) :
  fold_left
    (fun order name =>
       if name_in name names && negb (name_in name order)
       then order ++ [name] else order)
    priority_names []
  = filter (fun name => name_in name names) priority_names.
Proof.
  unfold priority_names. cbn [fold_left filter].
  destruct (name_in "Fuselage_Chieftain_fuse_only_Mesh.0001" names),
    (name_in "LF_Cowling_Cylinder.001" names),
    (name_in "RT_Cowling_Cylinder.002" names); reflexivity.
Qed.

Lemma add_missing_spec (names : list string) :
  forall order,
    NoDup order ->
    exists rest,
      fold_left
        (fun order name =>
           if negb (name_in name order) then order ++ [name] else order)
        names order = order ++ rest /\
      NoDup (order ++ rest) /\
      (forall n, In n rest <-> In n names /\ ~ In n order).
Proof.
  induction names as [|name names IH]; intros order Hnd.
  - exists []. rewrite app_nil_r.
    split; [reflexivity|]. split; [exact Hnd|]. intros n. simpl. tauto.
  - cbn [fold_left]. destruct (name_in name order) eqn:E; cbn [negb].
    + apply name_in_iff in E.
      destruct (IH order Hnd) as (rest & -> & Hnd' & Hin).
      exists rest. split; [reflexivity|]. split; [exact Hnd'|].
      intros n. rewrite Hin. simpl. split; [tauto|].
      intros [[<-|H] Hno]; [contradiction|auto].
    + assert (Hno : ~ In name order).
      { intros H. apply name_in_iff in H. congruence. }
      destruct (IH (order ++ [name])) as (rest & -> & Hnd' & Hin).
      { apply (Permutation_NoDup (Permutation_cons_append order name)).
        now constructor. }
      exists (name :: rest). rewrite <- app_assoc in *. cbn [app] in *.
      split; [reflexivity|]. split; [exact Hnd'|].
      intros n. split.
      * intros [<-|H]; [simpl; auto|].
        apply Hin in H as [H Ho]. split; [now right|].
        intros Ho'. apply Ho, in_app_iff. auto.
      * intros [[<-|H] Ho]; [now left|].
        destruct (string_dec name n) as [<-|Hne]; [now left|].
        right. apply Hin. split; [exact H|].
        intros Ho'. apply in_app_iff in Ho' as [?|[?|[]]]; auto.
Qed.

Lemma body_order_shape (groups : list group) :
  exists rest,
    body_order groups =
      filter (fun name => name_in name (map fst groups)) priority_names
        ++ rest /\
    (forall n, In n rest -> ~ In n priority_names) /\
    NoDup (body_order groups) /\
    (forall n, In n (body_order groups) <-> In n (map fst groups)).
Proof.
  unfold body_order. rewrite priority_fold.
  set (present := filter _ priority_names).
  assert (Hpres : forall n, In n present <->
                            In n priority_names /\ In n (map fst groups)).
  { intros n. unfold present. rewrite filter_In, name_in_iff. tauto. }
  destruct (add_missing_spec (map fst groups) present) as (rest & -> & Hnd & Hin).
  { unfold present. apply NoDup_filter. unfold priority_names.
    repeat constructor; simpl; intuition discriminate. }
  exists rest. split; [reflexivity|]. split; [|split; [exact Hnd|]].
  - intros n Hn Hp. apply Hin in Hn as [Hg Hno]. apply Hno, Hpres. auto.
  - intros n. rewrite in_app_iff, Hin. split.
    + intros [Hp|[Hg _]]; [apply Hpres in Hp; tauto|exact Hg].
    + intros Hg. destruct (in_dec string_dec n present); [left|right]; auto.
Qed.

(** The processing order of [build_bodies_from_obj], which numbers the
    bodies: first the priority names that are groups of the file, in
    priority order, then groups that are not priority names; every group
    is in it exactly once and nothing else is. *)
Theorem body_order_priority_first (groups : list group) :
  exists rest,
    body_order groups =
      filter (fun name => name_in name (map fst groups)) priority_names
        ++ rest /\
    (forall n, In n rest -> ~ In n priority_names) /\
    NoDup (body_order groups) /\
    (forall n, In n (body_order groups) <-> In n (map fst groups)).
Proof. apply body_order_shape. Qed.

(** ** The run: assigning the rows of the mesh table to body indices *)

Lemma index_lookup_none (m : list (Z * body)) (k : Z) :
  index_lookup m k = None -> ~ In k (map fst m).
Proof.
  unfold index_lookup. intros H Hin.
  destruct (find (fun kb => (fst kb =? k)%Z) m) as [kb|] eqn:E;
    [discriminate|].
  apply in_map_iff in Hin as (kb & <- & Hkb).
  pose proof (find_none _ _ E kb Hkb) as Hk. simpl in Hk.
  now rewrite Z.eqb_refl in Hk.
Qed.

(** An assigned body is the body built for the mesh that a row names,
    under the index of that row. *)
Definition assigned_from (bodies : list body) (mesh_rows : list mesh_row)
  (kb : Z * body) : Prop :=
  body_index (snd kb) = fst kb /\
  exists row src,
    In row mesh_rows /\ row_body_index row = fst kb /\
    by_name_lookup bodies (row_mesh_name row) = Some src /\
    group_name (snd kb) = group_name src /\
    rings (snd kb) = rings src /\
    half_n_max (snd kb) = half_n_max src /\
    part_x_ft (snd kb) = part_x_ft src /\
    part_rad_ft (snd kb) = part_rad_ft src.

(** The loop over the rows of the mesh table gives every body index to at
    most one body; every row is either assigned or answered with one
    warning; and an assigned body carries the index of a row and the
    geometry built for the mesh that row names. *)
Theorem assign_rows_accounts (bodies : list body) (mesh_rows : list mesh_row) :
  NoDup (map fst (fst (assign_rows bodies mesh_rows))) /\
  length (fst (assign_rows bodies mesh_rows))
    + length (snd (assign_rows bodies mesh_rows)) = length mesh_rows /\
  Forall (assigned_from bodies mesh_rows) (fst (assign_rows bodies mesh_rows)).
Proof.
  induction mesh_rows as [|row rows IH] using rev_ind.
  - simpl. repeat constructor.
  - unfold assign_rows in *. rewrite fold_left_app. cbn [fold_left].
    destruct (fold_left _ rows ([], [])) as [m w]. cbn [fst snd] in *.
    destruct IH as (Hnd & Hlen & Hall).
    assert (Hall' : Forall (assigned_from bodies (rows ++ [row])) m).
    { eapply Forall_impl; [|exact Hall].
      intros kb (Hk & r & src & Hr & H).
      split; [exact Hk|]. exists r, src.
      split; [apply in_app_iff; now left|exact H]. }
    rewrite length_app. cbn [length].
    destruct (by_name_lookup bodies (row_mesh_name row)) as [src|] eqn:Eb;
      cbn [fst snd].
    + destruct (index_lookup m (row_body_index row)) eqn:Ei; cbn [fst snd].
      * split; [exact Hnd|]. split; [|exact Hall'].
        rewrite length_app. simpl. lia.
      * split; [|split].
        -- rewrite map_app. cbn [map fst].
           apply (Permutation_NoDup
                    (Permutation_cons_append (map fst m) (row_body_index row))).
           constructor; [now apply index_lookup_none|exact Hnd].
        -- rewrite length_app. simpl. lia.
        -- apply Forall_app. split; [exact Hall'|].
           constructor; [|constructor].
           split; [reflexivity|]. exists row, src.
           split; [apply in_app_iff; right; now left|].
           repeat split. exact Eb.
    + split; [exact Hnd|]. split; [|exact Hall'].
      rewrite length_app. simpl. lia.
Qed.

(** ** Mesh names: the scan never fails and lists each name once *)

Lemma ends_solid_tail (c : ascii) (s : string) :
  ends_solid (String c s) -> s = "" \/ ends_solid s.
Proof.
  intros (s' & x & E & Hx). destruct s' as [|c' s'']; simpl in E.
  - injection E as _ <-. now left.
  - injection E as _ ->. right. exists s'', x. auto.
Qed.

Lemma ends_solid_lstrip (r : string) :
  ends_solid r -> PyStr.lstrip r <> "" /\ ends_solid (PyStr.lstrip r).
Proof.
  induction r as [|c r IH]; intros H.
  - destruct H as (s' & x & E & _). destruct s'; discriminate.
  - simpl. destruct (PyStr.isspace c) eqn:Ec.
    + destruct (ends_solid_tail c r H) as [->|Hr]; [|now apply IH].
      destruct H as (s' & x & E & Hx).
      destruct s' as [|c' [|c'' s'']]; simpl in E; try discriminate.
      injection E as ->. congruence.
    + split; [discriminate|exact H].
Qed.

(** The keyword of a group or object line and what follows it. *)
Definition names_mesh (t : string) (k : ascii) (r : string) : Prop :=
  t = String k (String " " r) /\ (k = "g"%char \/ k = "o"%char).

Lemma split_keyword (k : ascii) (r : string) :
  PyStr.isspace k = false ->
  split_maxsplit1 (String k (String " " r)) =
  match PyStr.lstrip r with
  | EmptyString => [String k ""]
  | r' => [String k ""; r']
  end.
Proof.
  intros Hk. unfold split_maxsplit1. cbn [PyStr.lstrip]. rewrite Hk.
  cbn [take_word]. rewrite Hk.
  change (PyStr.isspace " "%char) with true. cbn iota.
  change (PyStr.lstrip (String " " r)) with (PyStr.lstrip r).
  reflexivity.
Qed.

Lemma mesh_line_name (t : string) :
  t = "" \/ ends_solid t ->
  PyStr.startswith t "g " || PyStr.startswith t "o " = true ->
  exists k r,
    names_mesh t k r /\
    nth_error (split_maxsplit1 t) 1 = Some (PyStr.lstrip r) /\
    PyStr.lstrip r <> "" /\
    PyStr.strip (PyStr.lstrip r) = PyStr.lstrip r.
Proof.
  intros Ht Hs.
  assert (Hk : exists k r, names_mesh t k r).
  { apply orb_true_iff in Hs as [Hs|Hs]; apply prefix_inv in Hs as [r ->];
      [exists "g"%char, r|exists "o"%char, r]; split; auto. }
  destruct Hk as (k & r & -> & Hk). exists k, r.
  split; [split; [reflexivity|exact Hk]|].
  destruct Ht as [Ht|Ht]; [discriminate|].
  assert (Hr : ends_solid r).
  { destruct (ends_solid_tail _ _ Ht) as [E|H1]; [discriminate|].
    destruct (ends_solid_tail _ _ H1) as [->|H2]; [|exact H2].
    destruct H1 as (s' & x & E & Hx).
    destruct s' as [|c' [|c'' s'']]; simpl in E; try discriminate.
    injection E as <-. discriminate. }
  destruct (ends_solid_lstrip r Hr) as [Hne Hend].
  split; [|split; [exact Hne|]].
  - rewrite split_keyword by (destruct Hk as [-> | ->]; reflexivity).
    destruct (PyStr.lstrip r); [congruence|reflexivity].
  - destruct (lstrip_spec r) as (ws & _ & _ & [E|(c & u & E & Hc)]);
      [congruence|].
    rewrite E in *. now apply strip_solid.
Qed.

Lemma strip_shape (line : string) :
  PyStr.strip line = "" \/ ends_solid (PyStr.strip line).
Proof.
  unfold PyStr.strip.
  destruct (rstrip_spec (PyStr.lstrip line)) as (ws & _ & _ & H). exact H.
Qed.

Lemma not_mesh_line (t : string) (k : ascii) (r : string) :
  PyStr.startswith t "g " || PyStr.startswith t "o " = false ->
  ~ names_mesh t k r.
Proof.
  intros Hs [-> [-> | ->]]; destruct r; vm_compute in Hs; discriminate.
Qed.

(** [scan_obj_mesh_names] always returns.  A name is listed when some line,
    once stripped, is [g] or [o], a space, and then that name after any
    further white space; each name is listed once, is not empty and has no
    white space at either end. *)
Theorem scan_obj_mesh_names_spec (lines : list string) :
  exists names,
    scan_obj_mesh_names lines = Ok names /\
    NoDup names /\
    (forall n,
       In n names <->
       exists line k r,
         In line lines /\ names_mesh (PyStr.strip line) k r /\
         n = PyStr.lstrip r) /\
    (forall n, In n names -> n <> "" /\ PyStr.strip n = n).
Proof.
  induction lines as [|line lines IH] using rev_ind.
  - exists []. split; [reflexivity|]. split; [constructor|].
    split; [|intros n []].
    intros n. split; [intros []|]. intros (l & k & r & [] & _).
  - destruct IH as (names & Hscan & Hnd & Hin & Hok).
    unfold scan_obj_mesh_names in *. rewrite fold_left_app, Hscan.
    cbn [fold_left bind].
    assert (Hold : forall n,
              (exists l k r, In l lines /\ names_mesh (PyStr.strip l) k r /\
                             n = PyStr.lstrip r) ->
              exists l k r, In l (lines ++ [line]) /\
                            names_mesh (PyStr.strip l) k r /\
                            n = PyStr.lstrip r).
    { intros n (l & k & r & Hl & H). exists l, k, r.
      split; [apply in_app_iff; now left|exact H]. }
    destruct (PyStr.startswith (PyStr.strip line) "g "
              || PyStr.startswith (PyStr.strip line) "o ") eqn:Es.
    + destruct (mesh_line_name _ (strip_shape line) Es)
        as (k & r & Hk & -> & Hne & Hstrip).
      rewrite Hstrip.
      destruct (PyStr.lstrip r) as [|c u] eqn:El; [congruence|].
      rewrite <- El in *.
      assert (Hnew : exists l k r0, In l (lines ++ [line]) /\
                       names_mesh (PyStr.strip l) k r0 /\
                       PyStr.lstrip r = PyStr.lstrip r0).
      { exists line, k, r. split; [apply in_app_iff; right; now left|auto]. }
      assert (Hsplit : forall n,
                (exists l k r0, In l (lines ++ [line]) /\
                   names_mesh (PyStr.strip l) k r0 /\ n = PyStr.lstrip r0) ->
                In n names \/ n = PyStr.lstrip r).
      { intros n (l & k' & r' & Hl & [Ht Hk'] & ->).
        apply in_app_iff in Hl as [Hl|[<-|[]]].
        - left. apply Hin. exists l, k', r'. repeat split; assumption.
        - right. destruct Hk as [Ht0 _]. rewrite Ht0 in Ht.
          now injection Ht as _ <-. }
      destruct (name_in (PyStr.lstrip r) names) eqn:En.
      * apply name_in_iff in En.
        exists names. split; [reflexivity|]. split; [exact Hnd|].
        split; [|exact Hok].
        intros n. split; [intros H; apply Hold, Hin, H|].
        intros H. destruct (Hsplit n H) as [?| ->]; assumption.
      * assert (Hno : ~ In (PyStr.lstrip r) names).
        { intros H. apply name_in_iff in H. congruence. }
        exists (names ++ [PyStr.lstrip r]). split; [reflexivity|].
        split; [|split].
        -- apply (Permutation_NoDup (Permutation_cons_append names _)).
           now constructor.
        -- intros n. rewrite in_app_iff. split.
           ++ intros [H|[<-|[]]]; [apply Hold, Hin, H|exact Hnew].
           ++ intros H. destruct (Hsplit n H) as [?| ->]; simpl; auto.
        -- intros n Hn. apply in_app_iff in Hn as [Hn|[<-|[]]];
             [now apply Hok|]. split; [congruence|exact Hstrip].
    + exists names. split; [reflexivity|]. split; [exact Hnd|].
      split; [|exact Hok].
      intros n. split; [intros H; apply Hold, Hin, H|].
      intros (l & k & r & Hl & Hm & ->).
      apply in_app_iff in Hl as [Hl|[<-|[]]].
      * apply Hin. exists l, k, r. auto.
      * exfalso. eapply not_mesh_line; eassumption.
Qed.

(** ** Local groups: the faces index the local vertices *)

Lemma map_result_ok {A B : Type} (f : A -> result B) (l : list A) :
  forall ys,
    map_result f l = Ok ys -> Forall2 (fun x y => f x = Ok y) l ys.
Proof.
  unfold map_result.
  induction l as [|x l IH]; intros ys H; cbn [fold_right] in H.
  - injection H as <-. constructor.
  - destruct (f x) as [y|] eqn:Ex; cbn [bind] in H; [|discriminate].
    destruct (fold_right _ _ l) as [ys'|]; cbn [bind] in H; [|discriminate].
    injection H as <-. constructor; [exact Ex|now apply IH].
Qed.

Lemma map_result_total {A B : Type} (f : A -> result B) (l : list A) :
  (forall x, In x l -> exists y, f x = Ok y) ->
  exists ys, map_result f l = Ok ys.
Proof.
  unfold map_result. induction l as [|x l IH]; intros H; [simpl; eauto|].
  cbn [fold_right].
  destruct (H x (or_introl eq_refl)) as [y ->].
  destruct IH as [ys ->]; [intros z Hz; apply H; now right|].
  cbn [bind]. eauto.
Qed.

Lemma map_result_raise {A B : Type} (f : A -> result B) (l : list A)
  (e : exn) :
  map_result f l = Raise e -> exists x, In x l /\ f x = Raise e.
Proof.
  unfold map_result. induction l as [|x l IH]; cbn [fold_right];
    [discriminate|].
  destruct (f x) as [y|e0] eqn:Ex; cbn [bind].
  - destruct (fold_right _ _ l) as [ys|e1]; cbn [bind]; [discriminate|].
    intros [= <-]. destruct IH as (z & Hz & Ez); [reflexivity|].
    exists z. split; [now right|exact Ez].
  - intros [= <-]. exists x. split; [now left|exact Ex].
Qed.

Lemma Forall2_nth_error {A B : Type} (R : A -> B -> Prop) (l : list A)
  (l' : list B) :
  Forall2 R l l' ->
  forall i x, nth_error l i = Some x ->
              exists y, nth_error l' i = Some y /\ R x y.
Proof.
  induction 1 as [|a b l l' Hab _ IH]; intros [|i] x H; simpl in *;
    try discriminate.
  - injection H as <-. eauto.
  - now apply IH.
Qed.

Lemma Forall2_in_l {A B : Type} (R : A -> B -> Prop) (l : list A)
  (l' : list B) (x : A) :
  Forall2 R l l' -> In x l -> exists y, In y l' /\ R x y.
Proof.
  induction 1 as [|a b l l' Hab _ IH]; intros Hx; [destruct Hx|].
  destruct Hx as [<-|Hx]; [exists b; simpl; auto|].
  destruct (IH Hx) as (y & Hy & Hr). exists y. simpl. auto.
Qed.

Lemma Forall2_in_r {A B : Type} (R : A -> B -> Prop) (l : list A)
  (l' : list B) (y : B) :
  Forall2 R l l' -> In y l' -> exists x, In x l /\ R x y.
Proof.
  induction 1 as [|a b l l' Hab _ IH]; intros Hy; [destruct Hy|].
  destruct Hy as [<-|Hy]; [exists a; simpl; auto|].
  destruct (IH Hy) as (x & Hx & Hr). exists x. simpl. auto.
Qed.

Lemma insert_Z_perm (x : Z) (l : list Z) : Permutation (insert_Z x l) (x :: l).
Proof.
  induction l as [|y l IH]; simpl; [reflexivity|].
  destruct (x <=? y)%Z; [reflexivity|].
  rewrite IH. apply perm_swap.
Qed.

Lemma used_sorted_perm (faces_global : list (list Z)) :
  Permutation (used_sorted_of faces_global)
    (nodup Z.eq_dec (concat faces_global)).
Proof.
  unfold used_sorted_of.
  induction (nodup Z.eq_dec (concat faces_global)) as [|x l IH]; simpl;
    [reflexivity|].
  rewrite insert_Z_perm. now constructor.
Qed.

Lemma used_sorted_in (faces_global : list (list Z)) (gv : Z) :
  In gv (used_sorted_of faces_global) <-> In gv (concat faces_global).
Proof.
  rewrite <- (nodup_In Z.eq_dec (concat faces_global)).
  split; apply Permutation_in; [|symmetry]; apply used_sorted_perm.
Qed.

Lemma used_sorted_nodup (faces_global : list (list Z)) :
  NoDup (used_sorted_of faces_global).
Proof.
  eapply Permutation_NoDup; [symmetry; apply used_sorted_perm|].
  apply NoDup_nodup.
Qed.

Lemma global_to_local_ok (used : list Z) (gv : Z) (li : nat) :
  global_to_local used gv = Ok li -> nth_error used li = Some gv.
Proof.
  unfold global_to_local.
  destruct (find _ _) as [[i x]|] eqn:E; [|discriminate].
  intros [= <-]. apply find_some in E as [Hin Hx].
  apply in_rev, in_enumerate_from in Hin as [_ Hn].
  simpl in *. apply Z.eqb_eq in Hx. subst x.
  now rewrite Nat.sub_0_r in Hn.
Qed.

Lemma global_to_local_total (used : list Z) (gv : Z) :
  In gv used -> exists li, global_to_local used gv = Ok li.
Proof.
  intros H. unfold global_to_local.
  destruct (find _ _) as [p|] eqn:E; [eauto|exfalso].
  apply In_nth_error in H as [i Hi].
  pose proof (in_enumerate_from_intro used 0 i gv Hi) as Hin.
  apply in_rev in Hin. pose proof (find_none _ _ E _ Hin) as Hf.
  simpl in Hf. now rewrite Z.eqb_refl in Hf.
Qed.

Lemma py_nth_raise {A : Type} (l : list A) (k : Z) (e : exn) :
  py_nth l k = Raise e -> e = IndexError.
Proof.
  unfold py_nth. destruct (_ <? 0)%Z; [now intros [= <-]|].
  destruct (nth_error l _); [discriminate|now intros [= <-]].
Qed.

Lemma in_face_edges (face : list nat) (u v : nat) :
  In (u, v) (face_edges face) -> In u face /\ In v face.
Proof.
  destruct face as [|v0 rest]; [intros []|]. unfold face_edges. intros H.
  split; [eapply in_combine_l, H|].
  apply in_combine_r, in_app_iff in H as [H|[<-|[]]]; simpl; auto.
Qed.

Section LocalGroup.

Variable list_of_set : list nat -> list nat.

(** What [load_all_groups_with_faces] makes of one group.  The only
    exception is an [IndexError], for a face index outside the vertices of
    the file.  Otherwise every corner of every face is replaced by a local
    index at which the local vertices hold the vertex the corner named;
    every local vertex is a corner of some face; and
    [build_vertex_adjacency] returns for the local faces. *)
Theorem local_group_spec (all_verts : list vertex)
  (faces_global : list (list Z)) :
  match local_group all_verts faces_global with
  | Raise e => e = IndexError
  | Ok (local_verts, local_faces) =>
      Forall2
        (Forall2
           (fun gv li =>
              exists v, py_nth all_verts gv = Ok v /\
                        nth_error local_verts li = Some v))
        faces_global local_faces /\
      (forall li, li < length local_verts ->
                  exists face, In face local_faces /\ In li face) /\
      exists adj,
        build_vertex_adjacency list_of_set (length local_verts) local_faces
        = Ok adj
  end.
Proof.
  unfold local_group.
  set (used := used_sorted_of faces_global).
  destruct (map_result (py_nth all_verts) used) as [lv|e] eqn:Ev;
    cbn [bind].
  2:{ apply map_result_raise in Ev as (gv & _ & Ev).
      eapply py_nth_raise, Ev. }
  apply map_result_ok in Ev.
  destruct (map_result_total (map_result (global_to_local used)) faces_global)
    as [lf Elf].
  { intros face Hface. apply map_result_total. intros gv Hgv.
    apply global_to_local_total, used_sorted_in, in_concat. eauto. }
  rewrite Elf. cbn [bind].
  apply map_result_ok in Elf.
  assert (Hfaces : Forall2 (Forall2 (fun gv li => nth_error used li = Some gv))
                     faces_global lf).
  { eapply Forall2_impl; [|exact Elf]. intros face lface H.
    apply map_result_ok in H. eapply Forall2_impl; [|exact H].
    intros gv li. apply global_to_local_ok. }
  assert (Hlen : length used = length lv) by (eapply Forall2_length, Ev).
  assert (Hbound : forall face li, In face lf -> In li face -> li < length lv).
  { intros face li Hf Hli.
    destruct (Forall2_in_r _ _ _ _ Hfaces Hf) as (gface & _ & Hg).
    destruct (Forall2_in_r _ _ _ _ Hg Hli) as (gv & _ & Hn).
    rewrite <- Hlen. apply nth_error_Some. congruence. }
  split; [|split].
  - eapply Forall2_impl; [|exact Hfaces]. intros face lface H.
    eapply Forall2_impl; [|exact H]. intros gv li Hn.
    destruct (Forall2_nth_error _ _ _ Ev _ _ Hn) as (v & Hv & Hp). eauto.
  - intros li Hli.
    destruct (nth_error used li) as [gv|] eqn:En;
      [|apply nth_error_None in En; lia].
    assert (Hin : In gv (concat faces_global)).
    { apply used_sorted_in. eapply nth_error_In, En. }
    apply in_concat in Hin as (gface & Hgf & Hgv).
    destruct (Forall2_in_l _ _ _ _ Hfaces Hgf) as (lface & Hlf & Hf).
    destruct (Forall2_in_l _ _ _ _ Hf Hgv) as (li' & Hli' & Hn).
    exists lface. split; [exact Hlf|].
    replace li with li'; [exact Hli'|].
    apply (proj1 (NoDup_nth_error used) (used_sorted_nodup faces_global));
      [apply nth_error_Some|]; congruence.
  - unfold build_vertex_adjacency.
    destruct (faces_fold_total lf (repeat [] (length lv))) as [sets ->].
    + intros u v _ (face & Hface & _ & He). rewrite repeat_length.
      apply in_face_edges in He as [Hu Hv]. split; eapply Hbound; eauto.
    + cbn [bind]. eauto.
Qed.

End LocalGroup.

(** ** Bodies: what [build_bodies_from_obj] returns *)

Section BodiesSpec.

Variable atan2 : Q -> Q -> Q.
Variable list_of_set : list nat -> list nat.
Variable build_body_block_from_template :
  list body -> nat -> list string -> result (list string).

(** Body [b] was built from the group at position [idx] of the order. *)
Definition body_from (groups : list group) (idx : nat) (b : body) : Prop :=
  body_index b = Z.of_nat idx /\
  pm_name b = None /\
  exists verts_m faces,
    group_lookup groups (group_name b) = Some (verts_m, faces) /\
    10 <= length verts_m /\ faces <> [] /\
    build_pm_rings_for_mesh atan2 list_of_set verts_m faces
    = Ok (part_x_ft b, rings b, half_n_max b) /\
    rings b <> [] /\
    part_rad_ft b = compute_part_rad_from_rings (rings b) 1.

Lemma bodies_loop_spec (groups : list group) (order : list (nat * string)) :
  forall bodies,
    NoDup (map snd order) ->
    bodies_loop atan2 list_of_set groups order = Ok bodies ->
    NoDup (map group_name bodies) /\
    Forall
      (fun b => exists idx,
         In (idx, group_name b) order /\ body_from groups idx b)
      bodies.
Proof.
  induction order as [|[idx name] rest IH]; intros bodies Hnd H.
  - injection H as <-. split; constructor.
  - cbn [map snd] in Hnd. inversion Hnd as [|? ? Hname Hnd']; subst.
    assert (Hskip : bodies_loop atan2 list_of_set groups rest = Ok bodies ->
      NoDup (map group_name bodies) /\
      Forall
        (fun b => exists i,
           In (i, group_name b) ((idx, name) :: rest) /\ body_from groups i b)
        bodies).
    { intros Hr. destruct (IH bodies Hnd' Hr) as [Hn Hf].
      split; [exact Hn|]. eapply Forall_impl; [|exact Hf].
      intros b (i & Hi & Hb). exists i. split; [now right|exact Hb]. }
    cbn [bodies_loop] in H.
    destruct (group_lookup groups name) as [[verts_m faces]|] eqn:Eg;
      [|discriminate].
    destruct faces as [|f faces']; [now apply Hskip|].
    destruct (Nat.ltb_spec (length verts_m) 10) as [Hlt|Hge];
      [now apply Hskip|].
    destruct (build_pm_rings_for_mesh atan2 list_of_set verts_m (f :: faces'))
      as [[[part_x rings0] half_n]|] eqn:Er; cbn [bind] in H; [|discriminate].
    destruct rings0 as [|r0 rings']; [now apply Hskip|].
    destruct (bodies_loop atan2 list_of_set groups rest) as [more|] eqn:Em;
      cbn [bind] in H; [|discriminate].
    injection H as <-.
    destruct (IH more Hnd' eq_refl) as [Hn Hf].
    split.
    + cbn [map group_name]. constructor; [|exact Hn].
      intros Hin. apply Hname.
      apply in_map_iff in Hin as (b & <- & Hb).
      rewrite Forall_forall in Hf. destruct (Hf b Hb) as (i & Hi & _).
      apply in_map_iff. exists (i, group_name b). auto.
    + constructor.
      * exists idx. split; [now left|].
        split; [reflexivity|]. split; [reflexivity|].
        exists verts_m, (f :: faces'). cbn [group_name rings part_x_ft
          half_n_max part_rad_ft].
        split; [exact Eg|]. split; [exact Hge|]. split; [discriminate|].
        split; [exact Er|]. split; [discriminate|reflexivity].
      * eapply Forall_impl; [|exact Hf].
        intros b (i & Hi & Hb). exists i. split; [now right|exact Hb].
Qed.

(** When [build_bodies_from_obj] returns, every body comes from a group of
    its own: a group with at least 10 vertices and at least one face, for
    which [build_pm_rings_for_mesh] returned the rings (at least one), the
    half count and the offset the body carries.  The body index is the
    position of the group in the processing order, groups that were
    skipped included, and the radius is that of the rings with a buffer of
    one foot. *)
Theorem build_bodies_from_obj_spec (groups : list group) (bodies : list body) :
  build_bodies_from_obj atan2 list_of_set groups = Ok bodies ->
  NoDup (map group_name bodies) /\
  Forall
    (fun b => exists idx,
       nth_error (body_order groups) idx = Some (group_name b) /\
       body_from groups idx b)
    bodies.
Proof.
  unfold build_bodies_from_obj. intros H.
  destruct (body_order_shape groups) as (rest & _ & _ & Hnd & _).
  apply bodies_loop_spec in H as [Hn Hf];
    [|now rewrite map_snd_enumerate_from].
  split; [exact Hn|]. eapply Forall_impl; [|exact Hf].
  intros b (idx & Hi & Hb). exists idx. split; [|exact Hb].
  apply in_enumerate_from in Hi as [_ Hi]. now rewrite Nat.sub_0_r in Hi.
Qed.

(** ** The run: the only exceptions are those of the template step *)

Lemma insert_Z_in (x y : Z) (l : list Z) :
  In y (insert_Z x l) <-> y = x \/ In y l.
Proof.
  split; intros H.
  - apply (Permutation_in _ (insert_Z_perm x l)) in H.
    destruct H; auto.
  - apply (Permutation_in _ (Permutation_sym (insert_Z_perm x l))).
    destruct H; [left|right]; auto.
Qed.

Lemma sorted_keys_in (keys : list Z) (k : Z) :
  In k (fold_right insert_Z [] keys) -> In k keys.
Proof.
  induction keys as [|x keys IH]; simpl; [auto|].
  rewrite insert_Z_in. intros [->|H]; auto.
Qed.

Lemma index_lookup_some (m : list (Z * body)) (k : Z) :
  In k (map fst m) -> exists b, index_lookup m k = Some b.
Proof.
  intros H. unfold index_lookup.
  destruct (find (fun kb => (fst kb =? k)%Z) m) as [kb|] eqn:E;
    [simpl; eauto|exfalso].
  apply in_map_iff in H as (kb & <- & Hkb).
  pose proof (find_none _ _ E kb Hkb) as Hf. simpl in Hf.
  now rewrite Z.eqb_refl in Hf.
Qed.

Lemma ordered_bodies_total (m : list (Z * body)) (indices : list Z) :
  (forall i, In i indices -> In i (map fst m)) ->
  exists bs,
    fold_right
      (fun i acc =>
         match index_lookup m i with
         | None => Raise KeyError
         | Some b => bs <- acc ;; Ok (b :: bs)
         end)
      (Ok []) indices = Ok bs.
Proof.
  induction indices as [|i indices IH]; intros H; [simpl; eauto|].
  cbn [fold_right].
  destruct (index_lookup_some m i (H i (or_introl eq_refl))) as [b ->].
  destruct IH as [bs ->]; [intros j Hj; apply H; now right|].
  cbn [bind]. eauto.
Qed.

Lemma blocks_loop_raise (template_lines : list string) (todo : list nat) :
  forall ordered e,
    (forall i, In i todo -> i < length ordered) ->
    blocks_loop build_body_block_from_template template_lines ordered todo
    = Raise e ->
    exists ordered' i,
      build_body_block_from_template ordered' i template_lines = Raise e.
Proof.
  induction todo as [|i rest IH]; intros ordered e Hlt H; [discriminate|].
  cbn [blocks_loop] in H.
  destruct (nth_error ordered i) as [b|] eqn:En.
  - set (ordered1 := list_set ordered i (with_index b (Z.of_nat i))) in *.
    destruct (build_body_block_from_template ordered1 i template_lines)
      as [block|e0] eqn:Eb; cbn [bind] in H.
    + destruct (blocks_loop build_body_block_from_template template_lines
                  ordered1 rest) as [more|e1] eqn:Em; cbn [bind] in H;
        [discriminate|].
      injection H as <-. apply (IH ordered1); [|exact Em].
      intros j Hj. unfold ordered1. rewrite length_list_set.
      apply Hlt. now right.
    + injection H as <-. eauto.
  - apply nth_error_None in En.
    specialize (Hlt i (or_introl eq_refl)). lia.
Qed.

(** An exception leaves [generate_bodies_and_rewrite_acf] only when the
    template step raises it: a failure to build the bodies or to rewrite the
    document is caught and logged, and the look-ups by body index in
    between cannot fail. *)
Theorem generate_raises_only_template (groups : list group)
  (acf_lines template_lines : list string) (mesh_rows : list mesh_row)
  (e : exn) :
  generate_bodies_and_rewrite_acf atan2 list_of_set
    build_body_block_from_template groups acf_lines template_lines mesh_rows
  = Raise e ->
  exists ordered i,
    build_body_block_from_template ordered i template_lines = Raise e.
Proof.
  unfold generate_bodies_and_rewrite_acf.
  destruct (build_bodies_from_obj atan2 list_of_set groups) as [bodies|];
    [|discriminate].
  destruct (assign_rows bodies mesh_rows) as [m w].
  destruct m as [|kb m']; [discriminate|].
  destruct (list_eq_dec Z.eq_dec _ _) as [_|_]; cbn [negb]; [|discriminate].
  destruct (ordered_bodies_total (kb :: m')
              (fold_right insert_Z [] (map fst (kb :: m'))))
    as [bs ->]; [intros i; apply sorted_keys_in|].
  cbn [bind].
  destruct (blocks_loop _ template_lines bs (seq 0 (length bs)))
    as [all_lines|e0] eqn:Eb; cbn [bind].
  - destruct (rewrite_acf_bodies acf_lines all_lines); discriminate.
  - intros [= <-]. eapply blocks_loop_raise; [|exact Eb].
    intros i Hi. apply in_seq in Hi. lia.
Qed.

End BodiesSpec.

Definition spindle_groups : list group :=
  [("wing", ([(0, 0, 0)%Q], [[0; 0; 0]]));
   ("Fuselage", (spindle_verts, spindle_faces))].

Lemma build_bodies_from_obj_spec_witness :
  exists bodies,
    build_bodies_from_obj diamond_atan2 insertion_order spindle_groups
    = Ok bodies /\
    map body_index bodies = [1%Z] /\
    NoDup (map group_name bodies).
Proof.
  destruct (build_bodies_from_obj diamond_atan2 insertion_order spindle_groups)
    as [bodies|] eqn:E; [|vm_compute in E; discriminate].
  exists bodies. split; [reflexivity|].
  split; [vm_compute in E; injection E as <-; reflexivity|].
  apply (build_bodies_from_obj_spec diamond_atan2 insertion_order
           spindle_groups bodies E).
Defined.

Lemma generate_raises_only_template_witness :
  generate_bodies_and_rewrite_acf diamond_atan2 insertion_order
    (fun _ _ _ => Raise ValueError) spindle_groups demo_doc []
    [MeshRow "Fuselage" 0 "Fuselage"] = Raise ValueError /\
  exists ordered i,
    (fun (_ : list body) (_ : nat) (_ : list string) =>
       @Raise (list string) ValueError) ordered i [] = Raise ValueError.
Proof.
  split; [vm_compute; reflexivity|].
  apply (generate_raises_only_template diamond_atan2 insertion_order
           (fun _ _ _ => Raise ValueError) spindle_groups demo_doc []
           [MeshRow "Fuselage" 0 "Fuselage"] ValueError).
  vm_compute. reflexivity.
Defined.

(** ** Malformed meshes that are skipped *)





(** ** Dimension discovery: which line gives a count *)

Lemma digit_val_digit (c : ascii) (d : Z) :
  PyStr.digit_val c = Some d -> is_digit c.
Proof.
  unfold is_digit.
  destruct c as [[] [] [] [] [] [] [] []]; vm_compute; intros H;
    try discriminate; tauto.
Qed.

(** A character of an integer literal: a digit, a sign or an underscore. *)
Definition literal_char (c : ascii) : Prop :=
  is_digit c \/ c = "+"%char \/ c = "-"%char \/ c = "_"%char.

Lemma int_digits_chars (n : nat) :
  forall s acc v,
    String.length s <= n ->
    PyStr.int_digits s acc = Some v ->
    Forall literal_char (list_ascii_of_string s).
Proof.
  induction n as [|n IH]; intros s acc v Hlen H.
  - destruct s; [constructor|simpl in Hlen; lia].
  - destruct s as [|c s]; [constructor|]. simpl in Hlen.
    cbn [PyStr.int_digits] in H.
    destruct (PyStr.digit_val c) as [d|] eqn:Ec.
    + constructor; [left; eapply digit_val_digit, Ec|].
      eapply IH; [|exact H]. lia.
    + destruct (Ascii.eqb c "_") eqn:Eu; [|discriminate].
      apply Ascii.eqb_eq in Eu. subst c.
      destruct s as [|c' s']; [discriminate|].
      destruct (PyStr.digit_val c') as [d|] eqn:Ec'; [|discriminate].
      constructor; [right; right; now right|].
      constructor; [left; eapply digit_val_digit, Ec'|].
      eapply IH; [|exact H]. simpl in Hlen. lia.
Qed.

Lemma int_unsigned_chars (s : string) (v : Z) :
  PyStr.int_unsigned s = Some v ->
  Forall literal_char (list_ascii_of_string s).
Proof.
  destruct s as [|c s]; [discriminate|]. cbn [PyStr.int_unsigned].
  destruct (PyStr.digit_val c) as [d|] eqn:Ec; [|discriminate].
  intros H. constructor; [left; eapply digit_val_digit, Ec|].
  eapply (int_digits_chars (String.length s)); [reflexivity|exact H].
Qed.

Lemma to_int_chars (tok : string) (v : Z) :
  solid tok -> PyStr.to_int tok = Some v ->
  Forall literal_char (list_ascii_of_string tok).
Proof.
  intros Hs. unfold PyStr.to_int. rewrite (strip_of_solid tok Hs).
  destruct tok as [|c s]; [discriminate|].
  assert (Hc : c = "-"%char \/ c = "+"%char \/
               PyStr.int_unsigned (String c s) = PyStr.to_int (String c s)).
  { unfold PyStr.to_int. rewrite (strip_of_solid _ Hs).
    destruct c as [[] [] [] [] [] [] [] []]; auto. }
  destruct Hc as [-> |[-> |Hc]].
  - destruct (PyStr.int_unsigned s) as [u|] eqn:Eu; [|discriminate].
    intros _. constructor; [right; right; now left|].
    eapply int_unsigned_chars, Eu.
  - intros H. constructor; [right; now left|].
    eapply int_unsigned_chars, H.
  - intros H.
    assert (H' : PyStr.to_int (String c s) = Some v).
    { unfold PyStr.to_int. rewrite (strip_of_solid _ Hs). exact H. }
    rewrite <- Hc in H'. eapply int_unsigned_chars, H'.
Qed.

Lemma last_token_of (s tok : string) :
  tok <> "" -> solid tok ->
  last_token_int (s ++ " " ++ tok) = PyStr.to_int tok.
Proof.
  intros Hne Hs. unfold last_token_int, PyStr.split.
  change (s ++ " " ++ tok)%string with (s ++ String " " tok)%string.
  destruct (split_ws_last s tok Hne Hs "") as (front & ->).
  rewrite rev_app_distr. reflexivity.
Qed.

Lemma strip_frame (l : string) :
  exists lead trail,
    l = (lead ++ PyStr.strip l ++ trail)%string /\
    all_space lead /\ all_space trail /\
    (PyStr.strip l = "" \/
     (exists c t, PyStr.strip l = String c t /\ PyStr.isspace c = false) /\
     ends_solid (PyStr.strip l)).
Proof.
  unfold PyStr.strip.
  destruct (lstrip_spec l) as (lead & El & Hlead & Hl).
  destruct (rstrip_spec (PyStr.lstrip l)) as (trail & Er & Htrail & Hr).
  remember (PyStr.rstrip (PyStr.lstrip l)) as R eqn:ER. clear ER.
  exists lead, trail. split; [now rewrite <- Er|].
  split; [exact Hlead|]. split; [exact Htrail|].
  destruct Hr as [Hr|Hr]; [now left|right]. split; [|exact Hr].
  assert (HR : R <> "").
  { intros ->. destruct Hr as (s' & x & E & _). destruct s'; discriminate. }
  destruct R as [|c' t']; [congruence|].
  destruct Hl as [Hl|(c & t & Hl & Hc)]; rewrite Hl in Er;
    [discriminate|].
  simpl in Er. injection Er as -> _. eauto.
Qed.

Section DimsScan.

Variables pi pj : string.
Hypothesis exclusive :
  forall t, String.prefix pi t = true -> String.prefix pj t = false.

(** What one line does to the two counts. *)
Definition dims_step (st : option Z * option Z) (s : string)
  : option Z * option Z :=
  let t := PyStr.strip s in
  if String.prefix pi t then (or_keep (last_token_int t) (fst st), snd st)
  else if String.prefix pj t then (fst st, or_keep (last_token_int t) (snd st))
  else st.

Definition both_known (st : option Z * option Z) : bool :=
  match st with
  | (Some _, Some _) => true
  | _ => false
  end.

Lemma read_dims_loop_cons (s : string) (rest : list string)
  (st : option Z * option Z) :
  read_dims_loop pi pj (s :: rest) (fst st) (snd st) =
  if both_known (dims_step st s) then dims_step st s
  else read_dims_loop pi pj rest (fst (dims_step st s)) (snd (dims_step st s)).
Proof.
  cbn [read_dims_loop]. unfold dims_step, PyStr.startswith.
  destruct st as [i j]. cbn [fst snd].
  destruct (String.prefix pi (PyStr.strip s)).
  - destruct (or_keep (last_token_int (PyStr.strip s)) i), j; reflexivity.
  - destruct (String.prefix pj (PyStr.strip s)).
    + destruct i, (or_keep (last_token_int (PyStr.strip s)) j); reflexivity.
    + destruct i, j; reflexivity.
Qed.

(** The loop is the fold of [dims_step] over the shortest prefix after
    which both counts are known, or over all the lines. *)
Lemma read_dims_loop_scan (lines : list string) :
  forall st,
    both_known st = false ->
    exists seen rest,
      lines = seen ++ rest /\
      read_dims_loop pi pj lines (fst st) (snd st) = fold_left dims_step seen st /\
      ((exists seen0 l,
          seen = seen0 ++ [l] /\
          both_known (fold_left dims_step seen0 st) = false /\
          both_known (fold_left dims_step seen st) = true) \/
       (rest = [] /\ both_known (fold_left dims_step seen st) = false)).
Proof.
  induction lines as [|s tl IH]; intros st Hst.
  - exists [], []. split; [reflexivity|]. split; [now destruct st|].
    right. auto.
  - rewrite read_dims_loop_cons.
    destruct (both_known (dims_step st s)) eqn:Eb.
    + exists [s], tl. split; [reflexivity|]. split; [reflexivity|].
      left. exists [], s. auto.
    + destruct (IH (dims_step st s) Eb) as (seen & rest & -> & Hr & Hstop).
      exists (s :: seen), rest. split; [reflexivity|].
      split; [exact Hr|].
      destruct Hstop as [(seen0 & l & -> & H0 & H1)|[-> H1]].
      * left. exists (s :: seen0), l. auto.
      * right. auto.
Qed.

(** Line [l] sets the count of prefix [p] to [v]: its stripped text starts
    with [p] and its last token is the integer [v]. *)
Definition sets_count (p l : string) (v : Z) : Prop :=
  String.prefix p (PyStr.strip l) = true /\
  last_token_int (PyStr.strip l) = Some v.

(** Line [l] leaves the count of prefix [p] as it is. *)
Definition keeps_count (p l : string) : Prop :=
  String.prefix p (PyStr.strip l) = false \/
  last_token_int (PyStr.strip l) = None.

(** [r] is the value of the last line of [seen] that sets the count of
    [p], and [default] when there is none. *)
Definition last_set (p : string) (seen : list string) (default r : Z) : Prop :=
  (exists before l after,
     seen = before ++ l :: after /\ sets_count p l r /\
     Forall (keeps_count p) after) \/
  (Forall (keeps_count p) seen /\ r = default).

(** Some line of [seen] sets the count of [p]. *)
Definition count_known (p : string) (seen : list string) : Prop :=
  exists l v, In l seen /\ sets_count p l v.

Definition count_state (p : string) (seen : list string) (c : option Z)
  : Prop :=
  match c with
  | Some v =>
      exists before l after,
        seen = before ++ l :: after /\ sets_count p l v /\
        Forall (keeps_count p) after
  | None => Forall (keeps_count p) seen
  end.

Lemma count_state_keep (p : string) (seen : list string) (c : option Z)
  (l : string) :
  count_state p seen c -> keeps_count p l -> count_state p (seen ++ [l]) c.
Proof.
  destruct c as [v|]; simpl.
  - intros (before & l0 & after & -> & Hs & Ha) Hk.
    exists before, l0, (after ++ [l]). rewrite <- app_assoc.
    split; [reflexivity|]. split; [exact Hs|].
    apply Forall_app. auto.
  - intros Hf Hk. apply Forall_app. auto.
Qed.

Lemma count_state_set (p : string) (seen : list string) (l : string) (v : Z) :
  sets_count p l v -> count_state p (seen ++ [l]) (Some v).
Proof. intros H. exists seen, l, []. auto. Qed.

Lemma fold_dims_state (seen : list string) :
  count_state pi seen (fst (fold_left dims_step seen (None, None))) /\
  count_state pj seen (snd (fold_left dims_step seen (None, None))).
Proof.
  induction seen as [|l seen IH] using rev_ind.
  - split; constructor.
  - rewrite fold_left_app. cbn [fold_left].
    destruct (fold_left dims_step seen (None, None)) as [i j].
    cbn [fst snd] in IH. destruct IH as [Hi Hj].
    unfold dims_step. cbn [fst snd].
    destruct (String.prefix pi (PyStr.strip l)) eqn:Ei.
    + cbn [fst snd]. split.
      * destruct (last_token_int (PyStr.strip l)) as [v|] eqn:Ev; cbn [or_keep].
        -- apply count_state_set. split; assumption.
        -- apply count_state_keep; [exact Hi|]. now right.
      * apply count_state_keep; [exact Hj|]. left. now apply exclusive.
    + destruct (String.prefix pj (PyStr.strip l)) eqn:Ej; cbn [fst snd].
      * split.
        -- apply count_state_keep; [exact Hi|]. now left.
        -- destruct (last_token_int (PyStr.strip l)) as [v|] eqn:Ev;
             cbn [or_keep].
           ++ apply count_state_set. split; assumption.
           ++ apply count_state_keep; [exact Hj|]. now right.
      * split; (apply count_state_keep; [assumption|now left]).
Qed.

Lemma count_state_known (p : string) (seen : list string) (c : option Z) :
  count_state p seen c -> (count_known p seen <-> c <> None).
Proof.
  destruct c as [v|]; simpl.
  - intros (before & l & after & -> & Hs & _). split; [discriminate|].
    intros _. exists l, v. split; [|exact Hs].
    apply in_app_iff. right. now left.
  - intros Hf. split; [|congruence].
    intros (l & v & Hl & Hp & Hv). exfalso.
    rewrite Forall_forall in Hf. destruct (Hf l Hl); congruence.
Qed.

Lemma both_known_iff (seen : list string) :
  both_known (fold_left dims_step seen (None, None)) = true <->
  count_known pi seen /\ count_known pj seen.
Proof.
  destruct (fold_dims_state seen) as [Hi Hj].
  apply count_state_known in Hi, Hj.
  destruct (fold_left dims_step seen (None, None)) as [[i|] [j|]];
    cbn [fst snd both_known] in *; split;
    try discriminate; try reflexivity.
  - intros _. split; [apply Hi|apply Hj]; discriminate.
  - intros [_ H]. apply Hj in H. congruence.
  - intros [H _]. apply Hi in H. congruence.
  - intros [H _]. apply Hi in H. congruence.
Qed.

Lemma read_dims_scan_spec (lines : list string) :
  exists seen rest,
    lines = seen ++ rest /\
    last_set pi seen 20
      (match fst (read_dims_loop pi pj lines None None) with
       | Some v => v
       | None => 20%Z
       end) /\
    last_set pj seen 18
      (match snd (read_dims_loop pi pj lines None None) with
       | Some v => v
       | None => 18%Z
       end) /\
    ((count_known pi seen /\ count_known pj seen /\
      exists seen0 l,
        seen = seen0 ++ [l] /\
        ~ (count_known pi seen0 /\ count_known pj seen0)) \/
     (rest = [] /\ ~ (count_known pi seen /\ count_known pj seen))).
Proof.
  destruct (read_dims_loop_scan lines (None, None) eq_refl)
    as (seen & rest & E & Hr & Hstop).
  cbn [fst snd] in Hr. exists seen, rest. split; [exact E|].
  destruct (fold_dims_state seen) as [Hi Hj]. rewrite <- Hr in Hi, Hj.
  split; [|split].
  - destruct (fst (read_dims_loop pi pj lines None None)); [now left|].
    right. auto.
  - destruct (snd (read_dims_loop pi pj lines None None)); [now left|].
    right. auto.
  - destruct Hstop as [(seen0 & l & -> & H0 & H1)|[-> H1]].
    + left. apply both_known_iff in H1 as [K1 K2].
      split; [exact K1|]. split; [exact K2|].
      exists seen0, l. split; [reflexivity|].
      intros K. apply both_known_iff in K. congruence.
    + right. split; [reflexivity|].
      intros K. apply both_known_iff in K. congruence.
Qed.

End DimsScan.

(** C9 -- [read_target_dims_from_acf] scans the lines in order.  A line sets
    the i count when its stripped text starts with
    [P _body/<b>/_locked/i_count] and its last token is an integer, and the
    j count likewise; every other line leaves the counts as they are.  The
    scan covers the shortest part of the document, from its start, in which
    both counts are set, or the whole document when there is none.  Each
    count returned is the value of the last line of that part that sets it,
    and 20 (for i) or 18 (for j) when no line of that part does.

    The first three parts say what the words mean: a text that ends in a
    space and the numeral of [n] has the integer [n] as its last token; a
    last token with a character that is no digit, sign or underscore is not
    an integer; and the stripped text of a line is the line without the
    white space at its two ends. *)
Theorem read_target_dims_from_acf_spec (acf_lines : list string) (b : Z) :
  let dec := fun n : Z => NilZero.string_of_int (Z.to_int n) in
  let pi := ("P _body/" ++ dec b ++ "/_locked/i_count")%string in
  let pj := ("P _body/" ++ dec b ++ "/_locked/j_count")%string in
  let r := read_target_dims_from_acf acf_lines b in
  (forall s n, last_token_int (s ++ " " ++ dec n) = Some n) /\
  (forall s tok c,
     solid tok -> In c (list_ascii_of_string tok) -> ~ literal_char c ->
     last_token_int (s ++ " " ++ tok) = None) /\
  (forall l,
     exists lead trail,
       l = (lead ++ PyStr.strip l ++ trail)%string /\
       all_space lead /\ all_space trail /\
       (PyStr.strip l = "" \/
        (exists c t, PyStr.strip l = String c t /\ PyStr.isspace c = false) /\
        ends_solid (PyStr.strip l))) /\
  exists seen rest,
    acf_lines = seen ++ rest /\
    last_set pi seen 20 (fst r) /\
    last_set pj seen 18 (snd r) /\
    ((count_known pi seen /\ count_known pj seen /\
      exists seen0 l,
        seen = seen0 ++ [l] /\
        ~ (count_known pi seen0 /\ count_known pj seen0)) \/
     (rest = [] /\ ~ (count_known pi seen /\ count_known pj seen))).
Proof.
  intros dec pi pj r.
  split; [intros s n; apply (last_token_int_of_int s n)|].
  split.
  { intros s tok c Hs Hc Hno.
    assert (Hne : tok <> "") by (intros ->; destruct Hc).
    rewrite (last_token_of s tok Hne Hs).
    destruct (PyStr.to_int tok) as [v|] eqn:E; [exfalso|reflexivity].
    pose proof (to_int_chars tok v Hs E) as Hf.
    rewrite Forall_forall in Hf. now apply Hno, Hf. }
  split; [exact strip_frame|].
  assert (Hex : forall t, String.prefix pi t = true ->
                          String.prefix pj t = false).
  { intros t. apply (count_prefixes_exclusive b t). }
  destruct (read_dims_scan_spec pi pj Hex acf_lines)
    as (seen & rest & E & Hi & Hj & Hstop).
  exists seen, rest. split; [exact E|].
  subst r. unfold read_target_dims_from_acf.
  change (i_count_prefix b) with pi. change (j_count_prefix b) with pj.
  destruct (read_dims_loop pi pj acf_lines None None) as [i j].
  cbn [fst snd] in *. auto.
Qed.

(** C9, as first stated, fails in two ways.  The test for the path is a
    prefix test, so a line with a longer key, here [i_count_backup], sets
    the count: the result is 99 although the [i_count] line of the body
    carries 5.  And of two [i_count] lines the later one wins when it
    comes before the count of j is known, the earlier one when it comes
    after. *)
Lemma read_target_dims_counterexample :
  read_target_dims_from_acf
    ["P _body/0/_locked/i_count_backup 99"; "P _body/0/_locked/j_count 7";
     "P _body/0/_locked/i_count 5"] 0 = (99%Z, 7%Z) /\
  read_target_dims_from_acf
    ["P _body/0/_locked/i_count 5"; "P _body/0/_locked/i_count 6";
     "P _body/0/_locked/j_count 7"] 0 = (6%Z, 7%Z) /\
  read_target_dims_from_acf
    ["P _body/0/_locked/i_count 5"; "P _body/0/_locked/j_count 7";
     "P _body/0/_locked/i_count 6"] 0 = (5%Z, 7%Z).
Proof. repeat split; reflexivity. Qed.
